(** * Conway's Game of Life donation channel: grid engine and pattern stamping

    A shallow embedding of [channels/conways-game-of-life/index.tsx] in its
    two revisions: the earlier one (four cell states, a fixed exclusion zone
    for donation placement) and the later one (a fifth state [IMMUNE] for
    the running total, drawn in doubled glyphs, with immune-aware
    placement).  JavaScript numbers that hold indices and coordinates are
    modelled as [Z], arrays as lists, objects used as tables as [gmap]. *)

From stdpp Require Import base decidable option list numbers strings
  pretty gmap fin_maps.
From Stdlib Require Import ZArith QArith.QArith_base QArith.Qround Lia.

#[local] Open Scope Z_scope.
#[local] Set Warnings "-clear-no-such-hyp".

(** ** Configuration *)

Module CONFIG.
Definition COLS : Z := 182.
Definition ROWS : Z := 55.
Definition GAME_SPEED : Z := 100.
Definition PENDING_DURATION : Z := 3000.
Definition INITIAL_TOTAL_DURATION : Z := 4000.
End CONFIG.

(** ** Cell states and the grid *)

Inductive CellState : Set := DEAD | ALIVE | PENDING | INITIAL | IMMUNE.

#[global] Instance CellState_eq_dec : EqDecision CellState.
Proof. solve_decision. Defined.

(** [GridType = CellState[][]]: an array of rows. *)
Abbreviation GridType := (list (list CellState)).

(** [grid[r][c]] for non-negative integer indices; [None] is JavaScript's
    [undefined] (a read past the end of a row).  The callers below only
    read row indices that they checked against [grid.length]. *)
Definition getCell (grid : GridType) (r c : nat) : option CellState :=
  grid !! r ≫= λ row, row !! c.

(** [grid[r][c] = v] for a position of the grid.  (JavaScript would
    lengthen a row that is too short; every write below is to a position
    that its caller checked, and on a rectangular grid that position
    exists.) *)
Definition setCell (grid : GridType) (r c : nat) (v : CellState) : GridType :=
  alter (λ row, <[c := v]> row) r grid.

(** [grid[0].length], where row 0 exists. *)
Definition rowLength0 (grid : GridType) : option Z :=
  (λ row, Z.of_nat (length row)) <$> grid !! 0%nat.

(** The shape the program maintains: [setupGrid] builds [ROWS] rows of
    [COLS] cells and no operation changes a length. *)
Definition rectangular (rows cols : nat) (grid : GridType) : Prop :=
  length grid = rows ∧ Forall (λ row, length row = cols) grid.

(** [setupGrid()] *)
Definition setupGrid : GridType :=
  replicate (Z.to_nat CONFIG.ROWS) (replicate (Z.to_nat CONFIG.COLS) DEAD).

(** ** One generation *)

(** The test of [countLiveNeighbors]:
    [r >= 0 && r < grid.length && c >= 0 && c < grid[0].length &&
     grid[r][c] === CellState.ALIVE], with [&&] short-circuiting, so that
    [grid[0]] is only read when the grid has a row. *)
Definition isLiveAt (grid : GridType) (r c : Z) : bool :=
  bool_decide (r >= 0) && bool_decide (r < Z.of_nat (length grid)) &&
  bool_decide (c >= 0) &&
  match rowLength0 grid with
  | Some len0 =>
      bool_decide (c < len0) &&
      bool_decide (getCell grid (Z.to_nat r) (Z.to_nat c) = Some ALIVE)
  | None => false
  end.

(** [countLiveNeighbors(grid, row, col)]: the two nested loops over
    [i, j = -1, 0, 1], skipping [i === 0 && j === 0]. *)
Definition countLiveNeighbors (grid : GridType) (row col : Z) : Z :=
  foldl (λ count i,
    foldl (λ count j,
      if bool_decide (i = 0) && bool_decide (j = 0) then count
      else
        let r := row + i in
        let c := col + j in
        if isLiveAt grid r c then count + 1 else count)
      count [-1; 0; 1])
    0 [-1; 0; 1].

(** The body of the inner loop of [updateGrid] at [(i, j)]: it reads
    [grid] (the prior generation) and writes [newGrid].  [frozen] is the
    test before [continue]. *)
Definition updateCell (frozen : CellState → bool)
    (grid newGrid : GridType) (i j : nat) : GridType :=
  match getCell grid i j with
  | Some s =>
      if frozen s then newGrid
      else
        let liveNeighbors := countLiveNeighbors grid (Z.of_nat i) (Z.of_nat j) in
        if bool_decide (s = ALIVE) &&
           (bool_decide (liveNeighbors < 2) || bool_decide (liveNeighbors > 3))
        then setCell newGrid i j DEAD
        else if bool_decide (s = DEAD) && bool_decide (liveNeighbors = 3)
        then setCell newGrid i j ALIVE
        else newGrid
  | None => newGrid
  end.

(** [updateGrid]: [newGrid] starts as a copy of every row of [grid]; the
    loops run over [i < grid.length] and [j < grid[i].length]. *)
Definition updateGridWith (frozen : CellState → bool) (grid : GridType) : GridType :=
  let newGrid := (λ row, row) <$> grid in
  foldl (λ newGrid i,
    foldl (λ newGrid j, updateCell frozen grid newGrid i j)
      newGrid (seq 0 (length (default [] (grid !! i)))))
    newGrid (seq 0 (length grid)).

(** The later revision: [PENDING], [INITIAL] and [IMMUNE] are skipped. *)
Module V2.
Definition frozen (s : CellState) : bool :=
  bool_decide (s = PENDING) || bool_decide (s = INITIAL) || bool_decide (s = IMMUNE).
Definition updateGrid : GridType → GridType := updateGridWith frozen.
End V2.

(** The earlier revision: its enumeration has no [IMMUNE], and only
    [PENDING] and [INITIAL] are skipped. *)
Module V1.
Definition frozen (s : CellState) : bool :=
  bool_decide (s = PENDING) || bool_decide (s = INITIAL).
Definition updateGrid : GridType → GridType := updateGridWith frozen.
End V1.

(** The value that one pass of the inner loop body leaves in cell
    [(i, j)], as a function of the prior generation only. *)
Definition nextCell (frozen : CellState → bool)
    (grid : GridType) (i j : nat) (s : CellState) : CellState :=
  if frozen s then s
  else
    let liveNeighbors := countLiveNeighbors grid (Z.of_nat i) (Z.of_nat j) in
    if bool_decide (s = ALIVE) &&
       (bool_decide (liveNeighbors < 2) || bool_decide (liveNeighbors > 3))
    then DEAD
    else if bool_decide (s = DEAD) && bool_decide (liveNeighbors = 3)
    then ALIVE
    else s.

(** The nested loops of [updateGrid] visit these positions in order:
    every [(i, j)] with [i < grid.length] and [j < grid[i].length]. *)
Definition positions (grid : GridType) : list (nat * nat) :=
  i ← seq 0 (length grid);
  (λ j, (i, j)) <$> seq 0 (length (default [] (grid !! i))).

(** The loop body run over a list of positions. *)
Definition run (frozen : CellState → bool) (grid : GridType)
    (ps : list (nat * nat)) (newGrid : GridType) : GridType :=
  foldl (λ ng p, updateCell frozen grid ng p.1 p.2) newGrid ps.

(** ** The rule as the specification words it *)

(** The cell at integer coordinates; nothing outside the grid. *)
Definition cellAt (grid : GridType) (r c : Z) : option CellState :=
  if decide (0 ≤ r ∧ 0 ≤ c) then getCell grid (Z.to_nat r) (Z.to_nat c) else None.

(** The eight surrounding positions, as offsets. *)
Definition neighborOffsets : list (Z * Z) :=
  [(-1, -1); (-1, 0); (-1, 1); (0, -1); (0, 1); (1, -1); (1, 0); (1, 1)].

(** How many of the eight surrounding positions hold an [ALIVE] cell: a
    position outside the grid holds nothing, and a [PENDING], [INITIAL]
    or [IMMUNE] neighbor is not [ALIVE]. *)
Definition aliveNeighbors (grid : GridType) (row col : Z) : Z :=
  Z.of_nat (length (filter
    (λ d, cellAt grid (row + d.1) (col + d.2) = Some ALIVE) neighborOffsets)).

(** Conway's rule on a cell with [n] live neighbors. *)
Definition conwayRule (s : CellState) (n : Z) : CellState :=
  match s with
  | ALIVE => if decide (n < 2 ∨ n > 3) then DEAD else ALIVE
  | DEAD => if decide (n = 3) then ALIVE else DEAD
  | _ => s
  end.

(** The protected states. *)
Definition protected (s : CellState) : Prop :=
  s = PENDING ∨ s = INITIAL ∨ s = IMMUNE.

#[global] Instance protected_dec s : Decision (protected s).
Proof. unfold protected. apply _. Defined.

(** ** Glyph atlas *)

(** A glyph: the [row, col] offsets of its lit pixels. *)
Abbreviation Glyph := (list (Z * Z)).

Definition digits : gmap Z Glyph :=
  list_to_map [
    (0,
     [(1, 1); (1, 2); (1, 3); (2, 1); (2, 3); (3, 1); (3, 3); (4, 1);
      (4, 3); (5, 1); (5, 2); (5, 3)]);
    (1,
     [(1, 1); (2, 1); (3, 1); (4, 1); (5, 1)]);
    (2,
     [(1, 1); (1, 2); (1, 3); (2, 3); (3, 1); (3, 2); (3, 3); (4, 1);
      (5, 1); (5, 2); (5, 3)]);
    (3,
     [(1, 1); (1, 2); (1, 3); (2, 3); (3, 1); (3, 2); (3, 3); (4, 3);
      (5, 1); (5, 2); (5, 3)]);
    (4,
     [(1, 1); (1, 3); (2, 1); (2, 3); (3, 1); (3, 2); (3, 3); (4, 3);
      (5, 3)]);
    (5,
     [(1, 1); (1, 2); (1, 3); (2, 1); (3, 1); (3, 2); (3, 3); (4, 3);
      (5, 1); (5, 2); (5, 3)]);
    (6,
     [(1, 1); (1, 2); (1, 3); (2, 1); (3, 1); (3, 2); (3, 3); (4, 1);
      (4, 3); (5, 1); (5, 2); (5, 3)]);
    (7,
     [(1, 1); (1, 2); (1, 3); (2, 3); (3, 3); (4, 3); (5, 3)]);
    (8,
     [(1, 1); (1, 2); (1, 3); (2, 1); (2, 3); (3, 1); (3, 2); (3, 3);
      (4, 1); (4, 3); (5, 1); (5, 2); (5, 3)]);
    (9,
     [(1, 1); (1, 2); (1, 3); (2, 1); (2, 3); (3, 1); (3, 2); (3, 3);
      (4, 3); (5, 3)])
  ].

Definition digitsWidths : gmap Z Z :=
  list_to_map [(0, 3); (1, 1); (2, 3); (3, 3); (4, 3); (5, 3); (6, 3); (7, 3); (8, 3); (9, 3)].

Definition digitsLarge : gmap Z Glyph :=
  list_to_map [
    (0,
     [(1, 2); (1, 3); (1, 4); (1, 5); (1, 6); (1, 7); (1, 8); (2, 1);
      (2, 2); (2, 8); (2, 9); (3, 1); (3, 4); (3, 5); (3, 6); (3, 9);
      (3, 10); (4, 1); (4, 4); (4, 5); (4, 9); (4, 10); (5, 1); (5, 4);
      (5, 6); (5, 9); (5, 10); (6, 1); (6, 5); (6, 6); (6, 9); (6, 10);
      (7, 1); (7, 4); (7, 5); (7, 6); (7, 9); (7, 10); (8, 1); (8, 2);
      (8, 8); (8, 9); (8, 10); (9, 2); (9, 3); (9, 4); (9, 5); (9, 6);
      (9, 7); (9, 8); (9, 9); (9, 10); (10, 3); (10, 4); (10, 5); (10, 6);
      (10, 7); (10, 8); (10, 9)]);
    (1,
     [(1, 3); (1, 4); (1, 5); (1, 6); (2, 2); (2, 3); (2, 6); (2, 7);
      (3, 2); (3, 6); (3, 7); (4, 2); (4, 3); (4, 6); (4, 7); (5, 3);
      (5, 6); (5, 7); (6, 3); (6, 6); (6, 7); (7, 2); (7, 3); (7, 6);
      (7, 7); (8, 1); (8, 7); (9, 1); (9, 2); (9, 3); (9, 4); (9, 5);
      (9, 6); (9, 7); (10, 1); (10, 2); (10, 3); (10, 4); (10, 5); (10, 6);
      (10, 7)]);
    (2,
     [(1, 2); (1, 3); (1, 4); (1, 5); (1, 6); (1, 7); (1, 8); (2, 2);
      (2, 9); (3, 1); (3, 4); (3, 5); (3, 6); (3, 9); (4, 1); (4, 4);
      (4, 5); (4, 9); (5, 2); (5, 3); (5, 4); (5, 8); (5, 9); (6, 3);
      (6, 7); (6, 8); (7, 2); (7, 6); (7, 7); (7, 8); (7, 9); (8, 1);
      (8, 9); (9, 1); (9, 2); (9, 3); (9, 4); (9, 5); (9, 6); (9, 7);
      (9, 8); (9, 9); (10, 2); (10, 3); (10, 4); (10, 5); (10, 6); (10, 7);
      (10, 8)]);
    (3,
     [(1, 2); (1, 3); (1, 4); (1, 5); (1, 6); (1, 7); (1, 8); (2, 1);
      (2, 2); (2, 8); (2, 9); (3, 1); (3, 4); (3, 5); (3, 6); (3, 9);
      (4, 1); (4, 2); (4, 3); (4, 4); (4, 5); (4, 6); (4, 9); (5, 2);
      (5, 3); (5, 4); (5, 8); (5, 9); (6, 1); (6, 2); (6, 3); (6, 4);
      (6, 5); (6, 6); (6, 9); (7, 1); (7, 4); (7, 5); (7, 6); (7, 9);
      (8, 1); (8, 2); (8, 8); (8, 9); (9, 2); (9, 3); (9, 4); (9, 5);
      (9, 6); (9, 7); (9, 8); (9, 9); (10, 3); (10, 4); (10, 5); (10, 6);
      (10, 7); (10, 8)]);
    (4,
     [(1, 5); (1, 6); (1, 7); (1, 8); (2, 4); (2, 5); (2, 8); (2, 9);
      (3, 3); (3, 4); (3, 8); (3, 9); (4, 2); (4, 3); (4, 8); (4, 9);
      (5, 1); (5, 2); (5, 5); (5, 8); (5, 9); (6, 1); (6, 4); (6, 5);
      (6, 8); (6, 9); (7, 1); (7, 9); (7, 10); (8, 1); (8, 2); (8, 3);
      (8, 4); (8, 5); (8, 8); (8, 9); (8, 10); (9, 2); (9, 3); (9, 4);
      (9, 5); (9, 6); (9, 7); (9, 8); (9, 9); (9, 10); (10, 6); (10, 7);
      (10, 8); (10, 9)]);
    (5,
     [(1, 1); (1, 2); (1, 3); (1, 4); (1, 5); (1, 6); (1, 7); (1, 8);
      (1, 9); (1, 10); (2, 1); (2, 9); (2, 10); (3, 1); (3, 4); (3, 5);
      (3, 6); (3, 7); (3, 8); (3, 9); (3, 10); (4, 1); (4, 8); (4, 9);
      (4, 10); (5, 1); (5, 2); (5, 3); (5, 4); (5, 5); (5, 6); (5, 9);
      (5, 10); (6, 1); (6, 2); (6, 3); (6, 4); (6, 5); (6, 6); (6, 9);
      (6, 10); (7, 1); (7, 4); (7, 5); (7, 6); (7, 9); (7, 10); (8, 1);
      (8, 2); (8, 8); (8, 9); (8, 10); (9, 2); (9, 3); (9, 4); (9, 5);
      (9, 6); (9, 7); (9, 8); (9, 9); (9, 10); (10, 3); (10, 4); (10, 5);
      (10, 6); (10, 7); (10, 8); (10, 9)]);
    (6,
     [(1, 3); (1, 4); (1, 5); (1, 6); (1, 7); (2, 2); (2, 3); (2, 7);
      (2, 8); (3, 1); (3, 2); (3, 5); (3, 6); (3, 7); (3, 8); (4, 1);
      (4, 4); (4, 5); (4, 6); (4, 7); (4, 8); (5, 1); (5, 8); (5, 9);
      (6, 1); (6, 4); (6, 5); (6, 6); (6, 9); (6, 10); (7, 1); (7, 4);
      (7, 5); (7, 6); (7, 9); (7, 10); (8, 1); (8, 8); (8, 9); (8, 10);
      (9, 2); (9, 3); (9, 4); (9, 5); (9, 6); (9, 7); (9, 8); (9, 9);
      (9, 10); (10, 3); (10, 4); (10, 5); (10, 6); (10, 7); (10, 8);
      (10, 9)]);
    (7,
     [(1, 1); (1, 2); (1, 3); (1, 4); (1, 5); (1, 6); (1, 7); (1, 8);
      (1, 9); (2, 1); (2, 9); (2, 10); (3, 1); (3, 2); (3, 3); (3, 4);
      (3, 5); (3, 8); (3, 9); (3, 10); (4, 3); (4, 4); (4, 5); (4, 8);
      (4, 9); (4, 10); (5, 4); (5, 7); (5, 8); (5, 9); (6, 3); (6, 4);
      (6, 7); (6, 8); (6, 9); (7, 3); (7, 6); (7, 7); (7, 8); (8, 3);
      (8, 6); (8, 7); (8, 8); (9, 3); (9, 4); (9, 5); (9, 6); (9, 7);
      (10, 4); (10, 5); (10, 6); (10, 7)]);
    (8,
     [(1, 2); (1, 3); (1, 4); (1, 5); (1, 6); (1, 7); (1, 8); (2, 1);
      (2, 2); (2, 8); (2, 9); (3, 1); (3, 4); (3, 5); (3, 6); (3, 9);
      (3, 10); (4, 1); (4, 5); (4, 6); (4, 9); (4, 10); (5, 1); (5, 2);
      (5, 8); (5, 9); (5, 10); (6, 1); (6, 4); (6, 5); (6, 9); (6, 10);
      (7, 1); (7, 4); (7, 5); (7, 6); (7, 9); (7, 10); (8, 1); (8, 2);
      (8, 9); (8, 10); (9, 2); (9, 3); (9, 4); (9, 5); (9, 6); (9, 7);
      (9, 8); (9, 9); (9, 10); (10, 3); (10, 4); (10, 5); (10, 6); (10, 7);
      (10, 8); (10, 9)]);
    (9,
     [(1, 2); (1, 3); (1, 4); (1, 5); (1, 6); (1, 7); (1, 8); (2, 1);
      (2, 2); (2, 9); (3, 1); (3, 4); (3, 5); (3, 6); (3, 9); (3, 10);
      (4, 1); (4, 4); (4, 5); (4, 6); (4, 9); (4, 10); (5, 1); (5, 2);
      (5, 9); (5, 10); (6, 2); (6, 3); (6, 4); (6, 5); (6, 6); (6, 9);
      (6, 10); (7, 3); (7, 4); (7, 5); (7, 9); (7, 10); (8, 3); (8, 8);
      (8, 9); (8, 10); (9, 3); (9, 4); (9, 5); (9, 6); (9, 7); (9, 8);
      (9, 9); (10, 4); (10, 5); (10, 6); (10, 7); (10, 8)])
  ].

Definition digitsLargeWidths : gmap Z Z :=
  list_to_map [(0, 7); (1, 6); (2, 7); (3, 7); (4, 7); (5, 7); (6, 7); (7, 7); (8, 7); (9, 7)].

Definition symbolsLargeWidth : Z := 9.

Definition symbols : gmap Z Glyph :=
  list_to_map [
    (0,
     [(1, 2); (2, 1); (2, 2); (2, 3); (3, 1); (4, 1); (4, 2); (4, 3);
      (5, 3); (6, 1); (6, 2); (6, 3); (7, 2)])
  ].

Definition symbolsLarge : gmap Z Glyph :=
  list_to_map [
    (0,
     [(1, 4); (1, 5); (1, 6); (1, 7); (2, 3); (2, 4); (2, 7); (2, 8);
      (3, 2); (3, 9); (4, 2); (4, 9); (5, 2); (5, 4); (5, 5); (5, 6);
      (5, 7); (5, 8); (5, 9); (6, 2); (6, 9); (7, 2); (7, 9); (8, 2);
      (8, 3); (8, 4); (8, 5); (8, 6); (8, 7); (8, 9); (9, 2); (9, 9);
      (10, 2); (10, 9); (11, 3); (11, 4); (11, 7); (11, 8); (12, 4);
      (12, 5); (12, 6); (12, 7)])
  ].

Definition symbolsLargeHeight : Z := 12.

(** [symbols[0]] and [symbolsLarge[0]]; both tables have the key. *)
Definition symbols0 : Glyph := default [] (symbols !! 0).
Definition symbolsLarge0 : Glyph := default [] (symbolsLarge !! 0).

(** The callback of the two [flatMap]s: each pixel becomes 2 by 2. *)
Definition doublePixel (p : Z * Z) : list (Z * Z) :=
  let '(row, col) := p in
  [(row * 2 - 1, col * 2 - 1); (row * 2 - 1, col * 2);
   (row * 2, col * 2 - 1); (row * 2, col * 2)].

(** [createDoubledDigits()]: a fresh object that receives, for every entry
    of [digits], the [flatMap] of its coordinates. *)
Definition createDoubledDigits : gmap Z Glyph :=
  map_fold (λ digit coords doubled, <[digit := coords ≫= doublePixel]> doubled)
    ∅ digits.

Definition digitsDoubled : gmap Z Glyph := createDoubledDigits.

Definition digitsDoubledWidths : gmap Z Z :=
  list_to_map [(0, 6); (1, 2); (2, 6); (3, 6); (4, 6); (5, 6); (6, 6); (7, 6); (8, 6); (9, 6)].

(** [createDoubledSymbol()] *)
Definition createDoubledSymbol : Glyph := symbols0 ≫= doublePixel.

Definition symbolDoubled : Glyph := createDoubledSymbol.
Definition symbolDoubledWidth : Z := 6.

(** ** Strings and numbers *)

(** [Number(digit[i])] for the one-character string [digit[i]]; [None] is
    [NaN].  A decimal digit has its value; a white-space or line-terminator
    character trims to the empty string, whose value is 0; any other
    character gives [NaN].  A character is a code unit below 256. *)
Definition NumberOfChar (ch : Ascii.ascii) : option Z :=
  let n := Z.of_N (Ascii.N_of_ascii ch) in
  if bool_decide (48 ≤ n ≤ 57) then Some (n - 48)
  else if bool_decide (n ∈ [9; 10; 11; 12; 13; 32; 160]) then Some 0
  else None.

(** [table[currentDigit]] under the test [currentDigit in table]. *)
Definition glyphOf (table : gmap Z Glyph) (currentDigit : option Z) : option Glyph :=
  currentDigit ≫= λ d, table !! d.

(** [widths[currentDigit] || fallback] *)
Definition widthOr (widths : gmap Z Z) (currentDigit : option Z) (fallback : Z) : Z :=
  match currentDigit ≫= λ d, widths !! d with
  | Some w => if bool_decide (w = 0) then fallback else w
  | None => fallback
  end.

(** A JavaScript number, as far as the handlers look at it. *)
Inductive JsNumber : Set :=
  | JsNaN
  | JsInfinity (negative : bool)
  | JsFinite (q : Q).

(** [String(Math.floor(x))], where an absent [x] is [undefined].  The
    digits are those of JavaScript for the safe integers, of magnitude at
    most [2^53 - 1], which JavaScript prints in full.  From [2^53] on
    JavaScript prints the shortest digits that read back as the same
    number, padded with zeros, and from [10^21] on an exponent; neither is
    followed here, so a statement that names the string of a number is
    made for [safeInteger] values. *)
Definition floorString (x : option JsNumber) : string :=
  match x with
  | None | Some JsNaN => "NaN"
  | Some (JsInfinity false) => "Infinity"
  | Some (JsInfinity true) => "-Infinity"
  | Some (JsFinite q) => pretty (Qfloor q)
  end.

(** The values on which [floorString] is the string of JavaScript: an
    absent value, [NaN], the infinities, and the numbers whose floor is a
    safe integer ([Number.MAX_SAFE_INTEGER] is [2^53 - 1]). *)
Definition safeInteger (x : option JsNumber) : Prop :=
  match x with
  | Some (JsFinite q) => Z.abs (Qfloor q) ≤ 2 ^ 53 - 1
  | _ => True
  end.

(** Truthiness of [total?.raw]: [undefined], [NaN] and zero are falsy. *)
Definition truthy (x : option JsNumber) : bool :=
  match x with
  | None | Some JsNaN => false
  | Some (JsInfinity _) => true
  | Some (JsFinite q) => negb (Qeq_bool q 0)
  end.

(** A total whose value is absent ([null], [undefined], [NaN]) or zero. *)
Definition absentOrZero (raw : option JsNumber) : Prop :=
  match raw with
  | None | Some JsNaN => True
  | Some (JsInfinity _) => False
  | Some (JsFinite q) => Qeq q 0
  end.

(** ** Stamping *)

(** A tracked cell [{ row, col }]; the timer handle of a [PendingCell] is
    not modelled. *)
Abbreviation Cell := (Z * Z)%type.

(** The guard of every stamping loop:
    [cellCol >= 0 && cellRow >= 0 && cellCol < grid[0].length &&
     cellRow < grid.length].  Reading [grid[0].length] of a grid without
    rows is a TypeError, here [None]. *)
Definition inBounds (grid : GridType) (cellRow cellCol : Z) : option bool :=
  if bool_decide (cellCol >= 0) && bool_decide (cellRow >= 0) then
    len0 ← rowLength0 grid;
    Some (bool_decide (cellCol < len0) &&
          bool_decide (cellRow < Z.of_nat (length grid)))
  else Some false.

(** The body of a stamping loop for one pixel: under the guard, write
    [target] and push the cell on the tracked list.  On a rectangular grid
    the guard keeps the write inside the row. *)
Definition stampPixel (target : CellState) (cellRow cellCol : Z)
    (st : GridType * list Cell) : option (GridType * list Cell) :=
  ok ← inBounds st.1 cellRow cellCol;
  Some (if ok : bool
        then (setCell st.1 (Z.to_nat cellRow) (Z.to_nat cellCol) target,
              st.2 ++ [(cellRow, cellCol)])
        else st).

(** [for (const [row, col] of glyph) { ... }] with [cellRow = rowOf row]
    and [cellCol = colOf col]. *)
Fixpoint stampGlyph (target : CellState) (rowOf colOf : Z → Z) (glyph : Glyph)
    (st : GridType * list Cell) : option (GridType * list Cell) :=
  match glyph with
  | [] => Some st
  | (row, col) :: rest =>
      st' ← stampPixel target (rowOf row) (colOf col) st;
      stampGlyph target rowOf colOf rest st'
  end.

(** [for (let i = 0; i < digit.length; i++) { ... }]: the glyph of each
    character that names one, then [currentCol] advances by the width of
    the character, or by [fallback], plus [spacing]. *)
Fixpoint stampDigits (target : CellState) (table : gmap Z Glyph)
    (widths : gmap Z Z) (fallback spacing : Z)
    (rowOf : Z → Z) (colOf : Z → Z → Z)
    (digit : list Ascii.ascii) (currentCol : Z)
    (st : GridType * list Cell) : option (GridType * list Cell) :=
  match digit with
  | [] => Some st
  | ch :: rest =>
      let currentDigit := NumberOfChar ch in
      st' ← match glyphOf table currentDigit with
            | Some glyph => stampGlyph target rowOf (colOf currentCol) glyph st
            | None => Some st
            end;
      stampDigits target table widths fallback spacing rowOf colOf rest
        (currentCol + (widthOr widths currentDigit fallback + spacing)) st'
  end.

(** [setDigitAsPending(grid, digit, startRow, startCol, pendingCells)]:
    the result is the grid and the tracked list after the call. *)
Definition setDigitAsPending (grid : GridType) (digit : string)
    (startRow startCol : Z) (pendingCells : list Cell)
    : option (GridType * list Cell) :=
  let currentCol := startCol in
  st ← stampGlyph PENDING (λ row, row + startRow - 1) (λ col, col + currentCol)
         symbols0 (grid, pendingCells);
  let currentCol := currentCol + 4 in
  stampDigits PENDING digits digitsWidths 3 1
    (λ row, row + startRow) (λ currentCol col, col + currentCol)
    (String.list_ascii_of_string digit) currentCol st.

(** The running sum [totalWidth += (widths[d] || fallback) + digitSpacing]. *)
Definition digitsWidth (widths : gmap Z Z) (fallback digitSpacing : Z)
    (digit : list Ascii.ascii) (totalWidth : Z) : Z :=
  foldl (λ totalWidth ch,
    totalWidth + (widthOr widths (NumberOfChar ch) fallback + digitSpacing))
    totalWidth digit.

(** [setLargeDigitsAsInitial(grid, digit, pendingCells)] *)
Definition setLargeDigitsAsInitial (grid : GridType) (digit : string)
    (pendingCells : list Cell) : option (GridType * list Cell) :=
  let digitSpacing := 1 in
  let digitHeight := 12 in
  let dollarDigitOffset := (symbolsLargeHeight - digitHeight) `div` 2 in
  let totalWidth := symbolsLargeWidth + digitSpacing in
  let totalWidth :=
    digitsWidth digitsLargeWidths 7 digitSpacing (String.list_ascii_of_string digit) totalWidth in
  let totalWidth := totalWidth - digitSpacing in
  let startRow := (CONFIG.ROWS - symbolsLargeHeight) `div` 2 in
  let startCol := (CONFIG.COLS - totalWidth) `div` 2 in
  let currentCol := startCol in
  st ← stampGlyph INITIAL (λ row, row + startRow - 2) (λ col, col + currentCol)
         symbolsLarge0 (grid, pendingCells);
  let currentCol := currentCol + (symbolsLargeWidth + digitSpacing) in
  stampDigits INITIAL digitsLarge digitsLargeWidths 7 digitSpacing
    (λ row, row + startRow - 1 + dollarDigitOffset)
    (λ currentCol col, col + currentCol)
    (String.list_ascii_of_string digit) currentCol st.

(** The first loop of [setTotalAsImmune], for one cell: its guard reads
    [grid[0]] only after [cell.row < grid.length] held. *)
Definition clearCell (grid : GridType) (cell : Cell) : GridType :=
  if bool_decide (cell.1 >= 0) && bool_decide (cell.1 < Z.of_nat (length grid)) &&
     bool_decide (cell.2 >= 0) &&
     match rowLength0 grid with
     | Some len0 => bool_decide (cell.2 < len0)
     | None => false
     end
  then setCell grid (Z.to_nat cell.1) (Z.to_nat cell.2) DEAD
  else grid.

(** [setTotalAsImmune(grid, total, previousImmuneCells)]: the result is
    the grid after the call and the returned [newImmuneCells]. *)
Definition setTotalAsImmune (grid : GridType) (total : option JsNumber)
    (previousImmuneCells : list Cell) : option (GridType * list Cell) :=
  let grid := foldl clearCell grid previousImmuneCells in
  let newImmuneCells : list Cell := [] in
  let digit := floorString total in
  let digitSpacing := 1 in
  let dollarSignHeight := 14 in
  let digitHeight := 10 in
  let totalHeight := Z.max dollarSignHeight digitHeight in
  let totalWidth := symbolDoubledWidth + digitSpacing in
  let totalWidth :=
    digitsWidth digitsDoubledWidths 6 digitSpacing (String.list_ascii_of_string digit) totalWidth in
  let totalWidth := totalWidth - digitSpacing in
  let paddingRight := 1 in
  let paddingBottom := 1 in
  let startRow := CONFIG.ROWS - totalHeight - paddingBottom in
  let startCol := CONFIG.COLS - totalWidth - paddingRight in
  let currentCol := startCol in
  st ← stampGlyph IMMUNE (λ row, row + startRow - 1) (λ col, col + currentCol - 1)
         symbolDoubled (grid, newImmuneCells);
  let currentCol := currentCol + (symbolDoubledWidth + digitSpacing) in
  let digitVerticalOffset := (dollarSignHeight - digitHeight) `div` 2 in
  stampDigits IMMUNE digitsDoubled digitsDoubledWidths 6 digitSpacing
    (λ row, row + startRow - 1 + digitVerticalOffset)
    (λ currentCol col, col + currentCol - 1)
    (String.list_ascii_of_string digit) currentCol st.

(** ** The pixels of a rendering *)

(** A cell inside a [rows] by [cols] grid. *)
Definition inGrid (rows cols : nat) (cell : Cell) : Prop :=
  0 ≤ cell.1 < Z.of_nat rows ∧ 0 ≤ cell.2 < Z.of_nat cols.

#[global] Instance inGrid_dec rows cols cell : Decision (inGrid rows cols cell).
Proof. unfold inGrid. apply _. Defined.

(** The absolute coordinates that a glyph loop visits, in order. *)
Definition glyphPixels (rowOf colOf : Z → Z) (glyph : Glyph) : list Cell :=
  (λ p, (rowOf p.1, colOf p.2)) <$> glyph.

(** The absolute coordinates that a digit loop visits, in order. *)
Fixpoint digitPixels (table : gmap Z Glyph) (widths : gmap Z Z)
    (fallback spacing : Z) (rowOf : Z → Z) (colOf : Z → Z → Z)
    (digit : list Ascii.ascii) (currentCol : Z) : list Cell :=
  match digit with
  | [] => []
  | ch :: rest =>
      let currentDigit := NumberOfChar ch in
      glyphPixels rowOf (colOf currentCol) (default [] (glyphOf table currentDigit)) ++
      digitPixels table widths fallback spacing rowOf colOf rest
        (currentCol + (widthOr widths currentDigit fallback + spacing))
  end.

(** The guarded write of [target] at a list of absolute coordinates. *)
Fixpoint stampAll (target : CellState) (pixels : list Cell)
    (st : GridType * list Cell) : option (GridType * list Cell) :=
  match pixels with
  | [] => Some st
  | p :: rest => st' ← stampPixel target p.1 p.2 st; stampAll target rest st'
  end.

(** Unguarded writes of [target] at cells known to be in the grid. *)
Definition paint (target : CellState) (cells : list Cell) (grid : GridType) : GridType :=
  foldl (λ g cell, setCell g (Z.to_nat cell.1) (Z.to_nat cell.2) target) grid cells.

(** Every pixel of the rendering of [digit] by [setDigitAsPending]
    anchored at [(startRow, startCol)], whether inside the grid or not. *)
Definition pendingFootprint (digit : string) (startRow startCol : Z) : list Cell :=
  glyphPixels (λ row, row + startRow - 1) (λ col, col + startCol) symbols0 ++
  digitPixels digits digitsWidths 3 1
    (λ row, row + startRow) (λ currentCol col, col + currentCol)
    (String.list_ascii_of_string digit) (startCol + 4).

(** The anchor of the immune total of [setTotalAsImmune]. *)
Definition immuneStartCol (digit : string) : Z :=
  CONFIG.COLS -
  (digitsWidth digitsDoubledWidths 6 1 (String.list_ascii_of_string digit)
     (symbolDoubledWidth + 1) - 1) - 1.

(** Every pixel of the rendering of [digit] by [setTotalAsImmune]. *)
Definition immuneFootprint (digit : string) : list Cell :=
  let startRow := CONFIG.ROWS - 14 - 1 in
  let startCol := immuneStartCol digit in
  glyphPixels (λ row, row + startRow - 1) (λ col, col + startCol - 1) symbolDoubled ++
  digitPixels digitsDoubled digitsDoubledWidths 6 1
    (λ row, row + startRow - 1 + 2) (λ currentCol col, col + currentCol - 1)
    (String.list_ascii_of_string digit) (startCol + (symbolDoubledWidth + 1)).

(** ** The component: state, timers and handlers *)

(** A callback registered with [setTimeout]: its delay, the state the
    cell was stamped with (the constant its guard compares against) and the
    cell it closes over. *)
Record Timer : Set := { delay : Z; stampedAs : CellState; target : Cell }.

(** The refs of the component that the handlers below use, the callbacks
    registered so far, and how many times [Math.random()] was called.
    The effect of the later revision that re-stamps the immune total calls
    [setTotalAsImmune] with values interpolated by a timed tween; its
    timing and easing are outside this model, which covers the function it
    calls. *)
Record State : Type := {
  gridRef : GridType;
  pendingCellsRef : list Cell;
  hasShownInitialTotal : bool;
  immuneCellsRef : list Cell;
  timers : list Timer;
  randomCalls : nat
}.

(** The state of a freshly mounted component. *)
Definition initialState : State :=
  {| gridRef := setupGrid; pendingCellsRef := []; hasShownInitialTotal := false;
     immuneCellsRef := []; timers := []; randomCalls := 0 |}.

(** The callback of a pending or initial cell:
    [if (gridRef.current[cell.row][cell.col] === stamped)
       gridRef.current[cell.row][cell.col] = CellState.ALIVE;
     pendingCellsRef.current = pendingCellsRef.current.filter(
       (c) => !(c.row === cell.row && c.col === cell.col));]
    Reading a row that does not exist is a TypeError, here [None]. *)
Definition timeoutCallback (stamped : CellState) (cell : Cell) (st : State)
    : option State :=
  row ← (if bool_decide (0 ≤ cell.1) then gridRef st !! Z.to_nat cell.1 else None);
  let value := if bool_decide (0 ≤ cell.2) then row !! Z.to_nat cell.2 else None in
  let grid :=
    if bool_decide (value = Some stamped)
    then setCell (gridRef st) (Z.to_nat cell.1) (Z.to_nat cell.2) ALIVE
    else gridRef st in
  Some {| gridRef := grid;
          pendingCellsRef :=
            filter (λ c : Cell, ¬ (c.1 = cell.1 ∧ c.2 = cell.2)) (pendingCellsRef st);
          hasShownInitialTotal := hasShownInitialTotal st;
          immuneCellsRef := immuneCellsRef st;
          timers := timers st;
          randomCalls := randomCalls st |}.

(** The callback of a donation cell and that of an initial-total cell. *)
Definition donationTimeout : Cell → State → option State := timeoutCallback PENDING.
Definition initialTimeout : Cell → State → option State := timeoutCallback INITIAL.

(** A registered timer fires. *)
Definition fire (t : Timer) : State → option State :=
  timeoutCallback (stampedAs t) (target t).

(** The end of both stamping handlers: one [setTimeout] per new cell, then
    [pendingCellsRef.current.push(...newCells)]. *)
Definition track (duration : Z) (stamped : CellState) (grid : GridType)
    (newCells : list Cell) (shown : bool) (calls : nat) (st : State) : State :=
  {| gridRef := grid;
     pendingCellsRef := pendingCellsRef st ++ newCells;
     hasShownInitialTotal := shown;
     immuneCellsRef := immuneCellsRef st;
     timers := timers st ++
       ((λ cell, {| delay := duration; stampedAs := stamped; target := cell |})
          <$> newCells);
     randomCalls := calls |}.

(** The effect on [total] that reveals the initial total once:
    [if (total?.raw && !hasShownInitialTotal.current) { ... }]. *)
Definition initialTotalEffect (raw : option JsNumber) (st : State) : option State :=
  if truthy raw && negb (hasShownInitialTotal st) then
    '(grid, initialCells) ←
      setLargeDigitsAsInitial (gridRef st) (floorString raw) [];
    Some (track CONFIG.INITIAL_TOTAL_DURATION INITIAL grid initialCells true
            (randomCalls st) st)
  else Some st.

(** [do body while (cond)], run for at most [fuel] passes of the body;
    [None] when the loop has not ended by then. *)
Fixpoint doWhile {A : Type} (fuel : nat) (body : A → A) (cond : A → bool) (s : A)
    : option A :=
  match fuel with
  | O => None
  | S fuel' =>
      let s' := body s in
      if cond s' then doWhile fuel' body cond s' else Some s'
  end.

(** The variables of the placement loop. *)
Record Candidate : Set := {
  startX : Z; startY : Z; attempts : Z; calls : nat
}.

(** [wouldOverlapImmune(testStartX, testStartY)] of the later revision:
    the loops return [true] at the first cell found in [immuneSet]. *)
Fixpoint digitsOverlapImmune (immuneSet : gset Cell) (testStartX : Z)
    (donationStr : list Ascii.ascii) (currentCol : Z) : bool :=
  match donationStr with
  | [] => false
  | ch :: rest =>
      let currentDigit := NumberOfChar ch in
      match glyphOf digits currentDigit with
      | Some glyph =>
          existsb (λ p : Z * Z,
            let cellRow := p.1 + testStartX in
            let cellCol := p.2 + currentCol in
            bool_decide ((cellRow, cellCol) ∈ immuneSet)) glyph
      | None => false
      end
      || digitsOverlapImmune immuneSet testStartX rest
           (currentCol + (widthOr digitsWidths currentDigit 3 + 1))
  end.

Definition wouldOverlapImmune (immuneCells : list Cell) (donationStr : string)
    (testStartX testStartY : Z) : bool :=
  let immuneSet : gset Cell := list_to_set immuneCells in
  existsb (λ p : Z * Z,
    let cellRow := p.1 + testStartX - 1 in
    let cellCol := p.2 + testStartY in
    bool_decide ((cellRow, cellCol) ∈ immuneSet)) symbols0
  || digitsOverlapImmune immuneSet testStartX
       (String.list_ascii_of_string donationStr) (testStartY + 4).

Section handlers.

(** [random k] is the value of the [k]-th call of [Math.random()]. *)
Variable random : nat → Q.

(** [Math.floor(Math.random() * m)] at the [k]-th call, the product
    taken exactly. *)
Definition randomBelow (k : nat) (m : Z) : Z :=
  Qfloor (Qmult (random k) (inject_Z m)).

(** The body of both placement loops. *)
Definition sample (maxX maxY : Z) (c : Candidate) : Candidate :=
  {| startX := randomBelow (calls c) (Z.max 1 maxX);
     startY := randomBelow (S (calls c)) (Z.max 1 maxY);
     attempts := attempts c + 1;
     calls := S (S (calls c)) |}.

(** The declarations before the loop; [startX] and [startY] are assigned
    by the first pass of the body. *)
Definition beforeLoop (calls0 : nat) : Candidate :=
  {| startX := 0; startY := 0; attempts := 0; calls := calls0 |}.

(** The loop of the later revision:
    [while (wouldOverlapImmune(startX, startY) && attempts < maxAttempts)]. *)
Definition maxAttempts : Z := 50.

Definition retryV2 (immuneCells : list Cell) (donationStr : string)
    (c : Candidate) : bool :=
  wouldOverlapImmune immuneCells donationStr (startX c) (startY c) &&
  bool_decide (attempts c < maxAttempts).

Definition choosePlacementV2 (fuel : nat) (immuneCells : list Cell)
    (donationStr : string) (maxX maxY : Z) (calls0 : nat) : option Candidate :=
  doWhile fuel (sample maxX maxY) (retryV2 immuneCells donationStr)
    (beforeLoop calls0).

(** The loop of the earlier revision:
    [while (startX > CONFIG.ROWS - excludeBottomRows &&
            startY > CONFIG.COLS - excludeRightCols)]. *)
Definition excludeBottomRows : Z := 18.
Definition excludeRightCols : Z := 65.

Definition retryV1 (c : Candidate) : bool :=
  bool_decide (startX c > CONFIG.ROWS - excludeBottomRows) &&
  bool_decide (startY c > CONFIG.COLS - excludeRightCols).

Definition choosePlacementV1 (fuel : nat) (maxX maxY : Z) (calls0 : nat)
    : option Candidate :=
  doWhile fuel (sample maxX maxY) retryV1 (beforeLoop calls0).

(** What follows the loop in the donation handler of both revisions. *)
Definition stampDonation (amount : string) (c : Candidate) (st : State)
    : option State :=
  '(grid, newPendingCells) ←
    setDigitAsPending (gridRef st) amount (startX c) (startY c) [];
  Some (track CONFIG.PENDING_DURATION PENDING grid newPendingCells
          (hasShownInitialTotal st) (calls c) st).

(** [useListenFor('donation', ...)] of the later revision; [None] when the
    loop has not ended within [fuel] passes or on a TypeError. *)
Definition donationHandlerV2 (fuel : nat) (rawAmount : option JsNumber)
    (st : State) : option State :=
  let amount := floorString rawAmount in
  let maxX := CONFIG.ROWS - 8 in
  let maxY := CONFIG.COLS - (Z.of_nat (String.length amount) * 4 + 8) in
  c ← choosePlacementV2 fuel (immuneCellsRef st) amount maxX maxY (randomCalls st);
  stampDonation amount c st.

(** [useListenFor('donation', ...)] of the earlier revision. *)
Definition donationHandlerV1 (fuel : nat) (rawAmount : option JsNumber)
    (st : State) : option State :=
  let amount := floorString rawAmount in
  let maxX := CONFIG.ROWS - 8 in
  let maxY := CONFIG.COLS - (Z.of_nat (String.length amount) * 4 + 8) in
  c ← choosePlacementV1 fuel maxX maxY (randomCalls st);
  stampDonation amount c st.

End handlers.

(** ** Sample inputs *)

(** A vertical line of three live cells in a 3 by 3 grid. *)
Definition column3 : GridType :=
  [[DEAD; ALIVE; DEAD]; [DEAD; ALIVE; DEAD]; [DEAD; ALIVE; DEAD]].

(** A frozen cell surrounded by live cells. *)
Definition crowded3 : GridType :=
  [[ALIVE; ALIVE; ALIVE]; [ALIVE; IMMUNE; ALIVE]; [ALIVE; ALIVE; ALIVE]].

(** A random source that returns 0 at every call, and one that returns
    0.9 at every call. *)
Definition alwaysZero : nat → Q := λ _, 0%Q.
Definition alwaysNineTenths : nat → Q := λ _, (9 # 10)%Q.

(** A 2 by 2 grid whose top left cell was stamped for a donation, and a
    state that tracks it. *)
Definition stamped2 : GridType := [[PENDING; DEAD]; [DEAD; ALIVE]].

Definition tracking2 : State :=
  {| gridRef := stamped2; pendingCellsRef := [(0, 0)]; hasShownInitialTotal := false;
     immuneCellsRef := []; timers := []; randomCalls := 0 |}.

(** ** Blinkers *)

(** The [rows] by [cols] grid whose cell [(i, j)] is [f i j]. *)
Definition gridOf (rows cols : nat) (f : nat → nat → CellState) : GridType :=
  (λ i, (λ j, f i j) <$> seq 0 cols) <$> seq 0 rows.

(** Three ALIVE cells in a row, centred on [(r, c)]; every other cell DEAD. *)
Definition blinkerH (rows cols r c : nat) : GridType :=
  gridOf rows cols (λ i j,
    if bool_decide (i = r ∧ c ≤ j + 1 ∧ j ≤ c + 1)%nat then ALIVE else DEAD).

(** Three ALIVE cells in a column, centred on [(r, c)]; every other cell DEAD. *)
Definition blinkerV (rows cols r c : nat) : GridType :=
  gridOf rows cols (λ i j,
    if bool_decide (j = c ∧ r ≤ i + 1 ∧ i ≤ r + 1)%nat then ALIVE else DEAD).

(** ** Further patterns and events *)

(** Four ALIVE cells in a square whose top left corner is [(r, c)]; every
    other cell DEAD. *)
Definition blockAt (rows cols r c : nat) : GridType :=
  gridOf rows cols (λ i j,
    if bool_decide ((i = r ∨ i = r + 1) ∧ (j = c ∨ j = c + 1))%nat
    then ALIVE else DEAD).

(** The anchors of the initial total of [setLargeDigitsAsInitial]. *)
Definition initialStartRow : Z := (CONFIG.ROWS - symbolsLargeHeight) `div` 2.

Definition initialStartCol (digit : string) : Z :=
  (CONFIG.COLS -
   (digitsWidth digitsLargeWidths 7 1 (String.list_ascii_of_string digit)
      (symbolsLargeWidth + 1) - 1)) `div` 2.

(** Every pixel of the rendering of [digit] by [setLargeDigitsAsInitial]. *)
Definition initialFootprint (digit : string) : list Cell :=
  glyphPixels (λ row, row + initialStartRow - 2)
    (λ col, col + initialStartCol digit) symbolsLarge0 ++
  digitPixels digitsLarge digitsLargeWidths 7 1
    (λ row, row + initialStartRow - 1 + (symbolsLargeHeight - 12) `div` 2)
    (λ currentCol col, col + currentCol)
    (String.list_ascii_of_string digit)
    (initialStartCol digit + (symbolsLargeWidth + 1)).

(** The timers that a stamping handler registers for its new cells. *)
Definition timersFor (duration : Z) (stamped : CellState) (cells : list Cell)
    : list Timer :=
  (λ cell, {| delay := duration; stampedAs := stamped; target := cell |}) <$> cells.

(** Timers fire one after the other, nothing else running in between. *)
Fixpoint fireAll (ts : list Timer) (st : State) : option State :=
  match ts with
  | [] => Some st
  | t :: ts => st' ← fire t st; fireAll ts st'
  end.

(** The statement of the game loop that advances the simulation:
    [gridRef.current = updateGrid(gridRef.current)]. *)
Definition gameStep (st : State) : State :=
  {| gridRef := V2.updateGrid (gridRef st);
     pendingCellsRef := pendingCellsRef st;
     hasShownInitialTotal := hasShownInitialTotal st;
     immuneCellsRef := immuneCellsRef st;
     timers := timers st;
     randomCalls := randomCalls st |}.

(** The statement of the total effect of the later revision, run with the
    target or with an interpolated value:
    [immuneCellsRef.current =
       setTotalAsImmune(gridRef.current, value, immuneCellsRef.current)]. *)
Definition restampImmune (value : option JsNumber) (st : State) : option State :=
  '(grid, newImmuneCells) ←
    setTotalAsImmune (gridRef st) value (immuneCellsRef st);
  Some {| gridRef := grid;
          pendingCellsRef := pendingCellsRef st;
          hasShownInitialTotal := hasShownInitialTotal st;
          immuneCellsRef := newImmuneCells;
          timers := timers st;
          randomCalls := randomCalls st |}.

(** The refs of the effect of the later revision that re-stamps the
    immune total, and their values on a freshly mounted component:
    [lastDisplayedTotal = useRef(-1)], [targetTotal = useRef(0)]. *)
Record TotalRefs : Set := { lastDisplayedTotal : JsNumber; targetTotal : JsNumber }.

Definition mountedRefs : TotalRefs :=
  {| lastDisplayedTotal := JsFinite (-1 # 1); targetTotal := JsFinite 0 |}.

(** [Math.floor(total?.raw ?? 0)] *)
Definition floorOrZero (raw : option JsNumber) : JsNumber :=
  match raw with
  | None => JsFinite 0
  | Some JsNaN => JsNaN
  | Some (JsInfinity negative) => JsInfinity negative
  | Some (JsFinite q) => JsFinite (inject_Z (Qfloor q))
  end.

(** [a !== b] on numbers: [NaN] differs from every number, itself
    included. *)
Definition strictNotEqual (a b : JsNumber) : bool :=
  match a, b with
  | JsFinite p, JsFinite q => negb (Qeq_bool p q)
  | JsInfinity m, JsInfinity n => negb (bool_decide (m = n))
  | _, _ => true
  end.

(** What a run of that effect does: nothing, a direct stamp, or the start
    of a count-up from [startValue] to [endValue], whose timed steps are
    not followed. *)
Inductive TotalOutcome : Type :=
  | Unchanged
  | StampedDirectly (refs : TotalRefs) (st : State)
  | CountUp (refs : TotalRefs) (startValue endValue : JsNumber).

(** The effect, up to the start of the count-up:
    [const newTotal = Math.floor(total?.raw ?? 0);
     if (newTotal !== targetTotal.current) {
       targetTotal.current = newTotal;
       if (lastDisplayedTotal.current === -1) {
         lastDisplayedTotal.current = newTotal;
         immuneCellsRef.current = setTotalAsImmune(gridRef.current, newTotal,
                                                   immuneCellsRef.current);
         return;
       }
       ... setInterval ...
     }] *)
Definition immuneTotalEffect (raw : option JsNumber) (refs : TotalRefs) (st : State)
    : option TotalOutcome :=
  let newTotal := floorOrZero raw in
  if strictNotEqual newTotal (targetTotal refs) then
    if negb (strictNotEqual (lastDisplayedTotal refs) (JsFinite (-1 # 1))) then
      st' ← restampImmune (Some newTotal) st;
      Some (StampedDirectly
              {| lastDisplayedTotal := newTotal; targetTotal := newTotal |} st')
    else
      Some (CountUp
              {| lastDisplayedTotal := lastDisplayedTotal refs; targetTotal := newTotal |}
              (lastDisplayedTotal refs) newTotal)
  else Some Unchanged.

(** One turn of the event loop: a simulation step, a donation (handled by
    either revision), a total (its initial reveal or a re-stamp of the
    immune total), or a registered timer firing.  Timers are kept in the
    log after they fired, so the relation allows more turns than the
    program takes. *)
Inductive turn (random : nat → Q) : State → State → Prop :=
  | turn_game st :
      turn random st (gameStep st)
  | turn_donationV2 fuel rawAmount st st' :
      donationHandlerV2 random fuel rawAmount st = Some st' →
      turn random st st'
  | turn_donationV1 fuel rawAmount st st' :
      donationHandlerV1 random fuel rawAmount st = Some st' →
      turn random st st'
  | turn_initialTotal raw st st' :
      initialTotalEffect raw st = Some st' →
      turn random st st'
  | turn_immuneTotal value st st' :
      restampImmune value st = Some st' →
      turn random st st'
  | turn_timer t st st' :
      t ∈ timers st → fire t st = Some st' →
      turn random st st'.

(** What every turn keeps: the grid has its 55 by 182 shape; tracked
    cells, timer targets and immune cells are positions of the grid; and
    every tracked cell has a timer. *)
Definition wellTracked (st : State) : Prop :=
  rectangular 55 182 (gridRef st) ∧
  Forall (inGrid 55 182) (pendingCellsRef st) ∧
  Forall (λ t, inGrid 55 182 (target t)) (timers st) ∧
  Forall (inGrid 55 182) (immuneCellsRef st) ∧
  ∀ cell, cell ∈ pendingCellsRef st → ∃ t, t ∈ timers st ∧ target t = cell.

(** A random source whose first two values put a donation of two digits
    on the immune total and whose later values put it at the top left. *)
Definition overlapThenFree : nat → Q :=
  λ k, if (k <? 2)%nat then (99 # 100)%Q else 0%Q.

(** A component that has stamped the immune total 250, and the same after
    a donation of 25 that was placed at the second attempt. *)
Definition afterTotal250 : State :=
  default initialState (restampImmune (Some (JsFinite 250)) initialState).

Definition afterDonation25 : State :=
  default afterTotal250
    (donationHandlerV2 overlapThenFree 50 (Some (JsFinite 25)) afterTotal250).

Section frames.

(** The time stamps of animation frames, and the test of the game loop
    [timestamp - lastUpdateRef.current >= CONFIG.GAME_SPEED] on them. *)
Variable Timestamp : Type.
Variable elapsed : Timestamp → Timestamp → bool.

(** [gameLoop(timestamp)] on the grid and [lastUpdateRef.current]; drawing
    and the request for the next frame change neither. *)
Definition gameLoop (timestamp : Timestamp) (fs : GridType * Timestamp)
    : GridType * Timestamp :=
  if elapsed timestamp fs.2 then (V2.updateGrid fs.1, timestamp) else fs.

End frames.

(** * Properties *)

(** ** Reading and writing cells *)

Lemma getCell_setCell (grid : GridType) i j v a b :
  getCell (setCell grid i j v) a b =
  if decide (a = i ∧ b = j) then (λ _, v) <$> getCell grid a b
  else getCell grid a b.
Proof.
  unfold getCell, setCell. destruct (decide (a = i)) as [->|Hai].
  - rewrite list_lookup_alter_eq. destruct (grid !! i) as [row|]; simpl.
    + destruct (decide (b = j)) as [->|Hbj].
      * rewrite decide_True by done.
        destruct (decide (j < length row)%nat).
        -- rewrite list_lookup_insert_eq by done.
           destruct (lookup_lt_is_Some_2 row j) as [x ->]; done.
        -- rewrite list_insert_ge by lia. rewrite lookup_ge_None_2 by lia. done.
      * rewrite decide_False by (intros [_ ?]; done).
        by rewrite list_lookup_insert_ne.
    + by case_decide.
  - rewrite list_lookup_alter_ne by done.
    rewrite decide_False by (intros [? _]; done). done.
Qed.

Lemma setCell_row_length (grid : GridType) i j v a :
  length <$> setCell grid i j v !! a = length <$> grid !! a.
Proof.
  unfold setCell. destruct (decide (i = a)) as [->|].
  - rewrite list_lookup_alter_eq. destruct (grid !! a); simpl; [|done].
    by rewrite length_insert.
  - by rewrite list_lookup_alter_ne.
Qed.

Lemma setCell_length (grid : GridType) i j v :
  length (setCell grid i j v) = length grid.
Proof. apply length_alter. Qed.

(** ** The generation step, cell by cell *)

(** Two nested loops are one loop over the pairs of indices. *)
Lemma foldl_nested {A} (f : A → nat → nat → A) (cols : nat → list nat) rows :
  ∀ acc,
  foldl (λ acc i, foldl (λ acc j, f acc i j) acc (cols i)) acc rows =
  foldl (λ acc p, f acc p.1 p.2) acc (i ← rows; (λ j, (i, j)) <$> cols i).
Proof.
  induction rows as [|i rows IH]; intros acc; simpl; [done|].
  rewrite foldl_app, IH. f_equal.
  generalize (cols i). intros cs. revert acc.
  induction cs as [|j cs IHc]; intros acc; simpl; [done|]. apply IHc.
Qed.

Section step.
Variable frozen : CellState → bool.
Variable grid : GridType.

Lemma updateCell_row_length newGrid i j a :
  length <$> updateCell frozen grid newGrid i j !! a = length <$> newGrid !! a.
Proof.
  unfold updateCell. repeat case_match; auto using setCell_row_length.
Qed.

Lemma updateCell_length newGrid i j :
  length (updateCell frozen grid newGrid i j) = length newGrid.
Proof.
  unfold updateCell. repeat case_match; auto using setCell_length.
Qed.

(** A pass of the body at [(i, j)] on a [newGrid] that still holds the
    old value there installs [nextCell]; it touches no other cell. *)
Lemma getCell_updateCell newGrid i j a b :
  getCell newGrid i j = getCell grid i j ∨
  getCell newGrid i j = nextCell frozen grid i j <$> getCell grid i j →
  getCell (updateCell frozen grid newGrid i j) a b =
  if decide (a = i ∧ b = j) then nextCell frozen grid i j <$> getCell grid i j
  else getCell newGrid a b.
Proof.
  intros Hold. unfold updateCell, nextCell in *.
  destruct (getCell grid i j) as [s|] eqn:Hs; simpl in *.
  - destruct (frozen s) eqn:Hf.
    + case_decide as Hab; [destruct Hab as [-> ->]; naive_solver|done].
    + repeat case_match; rewrite ?getCell_setCell;
        case_decide as Hab; try done; destruct Hab as [-> ->];
        destruct Hold as [-> | ->]; done.
  - case_decide as Hab; [destruct Hab as [-> ->]; naive_solver|done].
Qed.

Lemma run_lookup ps : ∀ qs newGrid,
  (∀ a b, getCell newGrid a b =
     if decide ((a, b) ∈ qs) then nextCell frozen grid a b <$> getCell grid a b
     else getCell grid a b) →
  ∀ a b, getCell (run frozen grid ps newGrid) a b =
     if decide ((a, b) ∈ qs ++ ps) then nextCell frozen grid a b <$> getCell grid a b
     else getCell grid a b.
Proof.
  induction ps as [|[i j] ps IH]; intros qs ng Hinv a b.
  - rewrite app_nil_r. apply Hinv.
  - simpl. replace (qs ++ (i, j) :: ps) with ((qs ++ [(i, j)]) ++ ps)
      by (by rewrite <- app_assoc).
    apply IH. clear a b. intros a b.
    rewrite getCell_updateCell.
    + destruct (decide (a = i ∧ b = j)) as [[-> ->]|Hne].
      * rewrite decide_True by (apply elem_of_app; right; by apply list_elem_of_singleton).
        done.
      * rewrite Hinv. destruct (decide ((a, b) ∈ qs)).
        -- rewrite decide_True by (apply elem_of_app; by left). done.
        -- rewrite decide_False; [done|].
           rewrite elem_of_app, list_elem_of_singleton. naive_solver.
    + rewrite Hinv. case_decide; auto.
Qed.

Lemma run_row_length ps : ∀ newGrid a,
  length <$> run frozen grid ps newGrid !! a = length <$> newGrid !! a.
Proof.
  induction ps as [|[i j] ps IH]; intros ng a; [done|].
  change (run frozen grid ((i, j) :: ps) ng)
    with (run frozen grid ps (updateCell frozen grid ng i j)).
  rewrite IH. apply updateCell_row_length.
Qed.

Lemma run_length ps : ∀ newGrid, length (run frozen grid ps newGrid) = length newGrid.
Proof.
  induction ps as [|[i j] ps IH]; intros ng; [done|].
  change (run frozen grid ((i, j) :: ps) ng)
    with (run frozen grid ps (updateCell frozen grid ng i j)).
  rewrite IH. apply updateCell_length.
Qed.

Lemma updateGridWith_run :
  updateGridWith frozen grid = run frozen grid (positions grid) grid.
Proof.
  unfold updateGridWith, run, positions. rewrite list_fmap_id.
  apply foldl_nested.
Qed.

Lemma elem_of_positions a b :
  (a, b) ∈ positions grid ↔ is_Some (getCell grid a b).
Proof.
  unfold positions, getCell. rewrite list_elem_of_bind. split.
  - intros (i & Hin & Hi). apply list_elem_of_fmap in Hin as (j & [= -> ->] & Hj).
    apply elem_of_seq in Hi, Hj.
    destruct (lookup_lt_is_Some_2 grid i) as [row Hrow]; [lia|].
    rewrite Hrow in *. simpl in *. apply lookup_lt_is_Some_2. lia.
  - intros [s Hs]. destruct (grid !! a) as [row|] eqn:Hrow; [|done]. simpl in Hs.
    exists a. split.
    + apply list_elem_of_fmap. exists b. split; [done|].
      rewrite Hrow. simpl. apply elem_of_seq. apply lookup_lt_Some in Hs. lia.
    + apply elem_of_seq. apply lookup_lt_Some in Hrow. lia.
Qed.

(** Every cell of the next generation is [nextCell] of the prior one. *)
Lemma getCell_updateGridWith a b :
  getCell (updateGridWith frozen grid) a b =
  nextCell frozen grid a b <$> getCell grid a b.
Proof.
  rewrite updateGridWith_run.
  rewrite (run_lookup (positions grid) [] grid).
  - simpl. case_decide as Hin; [done|].
    rewrite elem_of_positions in Hin.
    destruct (getCell grid a b); [destruct Hin; eauto|done].
  - intros a' b'. rewrite decide_False; [done|]. apply not_elem_of_nil.
Qed.

Lemma updateGridWith_row_length a :
  length <$> updateGridWith frozen grid !! a = length <$> grid !! a.
Proof. rewrite updateGridWith_run. apply run_row_length. Qed.

Lemma updateGridWith_length :
  length (updateGridWith frozen grid) = length grid.
Proof. rewrite updateGridWith_run. apply run_length. Qed.

Lemma updateGridWith_imap :
  updateGridWith frozen grid =
  imap (λ i row, imap (λ j s, nextCell frozen grid i j s) row) grid.
Proof.
  apply list_eq. intros a. rewrite list_lookup_imap.
  pose proof (updateGridWith_row_length a) as Hlen.
  destruct (grid !! a) as [row|] eqn:Hrow; simpl in *.
  - destruct (updateGridWith frozen grid !! a) as [row'|] eqn:Hrow'; [|done].
    f_equal. apply list_eq. intros b. rewrite list_lookup_imap.
    pose proof (getCell_updateGridWith a b) as Hc. unfold getCell in Hc.
    rewrite Hrow, Hrow' in Hc. done.
  - by destruct (updateGridWith frozen grid !! a).
Qed.
End step.

(** ** Counting neighbors on a rectangular grid *)

Lemma rectangular_row rows cols (grid : GridType) r row :
  rectangular rows cols grid → grid !! r = Some row → length row = cols.
Proof.
  intros [_ Hall] Hrow. rewrite Forall_lookup in Hall. by eapply Hall.
Qed.

Lemma isLiveAt_cellAt rows cols (grid : GridType) r c :
  rectangular rows cols grid →
  isLiveAt grid r c = bool_decide (cellAt grid r c = Some ALIVE).
Proof.
  intros Hrect. unfold isLiveAt, cellAt, rowLength0.
  destruct (decide (0 ≤ r ∧ 0 ≤ c)) as [[Hr Hc]|Hneg].
  - rewrite (bool_decide_eq_true_2 (r >= 0)), (bool_decide_eq_true_2 (c >= 0)) by lia.
    destruct (decide (r < Z.of_nat (length grid))) as [Hlt|Hge].
    + rewrite bool_decide_eq_true_2 by done. simpl.
      destruct (lookup_lt_is_Some_2 grid 0) as [row0 Hrow0]; [lia|].
      destruct (lookup_lt_is_Some_2 grid (Z.to_nat r)) as [row Hrow]; [lia|].
      rewrite Hrow0. simpl.
      pose proof (rectangular_row _ _ _ _ _ Hrect Hrow0).
      pose proof (rectangular_row _ _ _ _ _ Hrect Hrow).
      destruct (decide (c < Z.of_nat (length row0))).
      * by rewrite (bool_decide_eq_true_2 (c < _)) by done.
      * rewrite (bool_decide_eq_false_2 (c < _)) by done. simpl.
        symmetry. apply bool_decide_eq_false_2.
        unfold getCell. rewrite Hrow. simpl.
        rewrite lookup_ge_None_2 by lia. done.
    + rewrite (bool_decide_eq_false_2 (r < _)) by done. simpl.
      symmetry. apply bool_decide_eq_false_2.
      unfold getCell. rewrite lookup_ge_None_2 by lia. done.
  - rewrite (bool_decide_eq_false_2 (None = _)) by done.
    destruct (decide (r >= 0)).
    + rewrite (bool_decide_eq_false_2 (c >= 0)) by lia.
      by rewrite andb_false_r.
    + by rewrite (bool_decide_eq_false_2 (r >= 0)) by lia.
Qed.

(** A loop that adds a weight per element computes a sum. *)
Lemma foldl_weights {B} (f : Z → B → Z) (w : B → Z) (l : list B) :
  (∀ c j, f c j = c + w j) →
  ∀ c, foldl f c l = c + foldr (λ j n, w j + n) 0 l.
Proof.
  intros Hf. induction l as [|j l IH]; intros c; simpl; [lia|].
  rewrite IH, Hf. lia.
Qed.

(** The loops add one for each offset other than [(0, 0)] whose test
    succeeds. *)
Lemma countLiveNeighbors_sum (grid : GridType) row col :
  countLiveNeighbors grid row col =
  foldr (λ d n, Z.b2z (isLiveAt grid (row + d.1) (col + d.2)) + n) 0 neighborOffsets.
Proof.
  unfold countLiveNeighbors.
  rewrite (foldl_weights _ (λ i,
    foldr (λ j n,
      (if bool_decide (i = 0) && bool_decide (j = 0) then 0
       else Z.b2z (isLiveAt grid (row + i) (col + j))) + n) 0 [-1; 0; 1])).
  - unfold neighborOffsets. cbn [foldr fst snd].
    repeat (case_bool_decide; try lia); cbn [andb]; lia.
  - intros c i. apply foldl_weights. intros c' j.
    destruct (bool_decide (i = 0) && bool_decide (j = 0)); [lia|].
    destruct (isLiveAt grid (row + i) (col + j)); simpl; lia.
Qed.

Lemma length_filter_sum {A} (P : A → Prop) `{∀ x, Decision (P x)} (l : list A) :
  Z.of_nat (length (filter P l)) = foldr (λ d n, Z.b2z (bool_decide (P d)) + n) 0 l.
Proof.
  induction l as [|x l IH]; [done|].
  rewrite filter_cons. simpl. rewrite <- IH.
  case_decide.
  - rewrite bool_decide_eq_true_2 by done. cbn [length Z.b2z]. lia.
  - rewrite bool_decide_eq_false_2 by done. cbn [Z.b2z]. lia.
Qed.

Lemma countLiveNeighbors_aliveNeighbors rows cols (grid : GridType) row col :
  rectangular rows cols grid →
  countLiveNeighbors grid row col = aliveNeighbors grid row col.
Proof.
  intros Hrect. rewrite countLiveNeighbors_sum. unfold aliveNeighbors.
  rewrite length_filter_sum.
  induction neighborOffsets as [|d ds IH]; [done|].
  simpl. rewrite IH. by rewrite (isLiveAt_cellAt _ _ _ _ _ Hrect).
Qed.

(** ** The generation step and the protected states *)

Lemma nextCell_protected frozen (grid : GridType) i j s :
  protected s → nextCell frozen grid i j s = s.
Proof.
  intros [-> | [-> | ->]]; unfold nextCell; destruct (frozen _); try done;
    repeat case_bool_decide; done.
Qed.

Lemma nextCell_free (grid : GridType) i j s :
  ¬ protected s →
  nextCell V2.frozen grid i j s =
  conwayRule s (countLiveNeighbors grid (Z.of_nat i) (Z.of_nat j)).
Proof.
  intros Hs. unfold nextCell, conwayRule, protected in *.
  destruct s; try (exfalso; naive_solver); simpl;
    repeat case_bool_decide; repeat case_decide; simpl; try done; lia.
Qed.

Lemma conwayRule_plain s n :
  s = DEAD ∨ s = ALIVE → conwayRule s n = DEAD ∨ conwayRule s n = ALIVE.
Proof. intros [-> | ->]; simpl; case_decide; auto. Qed.

(** C1: for a rectangular grid and a cell that is not PENDING, INITIAL or
    IMMUNE, one [updateGrid] leaves in that cell the result of Conway's
    rule applied to its prior state and to the number of ALIVE cells among
    its eight neighbors in the prior generation, where positions outside the
    grid hold nothing: an ALIVE cell with fewer than 2 or more than 3 such
    neighbors becomes DEAD, a DEAD cell with exactly 3 becomes ALIVE, and
    the cell is unchanged otherwise. *)
Theorem C1_updateGrid_conway rows cols (grid : GridType) (i j : nat) s :
  rectangular rows cols grid →
  getCell grid i j = Some s →
  ¬ protected s →
  getCell (V2.updateGrid grid) i j =
  Some (conwayRule s (aliveNeighbors grid (Z.of_nat i) (Z.of_nat j))).
Proof.
  intros Hrect Hs Hfree. unfold V2.updateGrid.
  rewrite getCell_updateGridWith, Hs. simpl.
  rewrite nextCell_free by done.
  by rewrite (countLiveNeighbors_aliveNeighbors _ _ _ _ _ Hrect).
Qed.

Lemma C1_updateGrid_conway_witness :
  rectangular 3 3 column3 ∧ getCell column3 1 0 = Some DEAD ∧
  ¬ protected DEAD ∧ getCell (V2.updateGrid column3) 1 0 = Some ALIVE.
Proof.
  assert (rectangular 3 3 column3) as Hrect
    by (split; [reflexivity | repeat constructor]).
  assert (¬ protected DEAD) as Hfree
    by (intros [H | [H | H]]; discriminate H).
  split; [exact Hrect|]. split; [reflexivity|]. split; [exact Hfree|].
  exact (C1_updateGrid_conway 3 3 column3 1 0 DEAD Hrect eq_refl Hfree).
Defined.

(** C2: a cell whose state is PENDING, INITIAL or IMMUNE keeps that state
    through [updateGrid], whatever its neighbors are; this holds for the
    step of either revision. *)
Theorem C2_updateGrid_protected_unchanged (grid : GridType) (i j : nat) s :
  getCell grid i j = Some s →
  protected s →
  getCell (V2.updateGrid grid) i j = Some s ∧
  getCell (V1.updateGrid grid) i j = Some s.
Proof.
  intros Hs Hp. unfold V2.updateGrid, V1.updateGrid.
  rewrite !getCell_updateGridWith, Hs. simpl.
  by rewrite !nextCell_protected.
Qed.

Lemma C2_updateGrid_protected_unchanged_witness :
  getCell crowded3 1 1 = Some IMMUNE ∧ protected IMMUNE ∧
  getCell (V2.updateGrid crowded3) 1 1 = Some IMMUNE ∧
  getCell (V1.updateGrid crowded3) 1 1 = Some IMMUNE.
Proof.
  split; [reflexivity|]. split; [right; right; reflexivity|].
  apply (C2_updateGrid_protected_unchanged crowded3 1 1 IMMUNE);
    [reflexivity | right; right; reflexivity].
Defined.

(** C9: a cell that is DEAD or ALIVE is DEAD or ALIVE after [updateGrid],
    and a position holds a protected state after the step exactly when it
    held one before. *)
Theorem C9_updateGrid_preserves_protected_set (grid : GridType) (i j : nat) :
  (∀ s, getCell grid i j = Some s → s = DEAD ∨ s = ALIVE →
     ∃ s', getCell (V2.updateGrid grid) i j = Some s' ∧ (s' = DEAD ∨ s' = ALIVE)) ∧
  ((∃ s, getCell grid i j = Some s ∧ protected s) ↔
   (∃ s', getCell (V2.updateGrid grid) i j = Some s' ∧ protected s')).
Proof.
  unfold V2.updateGrid. rewrite getCell_updateGridWith. split.
  - intros s Hs Hplain. rewrite Hs. simpl. eexists. split; [done|].
    rewrite nextCell_free by (unfold protected; naive_solver).
    by apply conwayRule_plain.
  - split.
    + intros (s & Hs & Hp). exists s. rewrite Hs. simpl.
      by rewrite nextCell_protected.
    + intros (s' & Hs' & Hp). destruct (getCell grid i j) as [s|]; [|done].
      simpl in Hs'. injection Hs' as <-. exists s. split; [done|].
      destruct (decide (protected s)) as [|Hfree]; [done|].
      rewrite nextCell_free in Hp by done.
      assert (s = DEAD ∨ s = ALIVE) as Hplain
        by (unfold protected in Hfree; destruct s; naive_solver).
      pose proof (conwayRule_plain s
        (countLiveNeighbors grid (Z.of_nat i) (Z.of_nat j)) Hplain) as Hnext.
      unfold protected in Hp. destruct Hnext as [Hn | Hn]; rewrite Hn in Hp;
        naive_solver.
Qed.

Lemma C9_updateGrid_preserves_protected_set_witness :
  ∃ s', getCell (V2.updateGrid column3) 0 1 = Some s' ∧ (s' = DEAD ∨ s' = ALIVE).
Proof.
  apply (proj1 (C9_updateGrid_preserves_protected_set column3 0 1) ALIVE);
    [reflexivity | right; reflexivity].
Defined.

(** ** The doubled glyphs *)

Lemma createDoubledDigits_fmap :
  createDoubledDigits = (λ coords : Glyph, coords ≫= doublePixel) <$> digits.
Proof.
  unfold createDoubledDigits.
  apply (map_fold_weak_ind (λ r (m : gmap Z Glyph),
    r = (λ coords : Glyph, coords ≫= doublePixel) <$> m)).
  - by rewrite fmap_empty.
  - intros i x m r _ ->. by rewrite fmap_insert.
Qed.

(** Membership in a 2 by 2 expansion. *)
Lemma elem_of_doubled (glyph : Glyph) a b :
  (a, b) ∈ glyph ≫= doublePixel ↔
  ∃ r c, (r, c) ∈ glyph ∧ (a = 2 * r - 1 ∨ a = 2 * r) ∧ (b = 2 * c - 1 ∨ b = 2 * c).
Proof.
  rewrite list_elem_of_bind. split.
  - intros ([r c] & Hin & Hp). exists r, c. split; [done|].
    simpl in Hin. rewrite !elem_of_cons, elem_of_nil in Hin.
    destruct Hin as [H|[H|[H|[H|[]]]]]; injection H as -> ->; lia.
  - intros (r & c & Hp & Ha & Hb). exists (r, c). split; [|done].
    simpl. rewrite !elem_of_cons.
    destruct Ha as [-> | ->], Hb as [-> | ->].
    + left. f_equal; lia.
    + right; left. f_equal; lia.
    + right; right; left. f_equal; lia.
    + right; right; right; left. f_equal; lia.
Qed.

(** The same, read from the large pixel back to the small one. *)
Lemma elem_of_doubled_div (glyph : Glyph) a b :
  (a, b) ∈ glyph ≫= doublePixel ↔ ((a + 1) `div` 2, (b + 1) `div` 2) ∈ glyph.
Proof.
  rewrite elem_of_doubled. split.
  - intros (r & c & Hp & Ha & Hb).
    replace ((a + 1) `div` 2) with r by (apply Z.div_unique with (r := (a + 1) - 2 * r); lia).
    replace ((b + 1) `div` 2) with c by (apply Z.div_unique with (r := (b + 1) - 2 * c); lia).
    done.
  - intros Hp. exists ((a + 1) `div` 2), ((b + 1) `div` 2). split; [done|].
    pose proof (Z.div_mod (a + 1) 2). pose proof (Z.mod_pos_bound (a + 1) 2).
    pose proof (Z.div_mod (b + 1) 2). pose proof (Z.mod_pos_bound (b + 1) 2).
    lia.
Qed.

Lemma digits_keys d (small : Glyph) : digits !! d = Some small → 0 ≤ d ≤ 9.
Proof.
  intros Hd. apply elem_of_list_to_map_2 in Hd.
  rewrite !elem_of_cons, elem_of_nil in Hd.
  repeat (destruct Hd as [Hd|Hd]; [injection Hd as -> _; lia|]). done.
Qed.

Lemma digits_defined d : 0 ≤ d ≤ 9 → is_Some (digits !! d).
Proof.
  intros Hd.
  assert (d = 0 ∨ d = 1 ∨ d = 2 ∨ d = 3 ∨ d = 4 ∨ d = 5 ∨ d = 6 ∨ d = 7 ∨
          d = 8 ∨ d = 9) as Hcases by lia.
  repeat (destruct Hcases as [-> | Hcases]; [by eexists|]). subst. by eexists.
Qed.

(** C10: for every digit [d] from 0 to 9, [digitsDoubled[d]] is
    [digits[d]] with each pixel [(r, c)] replaced by the four pixels
    [(2r-1, 2c-1)], [(2r-1, 2c)], [(2r, 2c-1)], [(2r, 2c)], in that order, so
    that a pixel [(a, b)] is lit in the doubled glyph exactly when the
    pixel [((a+1) div 2, (b+1) div 2)] is lit in the small one; and
    [symbolDoubled] is that expansion of the small currency symbol. *)
Theorem C10_doubled_glyphs_are_2x2_expansions :
  (∀ d, 0 ≤ d ≤ 9 →
     ∃ small big,
       digits !! d = Some small ∧ digitsDoubled !! d = Some big ∧
       big = small ≫= doublePixel ∧
       (∀ a b, (a, b) ∈ big ↔
          ∃ r c, (r, c) ∈ small ∧
                 (a = 2 * r - 1 ∨ a = 2 * r) ∧ (b = 2 * c - 1 ∨ b = 2 * c)) ∧
       (∀ a b, (a, b) ∈ big ↔ ((a + 1) `div` 2, (b + 1) `div` 2) ∈ small)) ∧
  (∀ d, is_Some (digitsDoubled !! d) ↔ 0 ≤ d ≤ 9) ∧
  symbols !! 0 = Some symbols0 ∧
  symbolDoubled = symbols0 ≫= doublePixel ∧
  (∀ a b, (a, b) ∈ symbolDoubled ↔
     ∃ r c, (r, c) ∈ symbols0 ∧
            (a = 2 * r - 1 ∨ a = 2 * r) ∧ (b = 2 * c - 1 ∨ b = 2 * c)) ∧
  (∀ a b, (a, b) ∈ symbolDoubled ↔ ((a + 1) `div` 2, (b + 1) `div` 2) ∈ symbols0).
Proof.
  unfold digitsDoubled, symbolDoubled, createDoubledSymbol.
  rewrite createDoubledDigits_fmap.
  split; [|split; [|split; [|split; [|split]]]].
  - intros d Hd. destruct (digits_defined d Hd) as [small Hsmall].
    exists small, (small ≫= doublePixel). rewrite lookup_fmap, Hsmall.
    split; [done|]. split; [done|]. split; [done|].
    split; intros a b; [apply elem_of_doubled | apply elem_of_doubled_div].
  - intros d. rewrite lookup_fmap. split.
    + intros [big Hbig].
      destruct (digits !! d) as [small|] eqn:Hsmall; [|done].
      by apply digits_keys in Hsmall.
    + intros Hd. destruct (digits_defined d Hd) as [small ->]. by eexists.
  - reflexivity.
  - reflexivity.
  - intros a b. apply elem_of_doubled.
  - intros a b. apply elem_of_doubled_div.
Qed.

Lemma C10_doubled_glyphs_are_2x2_expansions_witness :
  ∃ small big,
    digits !! 7 = Some small ∧ digitsDoubled !! 7 = Some big ∧
    big = small ≫= doublePixel ∧
    (∀ a b, (a, b) ∈ big ↔
       ∃ r c, (r, c) ∈ small ∧
              (a = 2 * r - 1 ∨ a = 2 * r) ∧ (b = 2 * c - 1 ∨ b = 2 * c)) ∧
    (∀ a b, (a, b) ∈ big ↔ ((a + 1) `div` 2, (b + 1) `div` 2) ∈ small).
Proof.
  apply (proj1 C10_doubled_glyphs_are_2x2_expansions 7). lia.
Defined.

Example digitsDoubled_1 :
  digitsDoubled !! 1 = Some [(1, 1); (1, 2); (2, 1); (2, 2); (3, 1); (3, 2); (4, 1); (4, 2);
    (5, 1); (5, 2); (6, 1); (6, 2); (7, 1); (7, 2); (8, 1); (8, 2);
    (9, 1); (9, 2); (10, 1); (10, 2)].
Proof. vm_compute. reflexivity. Qed.

(** ** Stamping on a rectangular grid *)

Lemma rectangular_setCell rows cols (grid : GridType) i j v :
  rectangular rows cols grid → rectangular rows cols (setCell grid i j v).
Proof.
  intros [Hlen Hall]. split; [by rewrite setCell_length|].
  rewrite Forall_lookup in Hall |- *. intros a row Hrow.
  pose proof (setCell_row_length grid i j v a) as Hl. rewrite Hrow in Hl.
  destruct (grid !! a) as [row0|] eqn:Hrow0; [|done].
  simpl in Hl. injection Hl as ->. by eapply Hall.
Qed.

Lemma rectangular_rowLength0 rows cols (grid : GridType) :
  rectangular rows cols grid → (0 < rows)%nat →
  rowLength0 grid = Some (Z.of_nat cols).
Proof.
  intros Hrect Hrows. unfold rowLength0.
  destruct (lookup_lt_is_Some_2 grid 0) as [row0 Hrow0]; [destruct Hrect; lia|].
  rewrite Hrow0. simpl. by rewrite (rectangular_row _ _ _ _ _ Hrect Hrow0).
Qed.

Lemma cellAt_inGrid rows cols (grid : GridType) cell :
  rectangular rows cols grid → inGrid rows cols cell →
  is_Some (cellAt grid cell.1 cell.2).
Proof.
  intros Hrect [Hr Hc]. unfold cellAt, getCell. rewrite decide_True by lia.
  destruct (lookup_lt_is_Some_2 grid (Z.to_nat cell.1)) as [row Hrow];
    [destruct Hrect; lia|].
  rewrite Hrow. simpl. apply lookup_lt_is_Some_2.
  rewrite (rectangular_row _ _ _ _ _ Hrect Hrow). lia.
Qed.

Lemma cellAt_setCell (grid : GridType) r0 c0 v r c :
  0 ≤ r0 → 0 ≤ c0 →
  cellAt (setCell grid (Z.to_nat r0) (Z.to_nat c0) v) r c =
  if decide (r = r0 ∧ c = c0) then (λ _, v) <$> cellAt grid r c
  else cellAt grid r c.
Proof.
  intros Hr0 Hc0. unfold cellAt.
  destruct (decide (0 ≤ r ∧ 0 ≤ c)) as [[Hr Hc]|Hneg].
  - rewrite getCell_setCell.
    destruct (decide (r = r0 ∧ c = c0)) as [[-> ->]|Hne].
    + by rewrite decide_True.
    + rewrite decide_False; [done|]. intros [? ?]. apply Hne. lia.
  - by case_decide.
Qed.

Lemma inBounds_rect rows cols (grid : GridType) r c :
  rectangular rows cols grid → (0 < rows)%nat →
  inBounds grid r c = Some (bool_decide (inGrid rows cols (r, c))).
Proof.
  intros Hrect Hrows. unfold inBounds, inGrid. simpl.
  rewrite (rectangular_rowLength0 _ _ _ Hrect Hrows).
  destruct Hrect as [-> _]. simpl.
  repeat case_bool_decide; simpl; try done; (f_equal; lia) || lia.
Qed.

Lemma rectangular_paint rows cols target cells : ∀ grid : GridType,
  rectangular rows cols grid → rectangular rows cols (paint target cells grid).
Proof.
  induction cells as [|cell cells IH]; intros grid Hrect; [done|].
  apply IH. by apply rectangular_setCell.
Qed.

(** After painting cells of the grid, exactly those hold [target]. *)
Lemma cellAt_paint rows cols target cells : ∀ (grid : GridType) r c,
  rectangular rows cols grid →
  Forall (inGrid rows cols) cells →
  cellAt (paint target cells grid) r c =
  if decide ((r, c) ∈ cells) then Some target else cellAt grid r c.
Proof.
  induction cells as [|[r0 c0] cells IH]; intros grid r c Hrect Hall.
  - rewrite decide_False; [done|]. apply not_elem_of_nil.
  - apply Forall_cons in Hall as [Hcell Hall].
    change (paint target ((r0, c0) :: cells) grid)
      with (paint target cells (setCell grid (Z.to_nat r0) (Z.to_nat c0) target)).
    rewrite IH by (auto using rectangular_setCell).
    destruct (decide ((r, c) ∈ cells)) as [Hin|Hnin].
    + rewrite decide_True; [done|]. by apply list_elem_of_further.
    + pose proof Hcell as [Hr0 Hc0]. simpl in Hr0, Hc0.
      rewrite cellAt_setCell by lia.
      destruct (decide (r = r0 ∧ c = c0)) as [[-> ->]|Hne].
      * rewrite decide_True by apply list_elem_of_here.
        destruct (cellAt_inGrid _ _ _ _ Hrect Hcell) as [s Hs].
        simpl in Hs. by rewrite Hs.
      * rewrite decide_False; [done|].
        rewrite elem_of_cons. intros [[= -> ->]|?]; [by apply Hne|done].
Qed.

(** The guarded loop writes the pixels that lie in the grid and tracks
    them in order; it never fails on a grid with at least one row. *)
Lemma stampAll_rect rows cols target pixels : ∀ (grid : GridType) cells,
  rectangular rows cols grid → (0 < rows)%nat →
  stampAll target pixels (grid, cells) =
  Some (paint target (filter (inGrid rows cols) pixels) grid,
        cells ++ filter (inGrid rows cols) pixels).
Proof.
  induction pixels as [|[r c] pixels IH]; intros grid cells Hrect Hrows.
  - simpl. by rewrite app_nil_r.
  - simpl. unfold stampPixel. simpl.
    rewrite (inBounds_rect _ _ _ _ _ Hrect Hrows). simpl.
    rewrite filter_cons. case_bool_decide as Hin.
    + rewrite decide_True by done. rewrite IH by (auto using rectangular_setCell).
      by rewrite <- app_assoc.
    + rewrite decide_False by done. by apply IH.
Qed.

Lemma stampAll_app target ps qs st :
  stampAll target (ps ++ qs) st = stampAll target ps st ≫= stampAll target qs.
Proof.
  revert st. induction ps as [|p ps IH]; intros st; simpl; [done|].
  destruct (stampPixel target p.1 p.2 st) as [st'|]; simpl; [apply IH|done].
Qed.

Lemma stampGlyph_stampAll target rowOf colOf glyph : ∀ st,
  stampGlyph target rowOf colOf glyph st =
  stampAll target (glyphPixels rowOf colOf glyph) st.
Proof.
  induction glyph as [|[row col] glyph IH]; intros st; simpl; [done|].
  destruct (stampPixel target (rowOf row) (colOf col) st) as [st'|]; simpl;
    [apply IH|done].
Qed.

Lemma stampDigits_stampAll target table widths fallback spacing rowOf colOf digit :
  ∀ currentCol st,
  stampDigits target table widths fallback spacing rowOf colOf digit currentCol st =
  stampAll target
    (digitPixels table widths fallback spacing rowOf colOf digit currentCol) st.
Proof.
  induction digit as [|ch digit IH]; intros currentCol st; simpl; [done|].
  rewrite stampAll_app.
  destruct (glyphOf table (NumberOfChar ch)) as [glyph|]; simpl.
  - rewrite stampGlyph_stampAll.
    destruct (stampAll target _ st) as [st'|]; simpl; [apply IH|done].
  - apply IH.
Qed.

Lemma setDigitAsPending_stampAll (grid : GridType) digit startRow startCol cells :
  setDigitAsPending grid digit startRow startCol cells =
  stampAll PENDING (pendingFootprint digit startRow startCol) (grid, cells).
Proof.
  unfold setDigitAsPending, pendingFootprint.
  rewrite stampAll_app, stampGlyph_stampAll.
  destruct (stampAll PENDING _ (grid, cells)) as [st|]; simpl; [|done].
  apply stampDigits_stampAll.
Qed.

Lemma elem_of_filter_inGrid rows cols (cells : list Cell) cell :
  cell ∈ filter (inGrid rows cols) cells ↔ inGrid rows cols cell ∧ cell ∈ cells.
Proof. apply list_elem_of_filter. Qed.

Lemma Forall_filter_inGrid rows cols (cells : list Cell) :
  Forall (inGrid rows cols) (filter (inGrid rows cols) cells).
Proof.
  apply Forall_forall. intros cell Hin.
  by apply elem_of_filter_inGrid in Hin as [? _].
Qed.

(** What [setDigitAsPending] does to a rectangular grid. *)
Lemma setDigitAsPending_rect rows cols (grid : GridType)
    (digit : string) (startRow startCol : Z) (tracked : list Cell) :
  rectangular rows cols grid → (0 < rows)%nat →
  ∃ grid' cells,
    setDigitAsPending grid digit startRow startCol tracked =
      Some (grid', tracked ++ cells) ∧
    cells = filter (inGrid rows cols) (pendingFootprint digit startRow startCol) ∧
    rectangular rows cols grid' ∧
    (∀ r c, cellAt grid' r c =
       if decide ((r, c) ∈ cells) then Some PENDING else cellAt grid r c).
Proof.
  intros Hrect Hrows.
  rewrite setDigitAsPending_stampAll, (stampAll_rect _ _ _ _ _ _ Hrect Hrows).
  do 2 eexists. split; [reflexivity|]. split; [reflexivity|].
  split; [by apply rectangular_paint|].
  intros r c. apply (cellAt_paint _ _ _ _ _ _ _ Hrect (Forall_filter_inGrid _ _ _)).
Qed.

(** The top pixel of the currency symbol lands on [(startRow, startCol + 2)]. *)
Lemma pendingFootprint_top rows cols digit startRow startCol :
  0 ≤ startRow < Z.of_nat rows → 0 ≤ startCol + 2 < Z.of_nat cols →
  (startRow, startCol + 2) ∈
    filter (inGrid rows cols) (pendingFootprint digit startRow startCol).
Proof.
  intros Hr Hc. apply elem_of_filter_inGrid. split; [split; simpl; lia|].
  unfold pendingFootprint. apply elem_of_app. left.
  replace (startRow, startCol + 2) with (1 + startRow - 1, 2 + startCol)
    by (f_equal; lia).
  apply list_elem_of_here.
Qed.

(** C3, as amended: on a rectangular grid with at least one row,
    [setDigitAsPending] with any string and any anchor returns normally;
    the tracked list it returns holds exactly the pixels of the rendering
    that lie inside the grid, so every returned coordinate is within bounds
    and pixels outside are neither written nor reported; every returned
    cell holds PENDING afterwards, every other cell is untouched and the
    grid keeps its shape; and the list is non-empty whenever the anchor
    puts the top pixel of the currency symbol inside the grid. *)
Theorem C3_setDigitAsPending_clips rows cols (grid : GridType)
    (digit : string) (startRow startCol : Z) :
  rectangular rows cols grid → (0 < rows)%nat →
  ∃ grid' cells,
    setDigitAsPending grid digit startRow startCol [] = Some (grid', cells) ∧
    cells = filter (inGrid rows cols) (pendingFootprint digit startRow startCol) ∧
    rectangular rows cols grid' ∧
    (∀ cell, cell ∈ cells →
       inGrid rows cols cell ∧ cellAt grid' cell.1 cell.2 = Some PENDING) ∧
    (∀ r c, (r, c) ∉ cells → cellAt grid' r c = cellAt grid r c) ∧
    (0 ≤ startRow < Z.of_nat rows → 0 ≤ startCol + 2 < Z.of_nat cols → cells ≠ []).
Proof.
  intros Hrect Hrows.
  destruct (setDigitAsPending_rect rows cols grid digit startRow startCol []
              Hrect Hrows) as (grid' & cells & Hcall & Hcells & Hrect' & Hat).
  exists grid', cells. split; [done|]. split; [done|]. split; [done|].
  split; [|split].
  - intros [r c] Hin. split.
    + rewrite Hcells in Hin. by apply elem_of_filter_inGrid in Hin as [? _].
    + simpl. rewrite Hat. by rewrite decide_True.
  - intros r c Hnin. rewrite Hat. by rewrite decide_False.
  - intros Hr Hc Hnil.
    pose proof (pendingFootprint_top rows cols digit startRow startCol Hr Hc) as Hin.
    rewrite <- Hcells, Hnil in Hin. by apply not_elem_of_nil in Hin.
Qed.

Lemma rectangular_setupGrid :
  rectangular (Z.to_nat CONFIG.ROWS) (Z.to_nat CONFIG.COLS) setupGrid.
Proof.
  unfold setupGrid. split; [apply length_replicate|].
  apply Forall_replicate, length_replicate.
Qed.

Lemma C3_setDigitAsPending_clips_witness :
  ∃ grid' cells,
    setDigitAsPending setupGrid "123" 10 10 [] = Some (grid', cells) ∧
    cells = filter (inGrid 55 182) (pendingFootprint "123" 10 10) ∧
    rectangular 55 182 grid' ∧
    (∀ cell, cell ∈ cells →
       inGrid 55 182 cell ∧ cellAt grid' cell.1 cell.2 = Some PENDING) ∧
    (∀ r c, (r, c) ∉ cells → cellAt grid' r c = cellAt setupGrid r c) ∧
    (0 ≤ 10 < Z.of_nat 55 → 0 ≤ 10 + 2 < Z.of_nat 182 → cells ≠ []).
Proof.
  apply (C3_setDigitAsPending_clips 55 182 setupGrid "123" 10 10
           rectangular_setupGrid).
  apply Nat.lt_0_succ.
Defined.

(** C3 as stated fails: anchored at row 10 of the last column of the
    fresh 55 by 182 grid, a position of the grid, the rendering of "123"
    lies to the right of the grid; nothing is written and the returned list
    is empty. *)
Lemma C3_counterexample_anchor_in_last_column :
  inGrid 55 182 (10, 181) ∧
  setDigitAsPending setupGrid "123" 10 181 [] = Some (setupGrid, []).
Proof. split; [unfold inGrid; simpl; lia | vm_compute; reflexivity]. Qed.

(** ** Replacing the immune total *)

Lemma clearCell_rect rows cols (grid : GridType) cell :
  rectangular rows cols grid → (0 < rows)%nat →
  clearCell grid cell =
  if decide (inGrid rows cols cell)
  then setCell grid (Z.to_nat cell.1) (Z.to_nat cell.2) DEAD
  else grid.
Proof.
  intros Hrect Hrows. unfold clearCell, inGrid.
  rewrite (rectangular_rowLength0 _ _ _ Hrect Hrows).
  destruct Hrect as [-> _].
  repeat case_bool_decide; simpl; case_decide; try done; lia.
Qed.

(** The first loop sets the cells of the previous list that lie in the
    grid to DEAD, whatever they held. *)
Lemma clear_paint rows cols previous : ∀ grid : GridType,
  rectangular rows cols grid → (0 < rows)%nat →
  foldl clearCell grid previous = paint DEAD (filter (inGrid rows cols) previous) grid.
Proof.
  induction previous as [|cell previous IH]; intros grid Hrect Hrows; [done|].
  simpl. rewrite (clearCell_rect _ _ _ _ Hrect Hrows), filter_cons.
  case_decide.
  - by rewrite IH by (auto using rectangular_setCell).
  - by apply IH.
Qed.

Lemma setTotalAsImmune_stampAll (grid : GridType) total previous :
  setTotalAsImmune grid total previous =
  stampAll IMMUNE (immuneFootprint (floorString total))
    (foldl clearCell grid previous, []).
Proof.
  unfold setTotalAsImmune, immuneFootprint, immuneStartCol.
  rewrite stampAll_app, stampGlyph_stampAll.
  destruct (stampAll IMMUNE _ (foldl clearCell grid previous, [])) as [st|];
    simpl; [|done].
  apply stampDigits_stampAll.
Qed.

(** What one call does to a rectangular grid. *)
Lemma setTotalAsImmune_rect rows cols (grid : GridType) total previous :
  rectangular rows cols grid → (0 < rows)%nat →
  ∃ grid' cells,
    setTotalAsImmune grid total previous = Some (grid', cells) ∧
    cells = filter (inGrid rows cols) (immuneFootprint (floorString total)) ∧
    rectangular rows cols grid' ∧
    (∀ r c, cellAt grid' r c =
       if decide ((r, c) ∈ cells) then Some IMMUNE
       else if decide ((r, c) ∈ filter (inGrid rows cols) previous) then Some DEAD
       else cellAt grid r c).
Proof.
  intros Hrect Hrows. rewrite setTotalAsImmune_stampAll.
  rewrite (clear_paint _ _ _ _ Hrect Hrows).
  assert (rectangular rows cols (paint DEAD (filter (inGrid rows cols) previous) grid))
    as Hrect' by (by apply rectangular_paint).
  rewrite (stampAll_rect _ _ _ _ _ _ Hrect' Hrows). simpl app.
  do 2 eexists. split; [reflexivity|]. split; [reflexivity|].
  split; [by apply rectangular_paint|].
  intros r c.
  rewrite (cellAt_paint _ _ _ _ _ _ _ Hrect' (Forall_filter_inGrid _ _ _)).
  case_decide; [done|].
  apply (cellAt_paint _ _ _ _ _ _ _ Hrect (Forall_filter_inGrid _ _ _)).
Qed.

(** C4: on a rectangular grid with at least one row, [setTotalAsImmune]
    returns normally.  The list it returns is the rendering of the new
    total: for a total whose floor is a safe integer, exactly the pixels of
    the doubled currency symbol followed by those of the doubled digits of
    [String(Math.floor(total))] that lie in the grid, in the order of the
    loops.  Afterwards every returned cell lies in the grid and holds
    IMMUNE, every cell of the previous list that lies in the grid and is
    not among the returned cells holds DEAD whatever it held before, and
    every cell in neither list is untouched.  Consequently, when the
    returned list is passed to a second call with any total, on the grid as
    it then is, the second call stamps its own rendering in the same way
    and every cell of the first list that is not in the second list holds
    DEAD, hence not IMMUNE. *)
Theorem C4_setTotalAsImmune_replaces rows cols (grid : GridType)
    (total : option JsNumber) (previous : list Cell) :
  rectangular rows cols grid → (0 < rows)%nat →
  ∃ grid' cells,
    setTotalAsImmune grid total previous = Some (grid', cells) ∧
    rectangular rows cols grid' ∧
    (safeInteger total →
     cells = filter (inGrid rows cols) (immuneFootprint (floorString total))) ∧
    (∀ cell, cell ∈ cells →
       inGrid rows cols cell ∧ cellAt grid' cell.1 cell.2 = Some IMMUNE) ∧
    (∀ cell, cell ∈ previous → inGrid rows cols cell → cell ∉ cells →
       cellAt grid' cell.1 cell.2 = Some DEAD) ∧
    (∀ cell, cell ∉ previous → cell ∉ cells →
       cellAt grid' cell.1 cell.2 = cellAt grid cell.1 cell.2) ∧
    (∀ (later : GridType) total2, rectangular rows cols later →
       ∃ grid'' cells'',
         setTotalAsImmune later total2 cells = Some (grid'', cells'') ∧
         (safeInteger total2 →
          cells'' = filter (inGrid rows cols) (immuneFootprint (floorString total2))) ∧
         (∀ cell, cell ∈ cells'' → cellAt grid'' cell.1 cell.2 = Some IMMUNE) ∧
         ∀ cell, cell ∈ cells → cell ∉ cells'' →
           cellAt grid'' cell.1 cell.2 = Some DEAD ∧
           cellAt grid'' cell.1 cell.2 ≠ Some IMMUNE).
Proof.
  intros Hrect Hrows.
  destruct (setTotalAsImmune_rect rows cols grid total previous Hrect Hrows)
    as (grid' & cells & Hcall & Hcells & Hrect' & Hat).
  exists grid', cells. split; [done|]. split; [done|]. split; [done|].
  assert (∀ cell, cell ∈ cells → inGrid rows cols cell) as Hin.
  { intros cell Hc. rewrite Hcells in Hc.
    by apply elem_of_filter_inGrid in Hc as [? _]. }
  split; [|split; [|split]].
  - intros [r c] Hc. split; [by apply Hin|]. simpl. rewrite Hat.
    by rewrite decide_True.
  - intros [r c] Hprev Hgrid Hnew. simpl. rewrite Hat.
    rewrite decide_False by done. rewrite decide_True; [done|].
    by apply elem_of_filter_inGrid.
  - intros [r c] Hprev Hnew. simpl. rewrite Hat.
    rewrite decide_False by done. rewrite decide_False; [done|].
    intros Hf. by apply elem_of_filter_inGrid in Hf as [_ ?].
  - intros later total2 Hlater.
    destruct (setTotalAsImmune_rect rows cols later total2 cells Hlater Hrows)
      as (grid'' & cells'' & Hcall2 & Hcells2 & _ & Hat2).
    exists grid'', cells''. split; [done|]. split; [done|]. split.
    + intros [r c] Hc. simpl. rewrite Hat2. by rewrite decide_True.
    + intros [r c] Hc Hnew. simpl. rewrite Hat2.
      rewrite decide_False by done. rewrite decide_True; [done|].
      apply elem_of_filter_inGrid. split; [by apply Hin|done].
Qed.

(** The total 100 on the fresh grid, with a previous list of one cell
    that the rendering leaves out and one cell of the rendering, then the
    total 250: the first call returns the 168 pixels of the rendering of
    100, the second the 188 of the rendering of 250. *)
Lemma C4_setTotalAsImmune_replaces_witness :
  ∃ grid' cells,
    setTotalAsImmune setupGrid (Some (JsFinite 100)) [(45, 170); (40, 160)]
      = Some (grid', cells) ∧
    rectangular 55 182 grid' ∧
    cells = filter (inGrid 55 182) (immuneFootprint "100") ∧
    length cells = 168%nat ∧
    (∀ cell, cell ∈ cells →
       inGrid 55 182 cell ∧ cellAt grid' cell.1 cell.2 = Some IMMUNE) ∧
    (∀ cell, cell ∈ [(45, 170); (40, 160)] → inGrid 55 182 cell → cell ∉ cells →
       cellAt grid' cell.1 cell.2 = Some DEAD) ∧
    ∃ grid'' cells'',
      setTotalAsImmune grid' (Some (JsFinite 250)) cells = Some (grid'', cells'') ∧
      cells'' = filter (inGrid 55 182) (immuneFootprint "250") ∧
      length cells'' = 188%nat ∧
      (∀ cell, cell ∈ cells'' → cellAt grid'' cell.1 cell.2 = Some IMMUNE) ∧
      ∀ cell, cell ∈ cells → cell ∉ cells'' →
        cellAt grid'' cell.1 cell.2 = Some DEAD ∧
        cellAt grid'' cell.1 cell.2 ≠ Some IMMUNE.
Proof.
  destruct (C4_setTotalAsImmune_replaces 55 182 setupGrid (Some (JsFinite 100))
              [(45, 170); (40, 160)] rectangular_setupGrid (Nat.lt_0_succ 54))
    as (grid' & cells & Hcall & Hrect & Hcells & Himmune & Hdead & _ & Hsecond).
  assert (safeInteger (Some (JsFinite 100))) as Hsafe1 by (vm_compute; discriminate).
  assert (safeInteger (Some (JsFinite 250))) as Hsafe2 by (vm_compute; discriminate).
  specialize (Hcells Hsafe1).
  destruct (Hsecond grid' (Some (JsFinite 250)) Hrect)
    as (grid'' & cells'' & Hcall2 & Hcells2 & Himmune2 & Hgone).
  specialize (Hcells2 Hsafe2).
  exists grid', cells. split; [exact Hcall|]. split; [exact Hrect|].
  split; [exact Hcells|]. split; [rewrite Hcells; vm_compute; reflexivity|].
  split; [exact Himmune|]. split; [exact Hdead|].
  exists grid'', cells''. split; [exact Hcall2|]. split; [exact Hcells2|].
  split; [rewrite Hcells2; vm_compute; reflexivity|].
  split; [exact Himmune2|exact Hgone].
Defined.

(** The scenario of the specification: after the totals 100 and then 250,
    no cell of the rendering of 100 outside the rendering of 250 is IMMUNE. *)
Example immune_100_then_250 :
  ∃ grid1 cells1 grid2 cells2,
    setTotalAsImmune setupGrid (Some (JsFinite 100)) [] = Some (grid1, cells1) ∧
    setTotalAsImmune grid1 (Some (JsFinite 250)) cells1 = Some (grid2, cells2) ∧
    (∀ cell, cell ∈ cells1 → cell ∉ cells2 →
       cellAt grid2 cell.1 cell.2 = Some DEAD) ∧
    length cells1 = 168%nat ∧ length cells2 = 188%nat.
Proof.
  destruct (setTotalAsImmune_rect 55 182 setupGrid (Some (JsFinite 100)) []
              rectangular_setupGrid (Nat.lt_0_succ 54))
    as (grid1 & cells1 & Hcall1 & Hcells1 & Hrect1 & _).
  destruct (setTotalAsImmune_rect 55 182 grid1 (Some (JsFinite 250)) cells1
              Hrect1 (Nat.lt_0_succ 54))
    as (grid2 & cells2 & Hcall2 & Hcells2 & _ & Hat2).
  exists grid1, cells1, grid2, cells2. split; [done|]. split; [done|].
  split; [|split].
  - intros [r c] Hin Hnin. simpl. rewrite Hat2.
    rewrite decide_False by done. rewrite decide_True; [done|].
    apply elem_of_filter_inGrid. split; [|done].
    rewrite Hcells1 in Hin. by apply elem_of_filter_inGrid in Hin as [? _].
  - rewrite Hcells1. vm_compute. reflexivity.
  - rewrite Hcells2. vm_compute. reflexivity.
Qed.


(** ** Expiry of tracked cells *)

(** C5: when the one-shot callback of a tracked cell fires (the cell lies
    in the grid, as every tracked cell does), it returns normally; it writes
    ALIVE into the cell exactly when the cell still holds the state it was
    stamped with (PENDING for a donation stamp, INITIAL for the initial
    total) and otherwise leaves the whole grid as it is; no other cell
    changes; and in both cases no entry with the cell's coordinates remains
    in the tracked list, whose other entries are kept. *)
Theorem C5_timeout_reverts_only_if_unchanged rows cols
    (stamped : CellState) (cell : Cell) (st : State) :
  rectangular rows cols (gridRef st) → inGrid rows cols cell →
  ∃ st',
    timeoutCallback stamped cell st = Some st' ∧
    gridRef st' =
      (if decide (cellAt (gridRef st) cell.1 cell.2 = Some stamped)
       then setCell (gridRef st) (Z.to_nat cell.1) (Z.to_nat cell.2) ALIVE
       else gridRef st) ∧
    (cellAt (gridRef st) cell.1 cell.2 = Some stamped →
       cellAt (gridRef st') cell.1 cell.2 = Some ALIVE) ∧
    (cellAt (gridRef st) cell.1 cell.2 ≠ Some stamped →
       cellAt (gridRef st') cell.1 cell.2 = cellAt (gridRef st) cell.1 cell.2) ∧
    (∀ r c, (r, c) ≠ cell → cellAt (gridRef st') r c = cellAt (gridRef st) r c) ∧
    (cell ∉ pendingCellsRef st') ∧
    (∀ other, other ≠ cell →
       (other ∈ pendingCellsRef st' ↔ other ∈ pendingCellsRef st)).
Proof.
  intros Hrect Hin. destruct cell as [r0 c0]. pose proof Hin as [Hr Hc].
  simpl in Hr, Hc. unfold timeoutCallback. simpl.
  destruct (lookup_lt_is_Some_2 (gridRef st) (Z.to_nat r0)) as [row Hrow];
    [destruct Hrect; lia|].
  rewrite (bool_decide_eq_true_2 (0 ≤ r0)), (bool_decide_eq_true_2 (0 ≤ c0)) by lia.
  rewrite Hrow. simpl.
  assert (cellAt (gridRef st) r0 c0 = row !! Z.to_nat c0) as Hval.
  { unfold cellAt, getCell. rewrite decide_True by lia. by rewrite Hrow. }
  rewrite <- Hval. eexists. split; [reflexivity|]. simpl.
  split; [by case_bool_decide; case_decide|].
  destruct (cellAt_inGrid _ _ _ _ Hrect Hin) as [s Hs]. simpl in Hs.
  split; [|split; [|split; [|split]]].
  - intros Heq. rewrite bool_decide_eq_true_2 by done.
    rewrite cellAt_setCell by lia. rewrite decide_True by done. by rewrite Hs.
  - intros Hne. by rewrite bool_decide_eq_false_2.
  - intros r c Hother. case_bool_decide; [|done].
    rewrite cellAt_setCell by lia. rewrite decide_False; [done|].
    intros [-> ->]. by apply Hother.
  - rewrite list_elem_of_filter. simpl. intros [Hne _]. by apply Hne.
  - intros [r c] Hother. rewrite list_elem_of_filter. simpl.
    split; [by intros [_ ?]|]. intros Hmem. split; [|done].
    intros [-> ->]. by apply Hother.
Qed.

Lemma C5_timeout_reverts_only_if_unchanged_witness :
  rectangular 2 2 (gridRef tracking2) ∧ inGrid 2 2 (0, 0) ∧
  ∃ st',
    donationTimeout (0, 0) tracking2 = Some st' ∧
    cellAt (gridRef st') 0 0 = Some ALIVE ∧
    (0, 0) ∉ pendingCellsRef st'.
Proof.
  assert (rectangular 2 2 (gridRef tracking2)) as Hrect
    by (split; [reflexivity | repeat constructor]).
  assert (inGrid 2 2 (0, 0)) as Hin by (unfold inGrid; simpl; lia).
  split; [exact Hrect|]. split; [exact Hin|].
  destruct (C5_timeout_reverts_only_if_unchanged 2 2 PENDING (0, 0) tracking2
              Hrect Hin) as (st' & Hcall & _ & Halive & _ & _ & Hgone & _).
  exists st'. split; [exact Hcall|]. split; [exact (Halive eq_refl)|exact Hgone].
Defined.

(** The scenario of the specification: a cell of a stamp that was set to
    DEAD before its timer fires stays DEAD. *)
Example timeout_skips_changed_cell :
  ∃ st',
    donationTimeout (1, 0) tracking2 = Some st' ∧
    gridRef st' = stamped2 ∧ cellAt (gridRef st') 1 0 = Some DEAD.
Proof. eexists. split; [reflexivity|]. split; reflexivity. Qed.


(** ** The placement loops *)

(** A do-while loop ends at the first pass after which the condition
    fails, if the fuel reaches that far. *)
Lemma doWhile_first {A} (body : A → A) (cond : A → bool) (k : nat) :
  ∀ s fuel,
  (1 ≤ k ≤ fuel)%nat →
  (∀ j, (1 ≤ j < k)%nat → cond (Nat.iter j body s) = true) →
  cond (Nat.iter k body s) = false →
  doWhile fuel body cond s = Some (Nat.iter k body s).
Proof.
  induction k as [|k IH]; intros s fuel Hk Hbefore Hat; [lia|].
  destruct fuel as [|fuel]; [lia|]. simpl doWhile.
  destruct k as [|k].
  - simpl in Hat. by rewrite Hat.
  - pose proof (Hbefore 1%nat ltac:(lia)) as H1. simpl in H1. rewrite H1.
    rewrite Nat.iter_succ_r. apply IH; [lia| |by rewrite <- Nat.iter_succ_r].
    intros j Hj. rewrite <- Nat.iter_succ_r. apply Hbefore. lia.
Qed.

(** It has not ended while the condition held after every pass. *)
Lemma doWhile_None {A} (body : A → A) (cond : A → bool) (fuel : nat) :
  ∀ s,
  (∀ j, (1 ≤ j ≤ fuel)%nat → cond (Nat.iter j body s) = true) →
  doWhile fuel body cond s = None.
Proof.
  induction fuel as [|fuel IH]; intros s Hall; [done|].
  pose proof (Hall 1%nat ltac:(lia)) as H1. simpl in H1. simpl. rewrite H1.
  apply IH.
  intros j Hj. rewrite <- Nat.iter_succ_r. apply Hall. lia.
Qed.

Lemma attempts_iter random maxX maxY calls0 (k : nat) :
  attempts (Nat.iter k (sample random maxX maxY) (beforeLoop calls0)) = Z.of_nat k.
Proof.
  induction k as [|k IH]; [done|]. simpl Nat.iter. unfold sample at 1. simpl.
  rewrite IH. lia.
Qed.

(** A bounded search for the first pass after which a condition fails. *)
Lemma first_false (cond : nat → bool) (n : nat) :
  cond n = false → (1 ≤ n)%nat →
  ∃ k, (1 ≤ k ≤ n)%nat ∧ cond k = false ∧ ∀ j, (1 ≤ j < k)%nat → cond j = true.
Proof.
  intros Hn Hpos.
  assert (∀ m, (m ≤ n)%nat →
    (∀ j, (1 ≤ j ≤ m)%nat → cond j = true) ∨
    ∃ k, (1 ≤ k ≤ m)%nat ∧ cond k = false ∧ ∀ j, (1 ≤ j < k)%nat → cond j = true)
    as Hsearch.
  { induction m as [|m IH]; intros Hm; [left; intros; lia|].
    destruct IH as [Hall|(k & Hk & Hf & Hb)]; [lia| |].
    - destruct (cond (S m)) eqn:Hc.
      + left. intros j Hj. destruct (decide (j = S m)) as [->|]; [done|].
        apply Hall. lia.
      + right. exists (S m). split; [lia|]. split; [done|].
        intros j Hj. apply Hall. lia.
    - right. exists k. split; [lia|]. done. }
  destruct (Hsearch n) as [Hall|Hk]; [lia| |done].
  rewrite Hall in Hn by lia. done.
Qed.

(** The capped loop returns the first candidate that does not overlap, or
    the 50th one. *)
Lemma choosePlacementV2_returns random immuneCells donationStr maxX maxY calls0 fuel :
  (50 ≤ fuel)%nat →
  ∃ k : nat,
    (1 ≤ k ≤ 50)%nat ∧
    choosePlacementV2 random fuel immuneCells donationStr maxX maxY calls0 =
      Some (Nat.iter k (sample random maxX maxY) (beforeLoop calls0)) ∧
    (∀ j, (1 ≤ j < k)%nat →
       let c := Nat.iter j (sample random maxX maxY) (beforeLoop calls0) in
       wouldOverlapImmune immuneCells donationStr (startX c) (startY c) = true) ∧
    ((k < 50)%nat →
       let c := Nat.iter k (sample random maxX maxY) (beforeLoop calls0) in
       wouldOverlapImmune immuneCells donationStr (startX c) (startY c) = false).
Proof.
  intros Hfuel.
  destruct (first_false
    (λ j, retryV2 immuneCells donationStr
            (Nat.iter j (sample random maxX maxY) (beforeLoop calls0))) 50)
    as (k & Hk & Hstop & Hbefore).
  { unfold retryV2. rewrite attempts_iter.
    rewrite (bool_decide_eq_false_2 (_ < _)) by (unfold maxAttempts; lia).
    apply andb_false_r. }
  { lia. }
  exists k. split; [done|]. split; [|split].
  - unfold choosePlacementV2. apply doWhile_first; [lia|done|done].
  - intros j Hj. specialize (Hbefore j Hj). simpl in Hbefore.
    unfold retryV2 in Hbefore. by apply andb_true_iff in Hbefore as [? _].
  - intros Hlt. simpl in Hstop. unfold retryV2 in Hstop.
    rewrite attempts_iter in Hstop.
    rewrite (bool_decide_eq_true_2 (_ < _)) in Hstop
      by (unfold maxAttempts; lia).
    by rewrite andb_true_r in Hstop.
Qed.

(** C7, as amended: in the later revision the loop ends within 50
    attempts for every random source, immune list and amount: it returns
    the first candidate that does not overlap the immune cells if one comes
    among the first 49, and otherwise the 50th candidate whether it overlaps
    or not (an instance where it does is given).  The loop of the earlier
    revision has no cap: it returns the first candidate outside the
    exclusion zone, after as many attempts as that takes. *)
Theorem C7_placement_loops :
  (∀ random immuneCells donationStr maxX maxY calls0 fuel,
     (50 ≤ fuel)%nat →
     ∃ k : nat,
       (1 ≤ k ≤ 50)%nat ∧
       choosePlacementV2 random fuel immuneCells donationStr maxX maxY calls0 =
         Some (Nat.iter k (sample random maxX maxY) (beforeLoop calls0)) ∧
       attempts (Nat.iter k (sample random maxX maxY) (beforeLoop calls0)) =
         Z.of_nat k ∧
       (∀ j, (1 ≤ j < k)%nat →
          let c := Nat.iter j (sample random maxX maxY) (beforeLoop calls0) in
          wouldOverlapImmune immuneCells donationStr (startX c) (startY c) = true) ∧
       ((k < 50)%nat →
          let c := Nat.iter k (sample random maxX maxY) (beforeLoop calls0) in
          wouldOverlapImmune immuneCells donationStr (startX c) (startY c) = false)) ∧
  (∃ c, choosePlacementV2 alwaysZero 50 [(0, 2)] "5" 47 170 0 = Some c ∧
        attempts c = 50 ∧
        wouldOverlapImmune [(0, 2)] "5" (startX c) (startY c) = true) ∧
  (∀ random maxX maxY calls0 (k fuel : nat),
     (1 ≤ k ≤ fuel)%nat →
     (∀ j, (1 ≤ j < k)%nat →
        retryV1 (Nat.iter j (sample random maxX maxY) (beforeLoop calls0)) = true) →
     retryV1 (Nat.iter k (sample random maxX maxY) (beforeLoop calls0)) = false →
     choosePlacementV1 random fuel maxX maxY calls0 =
       Some (Nat.iter k (sample random maxX maxY) (beforeLoop calls0))).
Proof.
  split; [|split].
  - intros random immuneCells donationStr maxX maxY calls0 fuel Hfuel.
    destruct (choosePlacementV2_returns random immuneCells donationStr
                maxX maxY calls0 fuel Hfuel) as (k & Hk & Hcall & Hbefore & Hstop).
    exists k. split; [done|]. split; [done|]. split; [apply attempts_iter|].
    by split.
  - eexists. split; [vm_compute; reflexivity|]. split; reflexivity.
  - intros random maxX maxY calls0 k fuel Hk Hbefore Hstop.
    unfold choosePlacementV1. by apply doWhile_first.
Qed.

Lemma C7_placement_loops_witness :
  ∃ k : nat,
    (1 ≤ k ≤ 50)%nat ∧
    choosePlacementV2 alwaysNineTenths 50 [] "25" 47 166 0 =
      Some (Nat.iter k (sample alwaysNineTenths 47 166) (beforeLoop 0)).
Proof.
  destruct (proj1 C7_placement_loops alwaysNineTenths [] "25" 47 166 0%nat 50%nat
              (le_n 50)) as (k & Hk & Hcall & _).
  exists k. split; [exact Hk | exact Hcall].
Defined.

Lemma sample_alwaysNineTenths (c : Candidate) :
  retryV1 (sample alwaysNineTenths 47 170 c) = true.
Proof. reflexivity. Qed.

(** With a random source that keeps returning 0.9 every candidate is
    [(42, 153)], inside the exclusion zone: the loop of the earlier revision
    has not returned after any number of attempts. *)
Lemma choosePlacementV1_alwaysNineTenths fuel :
  choosePlacementV1 alwaysNineTenths fuel 47 170 0 = None.
Proof.
  unfold choosePlacementV1. apply doWhile_None.
  intros j Hj. destruct j as [|j]; [lia|]. simpl Nat.iter.
  apply sample_alwaysNineTenths.
Qed.

(** C7 as stated fails for the loop of the earlier revision, which has no
    cap: with a random source that keeps returning 0.9 no number of
    attempts makes the placement loop return, and the donation handler
    never gets to stamp a donation of 5. *)
Lemma C7_counterexample_uncapped_loop :
  ¬ (∃ fuel c, choosePlacementV1 alwaysNineTenths fuel 47 170 0 = Some c) ∧
  ¬ (∃ fuel st',
       donationHandlerV1 alwaysNineTenths fuel (Some (JsFinite 5)) initialState
       = Some st').
Proof.
  split.
  - intros (fuel & c & Hc). by rewrite choosePlacementV1_alwaysNineTenths in Hc.
  - intros (fuel & st' & Hst). unfold donationHandlerV1 in Hst.
    change (choosePlacementV1 alwaysNineTenths fuel 47 170 0 ≫=
            (λ c, stampDonation "5" c initialState) = Some st') in Hst.
    by rewrite choosePlacementV1_alwaysNineTenths in Hst.
Qed.

(** ** Falsy totals and random candidates *)

Lemma truthy_absentOrZero raw : absentOrZero raw → truthy raw = false.
Proof.
  destruct raw as [[| |q]|]; simpl; try done.
  intros Hq. apply negb_false_iff. by apply Qeq_bool_iff.
Qed.

(** [Math.floor(Math.random() * m)] lies in [0, m) for [m] at least 1. *)
Lemma randomBelow_range random k m :
  Qle 0 (random k) → Qlt (random k) 1 → 1 ≤ m →
  0 ≤ randomBelow random k m < m.
Proof.
  intros H0 H1 Hm. unfold randomBelow.
  assert (Qle 0 (inject_Z m)) as Hm0
    by (change (Qle (inject_Z 0) (inject_Z m)); rewrite <- Zle_Qle; lia).
  assert (Qlt 0 (inject_Z m)) as Hmpos
    by (change (Qlt (inject_Z 0) (inject_Z m)); rewrite <- Zlt_Qlt; lia).
  split.
  - change 0 with (Qfloor (inject_Z 0)). apply Qfloor_resp_le.
    by apply Qmult_le_0_compat.
  - rewrite Zlt_Qlt. eapply Qle_lt_trans; [apply Qfloor_le|].
    rewrite <- (Qmult_1_l (inject_Z m)) at 2.
    by apply Qmult_lt_compat_r.
Qed.

(** ** The blinker *)

Lemma getCell_gridOf rows cols f i j :
  getCell (gridOf rows cols f) i j =
  if decide (i < rows ∧ j < cols)%nat then Some (f i j) else None.
Proof.
  unfold getCell, gridOf. rewrite list_lookup_fmap.
  destruct (decide (i < rows)%nat) as [Hi|Hi].
  - rewrite lookup_seq_lt by done. simpl. rewrite list_lookup_fmap.
    destruct (decide (j < cols)%nat) as [Hj|Hj].
    + rewrite lookup_seq_lt by done. simpl. by rewrite decide_True.
    + rewrite lookup_seq_ge by lia. simpl. rewrite decide_False; [done|lia].
  - rewrite lookup_seq_ge by lia. simpl. rewrite decide_False; [done|lia].
Qed.

Lemma rectangular_gridOf rows cols f : rectangular rows cols (gridOf rows cols f).
Proof.
  unfold gridOf. split; [by rewrite length_fmap, length_seq|].
  apply Forall_fmap, Forall_forall. intros i _. simpl.
  by rewrite length_fmap, length_seq.
Qed.

(** Two grids of one shape with the same cells are the same grid. *)
Lemma rectangular_ext rows cols (g1 g2 : GridType) :
  rectangular rows cols g1 → rectangular rows cols g2 →
  (∀ i j, getCell g1 i j = getCell g2 i j) → g1 = g2.
Proof.
  intros H1 H2 Hcells. apply list_eq. intros i.
  destruct (g1 !! i) as [row1|] eqn:Hr1, (g2 !! i) as [row2|] eqn:Hr2.
  - f_equal. apply list_eq. intros j.
    specialize (Hcells i j). unfold getCell in Hcells.
    by rewrite Hr1, Hr2 in Hcells.
  - apply lookup_lt_Some in Hr1. apply lookup_ge_None in Hr2.
    destruct H1, H2. lia.
  - apply lookup_lt_Some in Hr2. apply lookup_ge_None in Hr1.
    destruct H1, H2. lia.
  - done.
Qed.

Lemma rectangular_updateGridWith frozen rows cols (grid : GridType) :
  rectangular rows cols grid → rectangular rows cols (updateGridWith frozen grid).
Proof.
  intros [Hlen Hall]. split; [by rewrite updateGridWith_length|].
  rewrite Forall_lookup in Hall |- *. intros a row Hrow.
  pose proof (updateGridWith_row_length frozen grid a) as Hl. rewrite Hrow in Hl.
  destruct (grid !! a) as [row0|] eqn:Hrow0; [|done].
  simpl in Hl. injection Hl as ->. by eapply Hall.
Qed.

(** A step of a grid given by a function is the grid of the stepped
    function. *)
Lemma updateGridWith_gridOf frozen rows cols f g :
  (∀ i j, (i < rows)%nat → (j < cols)%nat →
     nextCell frozen (gridOf rows cols f) i j (f i j) = g i j) →
  updateGridWith frozen (gridOf rows cols f) = gridOf rows cols g.
Proof.
  intros Hstep.
  apply (rectangular_ext rows cols).
  { apply rectangular_updateGridWith, rectangular_gridOf. }
  { apply rectangular_gridOf. }
  intros i j. rewrite getCell_updateGridWith, !getCell_gridOf.
  case_decide as Hij; [|done]. simpl. f_equal. apply Hstep; lia.
Qed.

Lemma cellAt_gridOf_alive rows cols f a b :
  cellAt (gridOf rows cols f) a b = Some ALIVE ↔
  0 ≤ a < Z.of_nat rows ∧ 0 ≤ b < Z.of_nat cols ∧ f (Z.to_nat a) (Z.to_nat b) = ALIVE.
Proof.
  unfold cellAt. case_decide as Hpos.
  - rewrite getCell_gridOf. case_decide as Hin.
    + split; [intros [= ->]|intros (_ & _ & ->)]; [|done]. repeat split; lia.
    + split; [done|]. intros (? & ? & _). lia.
  - split; [done|]. intros (? & ? & _). lia.
Qed.

(** The neighbor count in a grid given by a function. *)
Lemma countLiveNeighbors_gridOf rows cols f row col :
  countLiveNeighbors (gridOf rows cols f) row col =
  foldr (λ d n,
    Z.b2z (bool_decide (0 ≤ row + d.1 < Z.of_nat rows ∧
                        0 ≤ col + d.2 < Z.of_nat cols ∧
                        f (Z.to_nat (row + d.1)) (Z.to_nat (col + d.2)) = ALIVE)) + n)
    0 neighborOffsets.
Proof.
  rewrite countLiveNeighbors_sum.
  induction neighborOffsets as [|d ds IH]; [done|]. simpl. rewrite IH. f_equal.
  rewrite (isLiveAt_cellAt _ _ _ _ _ (rectangular_gridOf rows cols f)).
  f_equal. apply bool_decide_ext, cellAt_gridOf_alive.
Qed.

(** The neighbor count in a grid that is ALIVE exactly where [Q] holds. *)
Lemma countLiveNeighbors_indicator rows cols (Q : nat → nat → Prop)
    `{∀ i j, Decision (Q i j)} row col :
  countLiveNeighbors
    (gridOf rows cols (λ i j, if bool_decide (Q i j) then ALIVE else DEAD)) row col =
  foldr (λ d n,
    Z.b2z (bool_decide (0 ≤ row + d.1 < Z.of_nat rows ∧
                        0 ≤ col + d.2 < Z.of_nat cols ∧
                        Q (Z.to_nat (row + d.1)) (Z.to_nat (col + d.2)))) + n)
    0 neighborOffsets.
Proof.
  rewrite countLiveNeighbors_gridOf.
  induction neighborOffsets as [|d ds IH]; [done|]. simpl. rewrite IH.
  do 2 f_equal. apply bool_decide_ext.
  split; intros (Hr & Hc & HQ); (split; [done|]; split; [done|]).
  - by case_bool_decide.
  - by rewrite bool_decide_eq_true_2.
Qed.

(** Settles every test of the goal that linear arithmetic decides. *)
Ltac settle_tests :=
  repeat match goal with
  | |- context [bool_decide ?P] =>
      first [ rewrite (bool_decide_eq_true_2 P) by (lia || done)
            | rewrite (bool_decide_eq_false_2 P) by (lia || done) ]
  end.

Lemma blinkerH_step frozen rows cols r c :
  frozen DEAD = false → frozen ALIVE = false →
  (1 ≤ r)%nat → (r + 1 < rows)%nat → (1 ≤ c)%nat → (c + 1 < cols)%nat →
  updateGridWith frozen (blinkerH rows cols r c) = blinkerV rows cols r c.
Proof.
  intros HD HA Hr1 Hr2 Hc1 Hc2. unfold blinkerH, blinkerV.
  apply updateGridWith_gridOf. intros i j Hi Hj. unfold nextCell.
  rewrite countLiveNeighbors_indicator. unfold neighborOffsets.
  cbn [foldr fst snd].
  assert (i + 2 ≤ r ∨ i + 1 = r ∨ i = r ∨ i = r + 1 ∨ r + 2 ≤ i)%nat
    as Hrow by lia.
  assert (j + 3 ≤ c ∨ j + 2 = c ∨ j + 1 = c ∨ j = c ∨ j = c + 1 ∨ j = c + 2 ∨
          c + 3 ≤ j)%nat as Hcol by lia.
  destruct Hrow as [?|[?|[?|[?|?]]]], Hcol as [?|[?|[?|[?|[?|[?|?]]]]]];
    settle_tests; rewrite ?HD, ?HA; cbn [Z.b2z]; settle_tests; reflexivity.
Qed.

Lemma blinkerV_step frozen rows cols r c :
  frozen DEAD = false → frozen ALIVE = false →
  (1 ≤ r)%nat → (r + 1 < rows)%nat → (1 ≤ c)%nat → (c + 1 < cols)%nat →
  updateGridWith frozen (blinkerV rows cols r c) = blinkerH rows cols r c.
Proof.
  intros HD HA Hr1 Hr2 Hc1 Hc2. unfold blinkerH, blinkerV.
  apply updateGridWith_gridOf. intros i j Hi Hj. unfold nextCell.
  rewrite countLiveNeighbors_indicator. unfold neighborOffsets.
  cbn [foldr fst snd].
  assert (i + 3 ≤ r ∨ i + 2 = r ∨ i + 1 = r ∨ i = r ∨ i = r + 1 ∨ i = r + 2 ∨
          r + 3 ≤ i)%nat as Hrow by lia.
  assert (j + 2 ≤ c ∨ j + 1 = c ∨ j = c ∨ j = c + 1 ∨ c + 2 ≤ j)%nat
    as Hcol by lia.
  destruct Hrow as [?|[?|[?|[?|[?|[?|?]]]]]], Hcol as [?|[?|[?|[?|?]]]];
    settle_tests; rewrite ?HD, ?HA; cbn [Z.b2z]; settle_tests; reflexivity.
Qed.

(** C8: in a grid of any size whose only ALIVE cells are three in a row,
    centred on [(r, c)] with the rows above and below and the three columns
    inside the grid, and whose other cells are DEAD, one [updateGrid]
    yields the grid whose only ALIVE cells are the three in a column
    centred on [(r, c)], and a second one yields the first grid again; this
    holds for the step of either revision. *)
Theorem C8_blinker_oscillates (rows cols r c : nat) :
  (1 ≤ r)%nat → (r + 1 < rows)%nat → (1 ≤ c)%nat → (c + 1 < cols)%nat →
  V2.updateGrid (blinkerH rows cols r c) = blinkerV rows cols r c ∧
  V2.updateGrid (V2.updateGrid (blinkerH rows cols r c)) = blinkerH rows cols r c ∧
  V1.updateGrid (blinkerH rows cols r c) = blinkerV rows cols r c ∧
  V1.updateGrid (V1.updateGrid (blinkerH rows cols r c)) = blinkerH rows cols r c.
Proof.
  intros Hr1 Hr2 Hc1 Hc2. unfold V2.updateGrid, V1.updateGrid.
  rewrite !(blinkerH_step _ rows cols r c), !(blinkerV_step _ rows cols r c)
    by done.
  done.
Qed.

Lemma C8_blinker_oscillates_witness :
  V2.updateGrid (blinkerH 5 5 2 2) = blinkerV 5 5 2 2 ∧
  V2.updateGrid (V2.updateGrid (blinkerH 5 5 2 2)) = blinkerH 5 5 2 2.
Proof.
  destruct (C8_blinker_oscillates 5 5 2 2) as (H1 & H2 & _); [lia..|].
  split; [exact H1 | exact H2].
Defined.

(** The blinker of the specification, written out. *)
Example blinkerH_5_5 :
  blinkerH 5 5 2 2 =
  [[DEAD; DEAD; DEAD; DEAD; DEAD];
   [DEAD; DEAD; DEAD; DEAD; DEAD];
   [DEAD; ALIVE; ALIVE; ALIVE; DEAD];
   [DEAD; DEAD; DEAD; DEAD; DEAD];
   [DEAD; DEAD; DEAD; DEAD; DEAD]] ∧
  V2.updateGrid (blinkerH 5 5 2 2) =
  [[DEAD; DEAD; DEAD; DEAD; DEAD];
   [DEAD; DEAD; ALIVE; DEAD; DEAD];
   [DEAD; DEAD; ALIVE; DEAD; DEAD];
   [DEAD; DEAD; ALIVE; DEAD; DEAD];
   [DEAD; DEAD; DEAD; DEAD; DEAD]].
Proof. split; vm_compute; reflexivity. Qed.

(** * Further properties *)

(** ** The generation step *)

Lemma isLiveAt_true (grid : GridType) r c :
  isLiveAt grid r c = true → getCell grid (Z.to_nat r) (Z.to_nat c) = Some ALIVE.
Proof.
  unfold isLiveAt. destruct (rowLength0 grid); [|by rewrite andb_false_r].
  rewrite !andb_true_iff. intros (_ & _ & H). by apply bool_decide_eq_true in H.
Qed.

(** X4: the neighbor count lies between 0 and 8 for every grid and every
    position, inside the grid or not; it is at most 5 on the top row and at
    most 3 in the top left corner, where neighbors are missing. *)
Theorem X4_countLiveNeighbors_bounds (grid : GridType) (row col : Z) :
  0 ≤ countLiveNeighbors grid row col ≤ 8 ∧
  (row = 0 → countLiveNeighbors grid row col ≤ 5) ∧
  (row = 0 → col = 0 → countLiveNeighbors grid row col ≤ 3).
Proof.
  rewrite countLiveNeighbors_sum. unfold neighborOffsets. cbn [foldr fst snd].
  assert (∀ r c, r < 0 ∨ c < 0 → isLiveAt grid r c = false) as Hout.
  { intros r c Hneg. unfold isLiveAt.
    destruct (decide (r >= 0)).
    - rewrite (bool_decide_eq_false_2 (c >= 0)) by lia. by rewrite andb_false_r.
    - by rewrite (bool_decide_eq_false_2 (r >= 0)) by lia. }
  split; [|split].
  - repeat match goal with
    | |- context [isLiveAt ?g ?r ?c] =>
        let b := fresh "b" in generalize (isLiveAt g r c); intros b
    end.
    repeat match goal with b : bool |- _ => destruct b end; simpl; lia.
  - intros ->. rewrite !(Hout (0 + -1)) by lia.
    repeat match goal with
    | |- context [isLiveAt ?g ?r ?c] =>
        let b := fresh "b" in generalize (isLiveAt g r c); intros b
    end.
    repeat match goal with b : bool |- _ => destruct b end; simpl; lia.
  - intros -> ->. rewrite !(Hout (0 + -1)), !(Hout _ (0 + -1)) by lia.
    repeat match goal with
    | |- context [isLiveAt ?g ?r ?c] =>
        let b := fresh "b" in generalize (isLiveAt g r c); intros b
    end.
    repeat match goal with b : bool |- _ => destruct b end; simpl; lia.
Qed.

Lemma X4_countLiveNeighbors_bounds_witness :
  countLiveNeighbors crowded3 0 0 ≤ 3.
Proof.
  exact (proj2 (proj2 (X4_countLiveNeighbors_bounds crowded3 0 0)) eq_refl eq_refl).
Defined.

(** Without a live cell in the grid every count is 0. *)
Lemma countLiveNeighbors_noAlive (grid : GridType) row col :
  (∀ i j, getCell grid i j ≠ Some ALIVE) → countLiveNeighbors grid row col = 0.
Proof.
  intros Hno. rewrite countLiveNeighbors_sum.
  induction neighborOffsets as [|d ds IH]; [done|]. simpl. rewrite IH.
  destruct (isLiveAt grid (row + d.1) (col + d.2)) eqn:Hlive; [|done].
  apply isLiveAt_true in Hlive. by apply Hno in Hlive.
Qed.

Lemma imap_id_ext {A} (f : nat → A → A) (l : list A) :
  (∀ i x, l !! i = Some x → f i x = x) → imap f l = l.
Proof.
  intros Hf. apply list_eq. intros i. rewrite list_lookup_imap.
  destruct (l !! i) as [x|] eqn:Hx; [|done]. simpl. f_equal. by apply Hf.
Qed.

(** X1: a grid without an ALIVE cell, whatever else it holds, is left
    as it is by the step of either revision: nothing is born next to
    PENDING, INITIAL or IMMUNE cells. *)
Theorem X1_updateGrid_no_spontaneous_generation (grid : GridType) :
  (∀ i j, getCell grid i j ≠ Some ALIVE) →
  V2.updateGrid grid = grid ∧ V1.updateGrid grid = grid.
Proof.
  intros Hno.
  assert (∀ frozen, updateGridWith frozen grid = grid) as Hfix.
  { intros frozen. rewrite updateGridWith_imap. apply imap_id_ext.
    intros i row Hrow. apply imap_id_ext. intros j s Hs.
    unfold nextCell. rewrite countLiveNeighbors_noAlive by done.
    destruct (frozen s); [done|].
    assert (s ≠ ALIVE) as Hne.
    { intros ->. apply (Hno i j). unfold getCell. by rewrite Hrow. }
    rewrite (bool_decide_eq_false_2 (s = ALIVE)) by done.
    rewrite (bool_decide_eq_false_2 (0 = 3)) by lia.
    by rewrite andb_false_r. }
  split; apply Hfix.
Qed.

Lemma X1_updateGrid_no_spontaneous_generation_witness :
  V2.updateGrid [[DEAD; PENDING]; [IMMUNE; DEAD]] = [[DEAD; PENDING]; [IMMUNE; DEAD]].
Proof.
  apply (X1_updateGrid_no_spontaneous_generation [[DEAD; PENDING]; [IMMUNE; DEAD]]).
  intros [|[|i]] [|[|j]]; discriminate.
Defined.

(** X2: the step of either revision keeps the shape of any array of
    rows, rectangular or not: the number of rows and the length of each. *)
Theorem X2_updateGrid_keeps_shape (grid : GridType) :
  length (V2.updateGrid grid) = length grid ∧
  (∀ i, length <$> V2.updateGrid grid !! i = length <$> grid !! i) ∧
  length (V1.updateGrid grid) = length grid ∧
  (∀ i, length <$> V1.updateGrid grid !! i = length <$> grid !! i).
Proof.
  unfold V2.updateGrid, V1.updateGrid.
  split; [apply updateGridWith_length|].
  split; [apply updateGridWith_row_length|].
  split; [apply updateGridWith_length|apply updateGridWith_row_length].
Qed.

(** X3: the steps of the two revisions agree on every grid: a cell that
    is neither ALIVE nor DEAD is left alone by the rule itself, so the
    added test for IMMUNE changes no result. *)
Theorem X3_updateGrid_revisions_agree (grid : GridType) :
  V1.updateGrid grid = V2.updateGrid grid.
Proof.
  unfold V1.updateGrid, V2.updateGrid. rewrite !updateGridWith_imap.
  apply imap_ext. intros i row _. apply imap_ext. intros j s _. simpl.
  unfold nextCell. destruct s; try done.
Qed.

(** Frozen cells through any number of generations. *)
Lemma getCell_iter_updateGrid_protected (n : nat) (grid : GridType) i j s :
  getCell grid i j = Some s → protected s →
  getCell (Nat.iter n V2.updateGrid grid) i j = Some s.
Proof.
  intros Hs Hp. induction n as [|n IH]; [done|]. simpl.
  unfold V2.updateGrid at 1. rewrite getCell_updateGridWith, IH. simpl.
  by rewrite nextCell_protected.
Qed.

Lemma rectangular_iter_updateGrid (n : nat) rows cols (grid : GridType) :
  rectangular rows cols grid → rectangular rows cols (Nat.iter n V2.updateGrid grid).
Proof.
  intros Hrect. induction n as [|n IH]; [done|]. simpl.
  by apply rectangular_updateGridWith.
Qed.

Lemma blockAt_step frozen rows cols r c :
  frozen DEAD = false → frozen ALIVE = false →
  (r + 1 < rows)%nat → (c + 1 < cols)%nat →
  updateGridWith frozen (blockAt rows cols r c) = blockAt rows cols r c.
Proof.
  intros HD HA Hr Hc. unfold blockAt.
  apply updateGridWith_gridOf. intros i j Hi Hj. unfold nextCell.
  rewrite countLiveNeighbors_indicator. unfold neighborOffsets.
  cbn [foldr fst snd].
  assert (i + 2 ≤ r ∨ i + 1 = r ∨ i = r ∨ i = r + 1 ∨ i = r + 2 ∨ r + 3 ≤ i)%nat
    as Hrow by lia.
  assert (j + 2 ≤ c ∨ j + 1 = c ∨ j = c ∨ j = c + 1 ∨ j = c + 2 ∨ c + 3 ≤ j)%nat
    as Hcol by lia.
  destruct Hrow as [?|[?|[?|[?|[?|?]]]]], Hcol as [?|[?|[?|[?|[?|?]]]]];
    settle_tests; rewrite ?HD, ?HA; cbn [Z.b2z]; settle_tests; reflexivity.
Qed.

(** X5: a 2 by 2 block of ALIVE cells in an otherwise DEAD grid of any
    size, anywhere it fits (the border included), is left as it is by the
    step of either revision. *)
Theorem X5_block_is_still (rows cols r c : nat) :
  (r + 1 < rows)%nat → (c + 1 < cols)%nat →
  V2.updateGrid (blockAt rows cols r c) = blockAt rows cols r c ∧
  V1.updateGrid (blockAt rows cols r c) = blockAt rows cols r c.
Proof.
  intros Hr Hc. unfold V2.updateGrid, V1.updateGrid.
  by rewrite !(blockAt_step _ rows cols r c).
Qed.

Lemma X5_block_is_still_witness :
  V2.updateGrid (blockAt 4 4 0 2) = blockAt 4 4 0 2 ∧
  V1.updateGrid (blockAt 4 4 0 2) = blockAt 4 4 0 2.
Proof. apply (X5_block_is_still 4 4 0 2); lia. Defined.

(** ** The layout of a run of glyphs *)

Lemma digitsWidth_shift widths fallback spacing digit : ∀ acc,
  digitsWidth widths fallback spacing digit acc =
  acc + digitsWidth widths fallback spacing digit 0.
Proof.
  unfold digitsWidth. induction digit as [|ch digit IH]; intros acc; simpl; [lia|].
  rewrite IH, (IH (0 + _)). lia.
Qed.

Lemma digitsWidth_cons widths fallback spacing ch digit :
  digitsWidth widths fallback spacing (ch :: digit) 0 =
  widthOr widths (NumberOfChar ch) fallback + spacing +
  digitsWidth widths fallback spacing digit 0.
Proof.
  unfold digitsWidth at 1. simpl. fold (digitsWidth widths fallback spacing digit
    (0 + (widthOr widths (NumberOfChar ch) fallback + spacing))).
  rewrite digitsWidth_shift. lia.
Qed.

Section layout.
Variables (table : gmap Z Glyph) (widths : gmap Z Z).
Variables (fallback spacing lo hi rowOffset colOffset : Z).
Variables (rowOf : Z → Z) (colOf : Z → Z → Z).

Hypothesis rowOf_shift : ∀ row, rowOf row = row + rowOffset.
Hypothesis colOf_shift : ∀ currentCol col, colOf currentCol col = col + currentCol + colOffset.
Hypothesis spacing_pos : 0 ≤ spacing.
Hypothesis width_pos : ∀ currentDigit, 0 ≤ widthOr widths currentDigit fallback.
Hypothesis glyph_fits : ∀ d glyph, table !! d = Some glyph →
  Forall (λ p, lo ≤ p.1 ≤ hi ∧ 1 ≤ p.2 ≤ widthOr widths (Some d) fallback) glyph.
Hypothesis glyph_NoDup : ∀ d glyph, table !! d = Some glyph → NoDup glyph.

Lemma digitsWidth_pos digit : 0 ≤ digitsWidth widths fallback spacing digit 0.
Proof.
  induction digit as [|ch digit IH]; [done|]. rewrite digitsWidth_cons.
  pose proof (width_pos (NumberOfChar ch)). lia.
Qed.

Lemma glyphOf_fits currentDigit glyph p :
  glyphOf table currentDigit = Some glyph → p ∈ glyph →
  lo ≤ p.1 ≤ hi ∧ 1 ≤ p.2 ≤ widthOr widths currentDigit fallback.
Proof.
  destruct currentDigit as [d|]; [|done]. simpl. intros Hg Hp.
  pose proof (glyph_fits d glyph Hg) as Hall. rewrite Forall_forall in Hall.
  by apply Hall.
Qed.

(** Every pixel of a run of glyphs lies in the band of rows of the font
    and between the column where the run starts and the one where it ends. *)
Lemma digitPixels_extent digit : ∀ currentCol p,
  p ∈ digitPixels table widths fallback spacing rowOf colOf digit currentCol →
  lo + rowOffset ≤ p.1 ≤ hi + rowOffset ∧
  currentCol + colOffset + 1 ≤ p.2 ≤
    currentCol + colOffset + digitsWidth widths fallback spacing digit 0 - spacing.
Proof.
  induction digit as [|ch digit IH]; intros currentCol p Hp; simpl in Hp.
  - by apply elem_of_nil in Hp.
  - rewrite digitsWidth_cons. pose proof (digitsWidth_pos digit) as Hrest.
    pose proof (width_pos (NumberOfChar ch)) as Hw.
    apply elem_of_app in Hp as [Hp|Hp].
    + unfold glyphPixels in Hp. apply list_elem_of_fmap in Hp as (q & -> & Hq).
      destruct (glyphOf table (NumberOfChar ch)) as [glyph|] eqn:Hg;
        [|by apply elem_of_nil in Hq].
      simpl in Hq. destruct (glyphOf_fits _ _ _ Hg Hq) as [Hrow Hcol].
      simpl. rewrite rowOf_shift, colOf_shift. lia.
    + apply IH in Hp as [Hrow Hcol]. split; [done|].
      destruct digit as [|ch' digit].
      * simpl in Hcol. unfold digitsWidth in Hcol. simpl in Hcol. lia.
      * lia.
Qed.

Lemma glyphPixels_NoDup currentCol glyph :
  NoDup glyph → NoDup (glyphPixels rowOf (colOf currentCol) glyph).
Proof.
  intros Hnd. unfold glyphPixels. apply NoDup_fmap_2; [|done].
  intros [r1 c1] [r2 c2] [= Hr Hc]. simpl in *.
  rewrite !rowOf_shift in Hr. rewrite !colOf_shift in Hc. f_equal; lia.
Qed.

(** No pixel occurs twice in a run of glyphs: the glyphs have no repeated
    pixel and stand in disjoint columns. *)
Lemma digitPixels_NoDup digit : ∀ currentCol,
  NoDup (digitPixels table widths fallback spacing rowOf colOf digit currentCol).
Proof.
  induction digit as [|ch digit IH]; intros currentCol; simpl; [apply NoDup_nil_2|].
  apply NoDup_app. split; [|split; [|apply IH]].
  - destruct (glyphOf table (NumberOfChar ch)) as [glyph|] eqn:Hg; simpl.
    + apply glyphPixels_NoDup. destruct (NumberOfChar ch) as [d|]; [|done].
      by eapply glyph_NoDup.
    + apply NoDup_nil_2.
  - intros p Hp Hrest. apply digitPixels_extent in Hrest as [_ [Hcol _]].
    unfold glyphPixels in Hp. apply list_elem_of_fmap in Hp as (q & -> & Hq).
    destruct (glyphOf table (NumberOfChar ch)) as [glyph|] eqn:Hg;
      [|by apply elem_of_nil in Hq].
    simpl in Hq. destruct (glyphOf_fits _ _ _ Hg Hq) as [_ Hc].
    simpl in Hcol. rewrite colOf_shift in Hcol. lia.
Qed.

Lemma digitsWidth_le_length (wmax : Z) digit :
  (∀ currentDigit, widthOr widths currentDigit fallback ≤ wmax) →
  digitsWidth widths fallback spacing digit 0 ≤
  (wmax + spacing) * Z.of_nat (length digit).
Proof.
  intros Hmax. induction digit as [|ch digit IH];
    [unfold digitsWidth; simpl; lia|].
  rewrite digitsWidth_cons. pose proof (Hmax (NumberOfChar ch)).
  simpl length. lia.
Qed.

End layout.

(** ** The glyph tables *)

Lemma widthOr_small currentDigit : 1 ≤ widthOr digitsWidths currentDigit 3 ≤ 3.
Proof.
  unfold widthOr. destruct currentDigit as [d|]; simpl; [|lia].
  destruct (digitsWidths !! d) as [w|] eqn:Hw; [|lia].
  apply elem_of_list_to_map_2 in Hw. rewrite !elem_of_cons, elem_of_nil in Hw.
  repeat (destruct Hw as [Hw|Hw]; [injection Hw as _ ->; simpl; lia|]). done.
Qed.

Lemma widthOr_doubled currentDigit : 2 ≤ widthOr digitsDoubledWidths currentDigit 6 ≤ 6.
Proof.
  unfold widthOr. destruct currentDigit as [d|]; simpl; [|lia].
  destruct (digitsDoubledWidths !! d) as [w|] eqn:Hw; [|lia].
  apply elem_of_list_to_map_2 in Hw. rewrite !elem_of_cons, elem_of_nil in Hw.
  repeat (destruct Hw as [Hw|Hw]; [injection Hw as _ ->; simpl; lia|]). done.
Qed.

(** Every small digit fits in 5 rows and in its declared width, and has
    no repeated pixel. *)
Lemma digits_fit d glyph :
  digits !! d = Some glyph →
  Forall (λ p, 1 ≤ p.1 ≤ 5 ∧ 1 ≤ p.2 ≤ widthOr digitsWidths (Some d) 3) glyph ∧
  NoDup glyph.
Proof.
  intros Hd. apply elem_of_list_to_map_2 in Hd.
  rewrite !elem_of_cons, elem_of_nil in Hd.
  repeat (destruct Hd as [Hd|Hd];
    [injection Hd as -> ->; split;
       [set (W := widthOr _ _ _); vm_compute in W; subst W;
        repeat (apply Forall_cons; split; [simpl; lia|]); apply Forall_nil_2
       |refine (bool_decide_unpack _ _); vm_compute; exact I]|]).
  done.
Qed.

(** Every doubled digit fits in 10 rows and in its declared width, and
    has no repeated pixel. *)
Lemma digitsDoubled_fit d glyph :
  digitsDoubled !! d = Some glyph →
  Forall (λ p, 1 ≤ p.1 ≤ 10 ∧ 1 ≤ p.2 ≤ widthOr digitsDoubledWidths (Some d) 6) glyph ∧
  NoDup glyph.
Proof.
  intros Hd. unfold digitsDoubled in Hd. rewrite createDoubledDigits_fmap in Hd.
  rewrite lookup_fmap in Hd.
  destruct (digits !! d) as [small|] eqn:Hsmall; [|done].
  simpl in Hd. injection Hd as <-.
  apply elem_of_list_to_map_2 in Hsmall.
  rewrite !elem_of_cons, elem_of_nil in Hsmall.
  repeat (destruct Hsmall as [Hsmall|Hsmall];
    [injection Hsmall as -> ->; split;
       [set (W := widthOr _ _ _); vm_compute in W; subst W;
        match goal with |- Forall _ ?l => let l' := eval vm_compute in l in change l with l' end;
        repeat (apply Forall_cons; split; [simpl; lia|]); apply Forall_nil_2
       |refine (bool_decide_unpack _ _); vm_compute; exact I]|]).
  done.
Qed.

Lemma symbols0_fit :
  Forall (λ p, 1 ≤ p.1 ≤ 7 ∧ 1 ≤ p.2 ≤ 3) symbols0 ∧ NoDup symbols0.
Proof.
  split; [|refine (bool_decide_unpack _ _); vm_compute; exact I].
  repeat (apply Forall_cons; split; [simpl; lia|]). apply Forall_nil_2.
Qed.

Lemma symbolDoubled_fit :
  Forall (λ p, 1 ≤ p.1 ≤ 14 ∧ 1 ≤ p.2 ≤ 6) symbolDoubled ∧ NoDup symbolDoubled.
Proof.
  split; [|refine (bool_decide_unpack _ _); vm_compute; exact I].
  match goal with |- Forall _ ?l => let l' := eval vm_compute in l in change l with l' end.
  repeat (apply Forall_cons; split; [simpl; lia|]). apply Forall_nil_2.
Qed.

(** ** The rendering of a donation *)

Lemma length_chars (s : string) :
  length (String.list_ascii_of_string s) = String.length s.
Proof. induction s as [|ch s IH]; simpl; [done|]. by rewrite IH. Qed.

Lemma pendingDigits_extent digit currentCol startRow p :
  p ∈ digitPixels digits digitsWidths 3 1
        (λ row, row + startRow) (λ currentCol col, col + currentCol)
        digit currentCol →
  1 + startRow ≤ p.1 ≤ 5 + startRow ∧
  currentCol + 1 ≤ p.2 ≤ currentCol + 4 * Z.of_nat (length digit) - 1.
Proof.
  intros Hp.
  apply (digitPixels_extent digits digitsWidths 3 1 1 5 startRow 0) in Hp;
    [|done|intros; lia|lia|intros; pose proof (widthOr_small currentDigit); lia
     |intros d g Hg; exact (proj1 (digits_fit d g Hg))].
  pose proof (digitsWidth_le_length digitsWidths 3 1 3 digit
                (λ cd, proj2 (widthOr_small cd))).
  lia.
Qed.

(** Every pixel of the rendering of a donation lies in the 7 rows from
    the anchor row and strictly right of the anchor column, within 4
    columns per character after the 3 of the currency symbol. *)
Lemma pendingFootprint_extent digit startRow startCol p :
  p ∈ pendingFootprint digit startRow startCol →
  startRow ≤ p.1 ≤ startRow + 6 ∧
  startCol + 1 ≤ p.2 ≤ startCol + 3 + 4 * Z.of_nat (String.length digit).
Proof.
  unfold pendingFootprint. intros Hp. apply elem_of_app in Hp as [Hp|Hp].
  - unfold glyphPixels in Hp. apply list_elem_of_fmap in Hp as (q & -> & Hq).
    destruct symbols0_fit as [Hfit _]. rewrite Forall_forall in Hfit.
    apply Hfit in Hq. simpl. lia.
  - apply pendingDigits_extent in Hp.
    rewrite length_chars in Hp. lia.
Qed.

Lemma pendingFootprint_NoDup digit startRow startCol :
  NoDup (pendingFootprint digit startRow startCol).
Proof.
  unfold pendingFootprint. apply NoDup_app. split; [|split].
  - apply (glyphPixels_NoDup (startRow - 1) 0 (λ row, row + startRow - 1)
             (λ currentCol col, col + currentCol));
      [intros; lia|intros; lia|apply symbols0_fit].
  - intros p Hp Hdigits. apply pendingDigits_extent in Hdigits as [_ [Hcol _]].
    unfold glyphPixels in Hp. apply list_elem_of_fmap in Hp as (q & -> & Hq).
    destruct symbols0_fit as [Hfit _]. rewrite Forall_forall in Hfit.
    apply Hfit in Hq. simpl in Hcol. lia.
  - apply (digitPixels_NoDup digits digitsWidths 3 1 1 5 startRow 0);
      [done|intros; lia|lia|intros; pose proof (widthOr_small currentDigit); lia
      |intros d g Hg; exact (proj1 (digits_fit d g Hg))
      |intros d g Hg; exact (proj2 (digits_fit d g Hg))].
Qed.

Lemma filter_inGrid_all rows cols (cells : list Cell) :
  Forall (inGrid rows cols) cells → filter (inGrid rows cols) cells = cells.
Proof.
  induction 1 as [|cell cells Hcell _ IH]; [done|].
  rewrite filter_cons. rewrite decide_True by done. by rewrite IH.
Qed.

(** An anchor that leaves 7 rows and 4 columns per character and for the
    currency symbol keeps the whole rendering inside the grid. *)
Lemma pendingFootprint_inGrid rows cols digit startRow startCol :
  0 ≤ startRow → startRow + 7 ≤ Z.of_nat rows →
  0 ≤ startCol → startCol + 4 * (Z.of_nat (String.length digit) + 1) ≤ Z.of_nat cols →
  Forall (inGrid rows cols) (pendingFootprint digit startRow startCol).
Proof.
  intros Hr1 Hr2 Hc1 Hc2. apply Forall_forall. intros p Hp.
  apply pendingFootprint_extent in Hp. unfold inGrid. lia.
Qed.

(** X7: [setDigitAsPending] never tracks a cell twice, whatever the
    string and the anchor: the glyphs of a run stand in disjoint columns,
    so each stamped cell gets one entry, hence one timer. *)
Theorem X7_setDigitAsPending_tracks_each_cell_once rows cols (grid : GridType)
    (digit : string) (startRow startCol : Z) :
  rectangular rows cols grid → (0 < rows)%nat →
  ∃ grid' cells,
    setDigitAsPending grid digit startRow startCol [] = Some (grid', cells) ∧
    NoDup cells.
Proof.
  intros Hrect Hrows.
  destruct (setDigitAsPending_rect rows cols grid digit startRow startCol []
              Hrect Hrows) as (grid' & cells & Hcall & -> & _).
  do 2 eexists. split; [exact Hcall|].
  apply NoDup_filter, pendingFootprint_NoDup.
Qed.

Lemma X7_setDigitAsPending_tracks_each_cell_once_witness :
  ∃ grid' cells,
    setDigitAsPending setupGrid "1101" 50 170 [] = Some (grid', cells) ∧
    NoDup cells.
Proof.
  apply (X7_setDigitAsPending_tracks_each_cell_once 55 182 setupGrid "1101" 50 170
           rectangular_setupGrid).
  apply Nat.lt_0_succ.
Defined.

(** ** The overlap test *)

Lemma existsb_elem_of {A} (f : A → bool) (l : list A) :
  existsb f l = true ↔ ∃ x, x ∈ l ∧ f x = true.
Proof.
  rewrite existsb_exists. split; intros (x & Hx & Hf); exists x;
    (split; [by apply list_elem_of_In|done]).
Qed.

Lemma digitsOverlapImmune_spec (immuneSet : gset Cell) testStartX digit :
  ∀ currentCol,
  digitsOverlapImmune immuneSet testStartX digit currentCol = true ↔
  ∃ cell, cell ∈ digitPixels digits digitsWidths 3 1
                   (λ row, row + testStartX) (λ currentCol col, col + currentCol)
                   digit currentCol ∧ cell ∈ immuneSet.
Proof.
  induction digit as [|ch digit IH]; intros currentCol; simpl.
  - split; [done|]. intros (cell & Hin & _). by apply elem_of_nil in Hin.
  - rewrite orb_true_iff, IH. split.
    + intros [Hhere|(cell & Hin & Himm)].
      * destruct (glyphOf digits (NumberOfChar ch)) as [glyph|]; [|done].
        apply existsb_elem_of in Hhere as (p & Hp & Hmem).
        apply bool_decide_eq_true in Hmem.
        eexists. split; [|exact Hmem]. apply elem_of_app. left.
        unfold glyphPixels. apply list_elem_of_fmap. by exists p.
      * exists cell. split; [|done]. apply elem_of_app. by right.
    + intros (cell & Hin & Himm). apply elem_of_app in Hin as [Hin|Hin].
      * left. unfold glyphPixels in Hin.
        apply list_elem_of_fmap in Hin as (p & -> & Hp).
        destruct (glyphOf digits (NumberOfChar ch)) as [glyph|];
          [|by apply elem_of_nil in Hp].
        apply existsb_elem_of. exists p. split; [done|].
        by apply bool_decide_eq_true.
      * right. by exists cell.
Qed.

(** The test of the placement loop looks at the pixels that
    [setDigitAsPending] would stamp at that anchor, clipped or not. *)
Lemma wouldOverlapImmune_spec immuneCells donationStr testStartX testStartY :
  wouldOverlapImmune immuneCells donationStr testStartX testStartY = true ↔
  ∃ cell, cell ∈ pendingFootprint donationStr testStartX testStartY ∧
          cell ∈ immuneCells.
Proof.
  unfold wouldOverlapImmune, pendingFootprint.
  rewrite orb_true_iff, digitsOverlapImmune_spec, existsb_elem_of. split.
  - intros [(p & Hp & Hmem)|(cell & Hin & Himm)].
    + apply bool_decide_eq_true in Hmem. rewrite elem_of_list_to_set in Hmem.
      eexists. split; [|exact Hmem]. apply elem_of_app. left.
      unfold glyphPixels. apply list_elem_of_fmap. by exists p.
    + rewrite elem_of_list_to_set in Himm. exists cell. split; [|done].
      apply elem_of_app. by right.
  - intros (cell & Hin & Himm). apply elem_of_app in Hin as [Hin|Hin].
    + left. unfold glyphPixels in Hin.
      apply list_elem_of_fmap in Hin as (p & -> & Hp). exists p. split; [done|].
      apply bool_decide_eq_true. by rewrite elem_of_list_to_set.
    + right. exists cell. split; [done|]. by rewrite elem_of_list_to_set.
Qed.

(** X9: [wouldOverlapImmune] answers true exactly when some pixel of
    the rendering that [setDigitAsPending] produces at the tested anchor is
    in the immune list; in particular a false answer means that stamping
    there, on a rectangular grid, tracks no immune cell. *)
Theorem X9_wouldOverlapImmune_tests_the_stamp rows cols (grid : GridType)
    (immuneCells : list Cell) (donationStr : string) (testStartX testStartY : Z) :
  (wouldOverlapImmune immuneCells donationStr testStartX testStartY = true ↔
   ∃ cell, cell ∈ pendingFootprint donationStr testStartX testStartY ∧
           cell ∈ immuneCells) ∧
  (rectangular rows cols grid → (0 < rows)%nat →
   wouldOverlapImmune immuneCells donationStr testStartX testStartY = false →
   ∃ grid' cells,
     setDigitAsPending grid donationStr testStartX testStartY [] = Some (grid', cells) ∧
     ∀ cell, cell ∈ immuneCells →
       (cell ∉ cells) ∧ cellAt grid' cell.1 cell.2 = cellAt grid cell.1 cell.2).
Proof.
  split; [apply wouldOverlapImmune_spec|].
  intros Hrect Hrows Hfree.
  destruct (setDigitAsPending_rect rows cols grid donationStr testStartX testStartY []
              Hrect Hrows) as (grid' & cells & Hcall & Hcells & _ & Hat).
  exists grid', cells. split; [exact Hcall|]. intros [r c] Himm.
  assert ((r, c) ∉ cells) as Hnin.
  { intros Hin. rewrite Hcells in Hin. apply elem_of_filter_inGrid in Hin as [_ Hin].
    assert (wouldOverlapImmune immuneCells donationStr testStartX testStartY = true)
      as Htrue by (apply wouldOverlapImmune_spec; by exists (r, c)).
    by rewrite Hfree in Htrue. }
  split; [done|]. simpl. rewrite Hat. by rewrite decide_False.
Qed.

Lemma X9_wouldOverlapImmune_tests_the_stamp_witness :
  ∃ grid' cells,
    setDigitAsPending setupGrid "42" 5 5 [] = Some (grid', cells) ∧
    ∀ cell, cell ∈ [(40, 160); (41, 160)] →
      (cell ∉ cells) ∧ cellAt grid' cell.1 cell.2 = cellAt setupGrid cell.1 cell.2.
Proof.
  apply (proj2 (X9_wouldOverlapImmune_tests_the_stamp 55 182 setupGrid
                  [(40, 160); (41, 160)] "42" 5 5) rectangular_setupGrid).
  - apply Nat.lt_0_succ.
  - vm_compute. reflexivity.
Defined.

(** ** The donation handler *)

Lemma calls_iter random maxX maxY calls0 (k : nat) :
  calls (Nat.iter k (sample random maxX maxY) (beforeLoop calls0)) = (calls0 + 2 * k)%nat.
Proof.
  induction k as [|k IH]; simpl; [lia|]. rewrite IH. lia.
Qed.

(** A candidate that the loop returns lies below the two bounds. *)
Lemma iter_sample_below random maxX maxY calls0 (k : nat) :
  (∀ k, Qle 0 (random k) ∧ Qlt (random k) 1) → (1 ≤ k)%nat →
  let c := Nat.iter k (sample random maxX maxY) (beforeLoop calls0) in
  0 ≤ startX c < Z.max 1 maxX ∧ 0 ≤ startY c < Z.max 1 maxY.
Proof.
  intros Hrand Hk. destruct k as [|k]; [lia|]. simpl Nat.iter. unfold sample. simpl.
  split; apply randomBelow_range; try apply Hrand; lia.
Qed.

(** What follows the loop, on a rectangular grid. *)
Lemma stampDonation_rect rows cols amount c (st : State) :
  rectangular rows cols (gridRef st) → (0 < rows)%nat →
  ∃ grid' cells,
    stampDonation amount c st =
      Some (track CONFIG.PENDING_DURATION PENDING grid' cells
              (hasShownInitialTotal st) (calls c) st) ∧
    cells = filter (inGrid rows cols) (pendingFootprint amount (startX c) (startY c)) ∧
    rectangular rows cols grid' ∧
    (∀ r c, cellAt grid' r c =
       if decide ((r, c) ∈ cells) then Some PENDING else cellAt (gridRef st) r c).
Proof.
  intros Hrect Hrows. unfold stampDonation.
  destruct (setDigitAsPending_rect rows cols (gridRef st) amount
              (startX c) (startY c) [] Hrect Hrows)
    as (grid' & cells & -> & Hcells & Hrect' & Hat).
  simpl. by exists grid', cells.
Qed.

(** ** The string of a safe integer *)

(** The printer adds at most [k] digits for a number below [10^k]. *)
Lemma pretty_N_go_length (k : nat) : ∀ (x : N) (s : string),
  (x < 10 ^ N.of_nat k)%N →
  (String.length (pretty_N_go x s) ≤ String.length s + k)%nat.
Proof.
  induction k as [|k IH]; intros x s Hx.
  - assert (x = 0%N) as -> by (simpl in Hx; lia). rewrite pretty_N_go_0. lia.
  - destruct (decide (x = 0%N)) as [->|Hne]; [rewrite pretty_N_go_0; lia|].
    rewrite pretty_N_go_step by lia.
    etrans; [apply IH|simpl; lia].
    rewrite Nat2N.inj_succ, N.pow_succ_r' in Hx.
    apply N.Div0.div_lt_upper_bound. lia.
Qed.

(** The string of a safe integer has at most 16 digits and a sign. *)
Lemma floorString_length (x : option JsNumber) :
  safeInteger x → (String.length (floorString x) ≤ 17)%nat.
Proof.
  destruct x as [[|[]|q]|]; simpl; try lia.
  change (2 ^ 53 - 1) with 9007199254740991.
  intros Hq. unfold pretty, pretty_Z.
  assert (∀ p, Z.pos p ≤ 9007199254740991 →
            (String.length (pretty_N_go (N.pos p) "") ≤ 16)%nat) as Hdigits.
  { intros p Hp. apply (pretty_N_go_length 16 (N.pos p) "").
    change (10 ^ N.of_nat 16)%N with 10000000000000000%N. lia. }
  revert Hq. destruct (Qfloor q) as [|p|p]; simpl; intros Hq.
  - lia.
  - specialize (Hdigits p ltac:(lia)). unfold pretty, pretty_positive, pretty, pretty_N.
    rewrite decide_False by done. lia.
  - change (Z.abs (Z.neg p)) with (Z.pos p) in Hq.
    specialize (Hdigits p Hq). unfold pretty, pretty_positive, pretty, pretty_N.
    rewrite decide_False by done.
    change (S (String.length (pretty_N_go (N.pos p) "")) ≤ 17)%nat. lia.
Qed.

(** ** The donation, stamped *)

(** For an anchor that the loop can choose, the 13 pixels of the currency
    symbol lie in the grid, whatever the string. *)
Lemma pendingSymbol_inGrid digit (x y : Z) (cell : Cell) :
  0 ≤ x ≤ 46 → 0 ≤ y ≤ 173 →
  cell ∈ glyphPixels (λ row, row + x - 1) (λ col, col + y) symbols0 →
  cell ∈ filter (inGrid 55 182) (pendingFootprint digit x y).
Proof.
  intros Hx Hy Hin. apply elem_of_filter_inGrid. split.
  - unfold glyphPixels in Hin. apply list_elem_of_fmap in Hin as (q & -> & Hq).
    destruct symbols0_fit as [Hfit _]. rewrite Forall_forall in Hfit.
    apply Hfit in Hq. unfold inGrid. simpl. lia.
  - unfold pendingFootprint. apply elem_of_app. by left.
Qed.

(** What follows the loop, for a candidate that the loop body produced:
    the anchor leaves room for the symbol and, up to 44 characters, for the
    whole rendering. *)
Lemma stampDonation_placed random amount (st : State) (k : nat) :
  (∀ k, Qle 0 (random k) ∧ Qlt (random k) 1) →
  rectangular 55 182 (gridRef st) → (1 ≤ k)%nat →
  let maxX := CONFIG.ROWS - 8 in
  let maxY := CONFIG.COLS - (Z.of_nat (String.length amount) * 4 + 8) in
  let c := Nat.iter k (sample random maxX maxY) (beforeLoop (randomCalls st)) in
  ∃ grid' cells,
    stampDonation amount c st =
      Some (track CONFIG.PENDING_DURATION PENDING grid' cells
              (hasShownInitialTotal st) (calls c) st) ∧
    0 ≤ startX c ≤ 46 ∧ 0 ≤ startY c ≤ 173 ∧
    ((String.length amount ≤ 44)%nat →
     startY c + 4 * (Z.of_nat (String.length amount) + 1) ≤ 182) ∧
    cells = filter (inGrid 55 182) (pendingFootprint amount (startX c) (startY c)) ∧
    rectangular 55 182 grid' ∧
    (∀ r col, cellAt grid' r col =
       if decide ((r, col) ∈ cells) then Some PENDING else cellAt (gridRef st) r col).
Proof.
  intros Hrand Hrect Hk maxX maxY c.
  destruct (iter_sample_below random maxX maxY (randomCalls st) k Hrand Hk)
    as [HX HY]. fold c in HX, HY.
  destruct (stampDonation_rect 55 182 amount c st Hrect ltac:(lia))
    as (grid' & cells & Hcall & Hcells & Hrect' & Hat).
  exists grid', cells. split; [done|].
  unfold maxX, maxY, CONFIG.ROWS, CONFIG.COLS in HX, HY.
  split; [lia|]. split; [lia|]. split; [lia|]. done.
Qed.

(** The outcome of a donation on the 55 by 182 grid, anchored at
    [(x, y)]: the symbol is stamped whole, and so is the rest of the
    rendering of an amount of at most 44 characters. *)
Lemma track_donation amount grid' cells shown calls0 (st : State) (x y : Z) :
  0 ≤ x ≤ 46 → 0 ≤ y ≤ 173 →
  ((String.length amount ≤ 44)%nat →
   y + 4 * (Z.of_nat (String.length amount) + 1) ≤ 182) →
  cells = filter (inGrid 55 182) (pendingFootprint amount x y) →
  (∀ r col, cellAt grid' r col =
     if decide ((r, col) ∈ cells) then Some PENDING else cellAt (gridRef st) r col) →
  let st' := track CONFIG.PENDING_DURATION PENDING grid' cells shown calls0 st in
  pendingCellsRef st' = pendingCellsRef st ++ cells ∧
  (∀ cell, cell ∈ glyphPixels (λ row, row + x - 1) (λ col, col + y) symbols0 →
     cell ∈ cells) ∧
  (∀ cell, cell ∈ cells →
     inGrid 55 182 cell ∧ cellAt (gridRef st') cell.1 cell.2 = Some PENDING) ∧
  (∀ r col, (r, col) ∉ cells → cellAt (gridRef st') r col = cellAt (gridRef st) r col) ∧
  ((String.length amount ≤ 44)%nat → cells = pendingFootprint amount x y).
Proof.
  intros Hx Hy Hroom Hcells Hat st'. split; [done|]. split; [|split; [|split]].
  - intros cell Hin. rewrite Hcells. by apply pendingSymbol_inGrid.
  - intros [r col] Hin. split.
    + rewrite Hcells in Hin. by apply elem_of_filter_inGrid in Hin as [? _].
    + simpl. rewrite Hat. by rewrite decide_True.
  - intros r col Hnin. simpl. rewrite Hat. by rewrite decide_False.
  - intros Hlen. rewrite Hcells. apply filter_inGrid_all.
    apply pendingFootprint_inGrid; [lia|lia|lia|]. simpl. by apply Hroom.
Qed.

(** X8: for an amount whose floor is a safe integer, the donation
    handler of the later revision stamps the whole rendering: the bounds
    [maxX] and [maxY] keep every pixel inside the 55 by 182 grid, so nothing
    is clipped.  Every pixel of the rendering holds PENDING afterwards and
    no other cell of the grid is changed; the new tracked cells are the
    pixels of the rendering, each with one timer of 3000 ms that guards on
    PENDING; the immune list and the initial-total flag are left as they
    are. *)
Theorem X8_donation_is_stamped_whole random (rawAmount : option JsNumber)
    (st : State) (fuel : nat) :
  (∀ k, Qle 0 (random k) ∧ Qlt (random k) 1) →
  rectangular 55 182 (gridRef st) → (50 ≤ fuel)%nat →
  safeInteger rawAmount →
  ∃ st' x y,
    donationHandlerV2 random fuel rawAmount st = Some st' ∧
    0 ≤ x ≤ 46 ∧ 0 ≤ y ∧
    y + 4 * (Z.of_nat (String.length (floorString rawAmount)) + 1) ≤ 182 ∧
    Forall (inGrid 55 182) (pendingFootprint (floorString rawAmount) x y) ∧
    (∀ cell, cell ∈ pendingFootprint (floorString rawAmount) x y →
       cellAt (gridRef st') cell.1 cell.2 = Some PENDING) ∧
    (∀ r c, (r, c) ∉ pendingFootprint (floorString rawAmount) x y →
       cellAt (gridRef st') r c = cellAt (gridRef st) r c) ∧
    pendingCellsRef st' =
      pendingCellsRef st ++ pendingFootprint (floorString rawAmount) x y ∧
    timers st' =
      timers st ++
      ((λ cell, {| delay := 3000; stampedAs := PENDING; target := cell |})
         <$> pendingFootprint (floorString rawAmount) x y) ∧
    immuneCellsRef st' = immuneCellsRef st ∧
    hasShownInitialTotal st' = hasShownInitialTotal st.
Proof.
  intros Hrand Hrect Hfuel Hsafe. unfold donationHandlerV2.
  pose proof (floorString_length _ Hsafe) as Hlen.
  set (amount := floorString rawAmount) in *.
  destruct (choosePlacementV2_returns random (immuneCellsRef st) amount
              (CONFIG.ROWS - 8)
              (CONFIG.COLS - (Z.of_nat (String.length amount) * 4 + 8))
              (randomCalls st) fuel Hfuel) as (k & Hk & -> & _).
  simpl.
  destruct (stampDonation_placed random amount st k Hrand Hrect ltac:(lia))
    as (grid' & cells & -> & Hx & Hy & Hroom & Hcells & _ & Hat).
  set (c := Nat.iter k _ _) in *.
  destruct (track_donation _ _ _ (hasShownInitialTotal st) (calls c) st _ _
              Hx Hy Hroom Hcells Hat) as (_ & _ & Hnew & Hframe & Hwhole).
  specialize (Hroom ltac:(lia)). specialize (Hwhole ltac:(lia)). subst cells.
  rewrite Hwhole in *.
  eexists _, (startX c), (startY c). split; [reflexivity|].
  split; [done|]. split; [lia|]. split; [done|].
  split; [apply pendingFootprint_inGrid; lia|].
  split; [intros cell Hin; by apply Hnew|]. split; [exact Hframe|]. done.
Qed.

(** A donation of 1250 on the fresh component. *)
Lemma X8_donation_is_stamped_whole_witness :
  ∃ st' x y,
    donationHandlerV2 alwaysNineTenths 50 (Some (JsFinite 1250)) initialState = Some st' ∧
    0 ≤ x ≤ 46 ∧ 0 ≤ y ∧
    y + 4 * (Z.of_nat (String.length "1250") + 1) ≤ 182 ∧
    Forall (inGrid 55 182) (pendingFootprint "1250" x y) ∧
    (∀ cell, cell ∈ pendingFootprint "1250" x y →
       cellAt (gridRef st') cell.1 cell.2 = Some PENDING) ∧
    (∀ r c, (r, c) ∉ pendingFootprint "1250" x y →
       cellAt (gridRef st') r c = cellAt (gridRef initialState) r c) ∧
    pendingCellsRef st' = pendingFootprint "1250" x y ∧
    timers st' =
      (λ cell, {| delay := 3000; stampedAs := PENDING; target := cell |})
        <$> pendingFootprint "1250" x y ∧
    immuneCellsRef st' = [] ∧
    hasShownInitialTotal st' = false.
Proof.
  apply (X8_donation_is_stamped_whole alwaysNineTenths (Some (JsFinite 1250))
           initialState 50).
  - intros k. split; [discriminate|reflexivity].
  - exact rectangular_setupGrid.
  - apply le_n.
  - vm_compute. discriminate.
Defined.

(** X10: whenever the placement loop of the later revision ends before
    its 50th attempt, the donation is stamped without touching the immune
    total: no immune cell is among the new tracked cells and every immune
    cell keeps the value it had. The handler returns after [k] attempts,
    having called [Math.random()] twice per attempt. *)
Theorem X10_donation_spares_immune_cells random (rawAmount : option JsNumber)
    (st : State) (fuel : nat) :
  rectangular 55 182 (gridRef st) → (50 ≤ fuel)%nat →
  ∃ st' new (k : nat),
    donationHandlerV2 random fuel rawAmount st = Some st' ∧
    (1 ≤ k ≤ 50)%nat ∧
    randomCalls st' = (randomCalls st + 2 * k)%nat ∧
    pendingCellsRef st' = pendingCellsRef st ++ new ∧
    ((k < 50)%nat →
     ∀ cell, cell ∈ immuneCellsRef st →
       (cell ∉ new) ∧
       cellAt (gridRef st') cell.1 cell.2 = cellAt (gridRef st) cell.1 cell.2).
Proof.
  intros Hrect Hfuel. unfold donationHandlerV2.
  set (amount := floorString rawAmount) in *.
  set (maxX := CONFIG.ROWS - 8).
  set (maxY := CONFIG.COLS - (Z.of_nat (String.length amount) * 4 + 8)).
  destruct (choosePlacementV2_returns random (immuneCellsRef st) amount maxX maxY
              (randomCalls st) fuel Hfuel) as (k & Hk & -> & _ & Hfree).
  simpl.
  set (c := Nat.iter k (sample random maxX maxY) (beforeLoop (randomCalls st))) in *.
  destruct (stampDonation_rect 55 182 amount c st Hrect ltac:(lia))
    as (grid' & cells & -> & Hcells & _ & Hat).
  eexists _, cells, k. split; [reflexivity|]. split; [done|].
  split; [apply calls_iter|]. split; [done|].
  intros Hlt [r col] Himm. specialize (Hfree Hlt). simpl in Hfree.
  assert ((r, col) ∉ cells) as Hnin.
  { intros Hin. rewrite Hcells in Hin. apply elem_of_filter_inGrid in Hin as [_ Hin].
    assert (wouldOverlapImmune (immuneCellsRef st) amount (startX c) (startY c) = true)
      as Htrue by (apply wouldOverlapImmune_spec; by exists (r, col)).
    by rewrite Hfree in Htrue. }
  split; [done|]. simpl. rewrite Hat. by rewrite decide_False.
Qed.

(** A donation of 25 on a component that shows the immune total 250,
    with a random source whose first candidate lies on the total: the
    handler takes the second candidate, after four calls of
    [Math.random()], and none of the 188 immune cells is touched. *)
Lemma X10_donation_spares_immune_cells_witness :
  length (immuneCellsRef afterTotal250) = 188%nat ∧
  startX (sample overlapThenFree 47 166 (beforeLoop 0)) = 46 ∧
  startY (sample overlapThenFree 47 166 (beforeLoop 0)) = 164 ∧
  wouldOverlapImmune (immuneCellsRef afterTotal250) "25" 46 164 = true ∧
  ∃ st' new,
    donationHandlerV2 overlapThenFree 50 (Some (JsFinite 25)) afterTotal250 = Some st' ∧
    randomCalls st' = 4%nat ∧
    pendingCellsRef st' = pendingCellsRef afterTotal250 ++ new ∧
    length new = 35%nat ∧
    ∀ cell, cell ∈ immuneCellsRef afterTotal250 →
      (cell ∉ new) ∧
      cellAt (gridRef st') cell.1 cell.2 = cellAt (gridRef afterTotal250) cell.1 cell.2.
Proof.
  split; [vm_compute; reflexivity|]. split; [vm_compute; reflexivity|].
  split; [vm_compute; reflexivity|]. split; [vm_compute; reflexivity|].
  assert (rectangular 55 182 (gridRef afterTotal250)) as Hrect.
  { destruct (setTotalAsImmune_rect 55 182 setupGrid (Some (JsFinite 250)) []
                rectangular_setupGrid (Nat.lt_0_succ 54))
      as (grid' & cells & Hcall & _ & Hrect & _).
    unfold afterTotal250, restampImmune.
    change (gridRef initialState) with setupGrid.
    change (immuneCellsRef initialState) with (@nil Cell).
    rewrite Hcall. exact Hrect. }
  destruct (X10_donation_spares_immune_cells overlapThenFree (Some (JsFinite 25))
              afterTotal250 50 Hrect (le_n 50))
    as (st' & new & k & Hcall & Hk & Hcalls & Hnew & Hspared).
  assert (randomCalls <$>
            donationHandlerV2 overlapThenFree 50 (Some (JsFinite 25)) afterTotal250
          = Some 4%nat) as Hfour by (vm_compute; reflexivity).
  assert (length ∘ pendingCellsRef <$>
            donationHandlerV2 overlapThenFree 50 (Some (JsFinite 25)) afterTotal250
          = Some 35%nat) as Hlen by (vm_compute; reflexivity).
  rewrite Hcall in Hfour, Hlen. simpl in Hfour, Hlen.
  injection Hfour as Hfour. injection Hlen as Hlen.
  assert (randomCalls afterTotal250 = 0%nat) as Hzero by (vm_compute; reflexivity).
  assert (pendingCellsRef afterTotal250 = []) as Hnone by (vm_compute; reflexivity).
  exists st', new. split; [exact Hcall|]. split; [exact Hfour|].
  split; [exact Hnew|]. split.
  - rewrite Hnew, Hnone in Hlen. exact Hlen.
  - apply Hspared. rewrite Hcalls, Hzero in Hfour. lia.
Defined.

(** ** The rendering of the immune total *)

Lemma immuneStartCol_eq digit :
  immuneStartCol digit =
  175 - digitsWidth digitsDoubledWidths 6 1 (String.list_ascii_of_string digit) 0.
Proof.
  unfold immuneStartCol. rewrite digitsWidth_shift.
  unfold symbolDoubledWidth, CONFIG.COLS. lia.
Qed.

Lemma doubledWidth_pos digit : 0 ≤ digitsWidth digitsDoubledWidths 6 1 digit 0.
Proof.
  apply digitsWidth_pos; [lia|].
  intros cd. pose proof (widthOr_doubled cd). lia.
Qed.

(** Every pixel of the rendering of the immune total lies in rows 40 to
    53 and in columns from the anchor to 180: a margin of one cell is kept
    to the right and to the bottom of the 55 by 182 grid. *)
Lemma immuneFootprint_extent digit p :
  p ∈ immuneFootprint digit →
  40 ≤ p.1 ≤ 53 ∧ immuneStartCol digit ≤ p.2 ≤ 180.
Proof.
  unfold immuneFootprint. intros Hp.
  pose proof (immuneStartCol_eq digit) as Hstart.
  pose proof (doubledWidth_pos (String.list_ascii_of_string digit)) as Hpos.
  apply elem_of_app in Hp as [Hp|Hp].
  - unfold glyphPixels in Hp. apply list_elem_of_fmap in Hp as (q & -> & Hq).
    destruct symbolDoubled_fit as [Hfit _]. rewrite Forall_forall in Hfit.
    apply Hfit in Hq. unfold CONFIG.ROWS. simpl. lia.
  - apply (digitPixels_extent digitsDoubled digitsDoubledWidths 6 1 1 10 41 (-1))
      in Hp;
      [|intros; unfold CONFIG.ROWS; lia|intros; lia|lia
       |intros; pose proof (widthOr_doubled currentDigit); lia
       |intros d g Hg; exact (proj1 (digitsDoubled_fit d g Hg))].
    unfold symbolDoubledWidth in Hp. lia.
Qed.

Lemma immuneFootprint_NoDup digit : NoDup (immuneFootprint digit).
Proof.
  unfold immuneFootprint. apply NoDup_app. split; [|split].
  - apply (glyphPixels_NoDup (CONFIG.ROWS - 14 - 1 - 1) (-1)
             (λ row, row + (CONFIG.ROWS - 14 - 1) - 1)
             (λ currentCol col, col + currentCol - 1));
      [intros; lia|intros; lia|apply symbolDoubled_fit].
  - intros p Hp Hdigits.
    apply (digitPixels_extent digitsDoubled digitsDoubledWidths 6 1 1 10 41 (-1))
      in Hdigits;
      [|intros; unfold CONFIG.ROWS; lia|intros; lia|lia
       |intros; pose proof (widthOr_doubled currentDigit); lia
       |intros d g Hg; exact (proj1 (digitsDoubled_fit d g Hg))].
    unfold glyphPixels in Hp. apply list_elem_of_fmap in Hp as (q & -> & Hq).
    destruct symbolDoubled_fit as [Hfit _]. rewrite Forall_forall in Hfit.
    apply Hfit in Hq. unfold symbolDoubledWidth in Hdigits. simpl in Hdigits. lia.
  - apply (digitPixels_NoDup digitsDoubled digitsDoubledWidths 6 1 1 10 41 (-1));
      [intros; unfold CONFIG.ROWS; lia|intros; lia|lia
      |intros; pose proof (widthOr_doubled currentDigit); lia
      |intros d g Hg; exact (proj1 (digitsDoubled_fit d g Hg))
      |intros d g Hg; exact (proj2 (digitsDoubled_fit d g Hg))].
Qed.

Lemma immuneFootprint_nonempty digit : immuneFootprint digit ≠ [].
Proof.
  unfold immuneFootprint, glyphPixels. intros H.
  apply (f_equal length) in H. rewrite length_app, length_fmap in H.
  assert (length symbolDoubled = 52%nat) as Hl by (vm_compute; reflexivity).
  simpl in H. lia.
Qed.

(** On the 55 by 182 grid the rendering of a total of at most 25
    characters is stamped whole. *)
Lemma setTotalAsImmune_whole (grid : GridType) total previous :
  rectangular 55 182 grid → (String.length (floorString total) ≤ 25)%nat →
  ∃ grid',
    setTotalAsImmune grid total previous =
      Some (grid', immuneFootprint (floorString total)) ∧
    rectangular 55 182 grid' ∧
    Forall (λ p, 40 ≤ p.1 ≤ 53 ∧ 0 ≤ p.2 ≤ 180) (immuneFootprint (floorString total)) ∧
    (∀ r c, cellAt grid' r c =
       if decide ((r, c) ∈ immuneFootprint (floorString total)) then Some IMMUNE
       else if decide ((r, c) ∈ filter (inGrid 55 182) previous) then Some DEAD
       else cellAt grid r c).
Proof.
  intros Hrect Hlen.
  assert (Forall (λ p, 40 ≤ p.1 ≤ 53 ∧ 0 ≤ p.2 ≤ 180)
            (immuneFootprint (floorString total))) as Hall.
  { apply Forall_forall. intros p Hp. apply immuneFootprint_extent in Hp.
    rewrite immuneStartCol_eq in Hp.
    pose proof (digitsWidth_le_length digitsDoubledWidths 6 1 6
      (String.list_ascii_of_string (floorString total))
      (λ cd, proj2 (widthOr_doubled cd))) as Hw.
    rewrite length_chars in Hw.
    assert (Z.of_nat (String.length (floorString total)) ≤ 25) as Hl by lia.
    lia. }
  destruct (setTotalAsImmune_rect 55 182 grid total previous Hrect ltac:(lia))
    as (grid' & cells & Hcall & Hcells & Hrect' & Hat).
  rewrite filter_inGrid_all in Hcells.
  - subst cells. by exists grid'.
  - eapply Forall_impl; [exact Hall|]. intros p Hp. unfold inGrid. simpl in Hp. lia.
Qed.

(** X15: for a total whose floor is a safe integer, [setTotalAsImmune]
    on the 55 by 182 grid stamps the whole rendering: it returns every
    pixel, none twice, all in rows 40 to 53 and columns 0 to 180, so that
    one row and one column of margin stay free at the bottom right; every
    returned cell holds IMMUNE afterwards, every cell of the previous list
    outside the rendering holds DEAD, and no other cell is changed. *)
Theorem X15_immune_total_is_stamped_whole (grid : GridType)
    (total : option JsNumber) (previous : list Cell) :
  rectangular 55 182 grid → safeInteger total →
  ∃ grid',
    setTotalAsImmune grid total previous =
      Some (grid', immuneFootprint (floorString total)) ∧
    rectangular 55 182 grid' ∧
    NoDup (immuneFootprint (floorString total)) ∧
    immuneFootprint (floorString total) ≠ [] ∧
    Forall (λ p, 40 ≤ p.1 ≤ 53 ∧ 0 ≤ p.2 ≤ 180) (immuneFootprint (floorString total)) ∧
    (∀ cell, cell ∈ immuneFootprint (floorString total) →
       cellAt grid' cell.1 cell.2 = Some IMMUNE) ∧
    (∀ cell, cell ∈ previous → inGrid 55 182 cell →
       cell ∉ immuneFootprint (floorString total) →
       cellAt grid' cell.1 cell.2 = Some DEAD) ∧
    (∀ cell, cell ∉ previous → cell ∉ immuneFootprint (floorString total) →
       cellAt grid' cell.1 cell.2 = cellAt grid cell.1 cell.2).
Proof.
  intros Hrect Hsafe. pose proof (floorString_length _ Hsafe) as Hlen.
  destruct (setTotalAsImmune_whole grid total previous Hrect ltac:(lia))
    as (grid' & Hcall & Hrect' & Hall & Hat).
  exists grid'. split; [done|]. split; [done|].
  split; [apply immuneFootprint_NoDup|]. split; [apply immuneFootprint_nonempty|].
  split; [done|]. split; [|split].
  - intros [r c] Hin. simpl. rewrite Hat. by rewrite decide_True.
  - intros [r c] Hprev Hgrid Hnin. simpl. rewrite Hat.
    rewrite decide_False by done. rewrite decide_True; [done|].
    by apply elem_of_filter_inGrid.
  - intros [r c] Hprev Hnin. simpl. rewrite Hat.
    rewrite decide_False by done. rewrite decide_False; [done|].
    intros Hf. by apply elem_of_filter_inGrid in Hf as [_ ?].
Qed.

(** The total 1234567 on the fresh grid, with a previous list of one
    cell to the left of the rendering. *)
Lemma X15_immune_total_is_stamped_whole_witness :
  ∃ grid',
    setTotalAsImmune setupGrid (Some (JsFinite 1234567)) [(47, 100)] =
      Some (grid', immuneFootprint "1234567") ∧
    rectangular 55 182 grid' ∧
    NoDup (immuneFootprint "1234567") ∧
    immuneFootprint "1234567" ≠ [] ∧
    Forall (λ p, 40 ≤ p.1 ≤ 53 ∧ 0 ≤ p.2 ≤ 180) (immuneFootprint "1234567") ∧
    (∀ cell, cell ∈ immuneFootprint "1234567" → cellAt grid' cell.1 cell.2 = Some IMMUNE) ∧
    (∀ cell, cell ∈ [(47, 100)] → inGrid 55 182 cell →
       cell ∉ immuneFootprint "1234567" → cellAt grid' cell.1 cell.2 = Some DEAD) ∧
    (∀ cell, cell ∉ [(47, 100)] → cell ∉ immuneFootprint "1234567" →
       cellAt grid' cell.1 cell.2 = cellAt setupGrid cell.1 cell.2).
Proof.
  apply (X15_immune_total_is_stamped_whole setupGrid (Some (JsFinite 1234567))
           [(47, 100)] rectangular_setupGrid).
  vm_compute. discriminate.
Defined.

(** ** Stamping the same total again *)

Lemma cellAt_of_nat (grid : GridType) i j :
  cellAt grid (Z.of_nat i) (Z.of_nat j) = getCell grid i j.
Proof. unfold cellAt. rewrite decide_True by lia. by rewrite !Nat2Z.id. Qed.

Lemma rectangular_cellAt_ext rows cols (g1 g2 : GridType) :
  rectangular rows cols g1 → rectangular rows cols g2 →
  (∀ r c, cellAt g1 r c = cellAt g2 r c) → g1 = g2.
Proof.
  intros H1 H2 Hcells. apply (rectangular_ext rows cols); [done|done|].
  intros i j. rewrite <- !cellAt_of_nat. apply Hcells.
Qed.

(** X16: stamping the immune total again with the same value and with
    the list the first call returned changes nothing: the second call
    returns the same list and leaves the grid as the first call left it. *)
Theorem X16_setTotalAsImmune_again rows cols (grid : GridType)
    (total : option JsNumber) (previous : list Cell) :
  rectangular rows cols grid → (0 < rows)%nat →
  ∃ grid' cells,
    setTotalAsImmune grid total previous = Some (grid', cells) ∧
    setTotalAsImmune grid' total cells = Some (grid', cells).
Proof.
  intros Hrect Hrows.
  destruct (setTotalAsImmune_rect rows cols grid total previous Hrect Hrows)
    as (grid' & cells & Hcall & Hcells & Hrect' & Hat).
  destruct (setTotalAsImmune_rect rows cols grid' total cells Hrect' Hrows)
    as (grid'' & cells'' & Hcall2 & Hcells2 & Hrect'' & Hat2).
  exists grid', cells. split; [done|]. rewrite Hcall2.
  assert (cells'' = cells) as -> by congruence.
  assert (grid'' = grid') as ->; [|done].
  apply (rectangular_cellAt_ext rows cols); [done|done|].
  intros r c. rewrite Hat2. case_decide as Hin.
  - rewrite Hat. by rewrite decide_True.
  - rewrite decide_False; [done|]. intros Hf.
    by apply elem_of_filter_inGrid in Hf as [_ ?].
Qed.

Lemma X16_setTotalAsImmune_again_witness :
  ∃ grid' cells,
    setTotalAsImmune setupGrid (Some (JsFinite 250)) [(3, 3)] = Some (grid', cells) ∧
    setTotalAsImmune grid' (Some (JsFinite 250)) cells = Some (grid', cells).
Proof.
  apply (X16_setTotalAsImmune_again 55 182 setupGrid (Some (JsFinite 250)) [(3, 3)]
           rectangular_setupGrid).
  apply Nat.lt_0_succ.
Defined.

(** ** The initial total *)

Lemma setLargeDigitsAsInitial_stampAll (grid : GridType) digit cells :
  setLargeDigitsAsInitial grid digit cells =
  stampAll INITIAL (initialFootprint digit) (grid, cells).
Proof.
  unfold setLargeDigitsAsInitial, initialFootprint, initialStartCol, initialStartRow.
  rewrite stampAll_app, stampGlyph_stampAll.
  destruct (stampAll INITIAL _ (grid, cells)) as [st|]; simpl; [|done].
  apply stampDigits_stampAll.
Qed.

Lemma setLargeDigitsAsInitial_rect rows cols (grid : GridType) digit tracked0 :
  rectangular rows cols grid → (0 < rows)%nat →
  ∃ grid' cells,
    setLargeDigitsAsInitial grid digit tracked0 = Some (grid', tracked0 ++ cells) ∧
    cells = filter (inGrid rows cols) (initialFootprint digit) ∧
    rectangular rows cols grid' ∧
    (∀ r c, cellAt grid' r c =
       if decide ((r, c) ∈ cells) then Some INITIAL else cellAt grid r c).
Proof.
  intros Hrect Hrows.
  rewrite setLargeDigitsAsInitial_stampAll, (stampAll_rect _ _ _ _ _ _ Hrect Hrows).
  do 2 eexists. split; [reflexivity|]. split; [reflexivity|].
  split; [by apply rectangular_paint|].
  intros r c. apply (cellAt_paint _ _ _ _ _ _ _ Hrect (Forall_filter_inGrid _ _ _)).
Qed.

Lemma truthy_not_absentOrZero raw : ¬ absentOrZero raw → truthy raw = true.
Proof.
  destruct raw as [[| |q]|]; simpl; try done; try (intros H; by destruct H).
  intros Hq. destruct (Qeq_bool q 0) eqn:Heq; [|done].
  by apply Qeq_bool_iff in Heq.
Qed.

Lemma negative_not_absentOrZero (q : Q) : Qlt q 0 → ¬ absentOrZero (Some (JsFinite q)).
Proof. simpl. intros Hq Heq. by apply Qlt_not_eq in Hq. Qed.

Lemma widthOr_large currentDigit : 6 ≤ widthOr digitsLargeWidths currentDigit 7 ≤ 7.
Proof.
  unfold widthOr. destruct currentDigit as [d|]; simpl; [|lia].
  destruct (digitsLargeWidths !! d) as [w|] eqn:Hw; [|lia].
  apply elem_of_list_to_map_2 in Hw. rewrite !elem_of_cons, elem_of_nil in Hw.
  repeat (destruct Hw as [Hw|Hw]; [injection Hw as _ ->; simpl; lia|]). done.
Qed.

(** The large glyphs lie in 10 rows and 10 columns, the large currency
    symbol in 12 rows and in columns 2 to 9. *)
Lemma digitsLarge_fit d glyph :
  digitsLarge !! d = Some glyph → Forall (λ p, 1 ≤ p.1 ≤ 10 ∧ 1 ≤ p.2 ≤ 10) glyph.
Proof.
  intros Hd. apply elem_of_list_to_map_2 in Hd.
  rewrite !elem_of_cons, elem_of_nil in Hd.
  repeat (destruct Hd as [Hd|Hd];
    [injection Hd as -> ->;
     repeat (apply Forall_cons; split; [simpl; lia|]); apply Forall_nil_2|]).
  done.
Qed.

Lemma symbolsLarge0_fit : Forall (λ p, 1 ≤ p.1 ≤ 12 ∧ 2 ≤ p.2 ≤ 9) symbolsLarge0.
Proof.
  match goal with |- Forall _ ?l => let l' := eval vm_compute in l in change l with l' end.
  repeat (apply Forall_cons; split; [simpl; lia|]). apply Forall_nil_2.
Qed.

(** A large digit reaches at most three columns beyond the place that its
    declared width and the spacing give it. *)
Lemma initialDigits_extent (rowOf : Z → Z) (rowOffset : Z) digit :
  (∀ row, rowOf row = row + rowOffset) →
  ∀ currentCol p,
  p ∈ digitPixels digitsLarge digitsLargeWidths 7 1
        rowOf (λ currentCol col, col + currentCol) digit currentCol →
  1 + rowOffset ≤ p.1 ≤ 10 + rowOffset ∧
  currentCol + 1 ≤ p.2 ≤ currentCol + digitsWidth digitsLargeWidths 7 1 digit 0 + 3.
Proof.
  intros HrowOf.
  induction digit as [|ch digit IH]; intros currentCol p Hp; simpl in Hp.
  - by apply elem_of_nil in Hp.
  - rewrite digitsWidth_cons.
    pose proof (widthOr_large (NumberOfChar ch)) as Hw.
    assert (0 ≤ digitsWidth digitsLargeWidths 7 1 digit 0) as Hrest.
    { apply digitsWidth_pos; [lia|]. intros cd. pose proof (widthOr_large cd). lia. }
    apply elem_of_app in Hp as [Hp|Hp].
    + destruct (glyphOf digitsLarge (NumberOfChar ch)) as [glyph|] eqn:Hg; simpl in Hp;
        [|by apply elem_of_nil in Hp].
      unfold glyphPixels in Hp. apply list_elem_of_fmap in Hp as (q & -> & Hq).
      unfold glyphOf in Hg. destruct (NumberOfChar ch) as [d|]; [|done]. simpl in Hg.
      pose proof (digitsLarge_fit d glyph Hg) as Hfit. rewrite Forall_forall in Hfit.
      apply Hfit in Hq. simpl. rewrite HrowOf. lia.
    + apply IH in Hp. lia.
Qed.

(** The centred rendering of a string of at most 17 characters lies in
    the 55 by 182 grid. *)
Lemma initialFootprint_inGrid digit :
  (String.length digit ≤ 17)%nat → Forall (inGrid 55 182) (initialFootprint digit).
Proof.
  intros Hlen. apply Forall_forall. intros p Hp.
  assert (0 ≤ digitsWidth digitsLargeWidths 7 1 (String.list_ascii_of_string digit) 0
          ≤ 136) as Hw.
  { split.
    - apply digitsWidth_pos; [lia|]. intros cd. pose proof (widthOr_large cd). lia.
    - pose proof (digitsWidth_le_length digitsLargeWidths 7 1 7
        (String.list_ascii_of_string digit) (λ cd, proj2 (widthOr_large cd))) as H.
      rewrite length_chars in H. lia. }
  assert (2 * initialStartCol digit ≤
            173 - digitsWidth digitsLargeWidths 7 1 (String.list_ascii_of_string digit) 0
          ∧ 18 ≤ initialStartCol digit) as [Hs1 Hs2].
  { unfold initialStartCol. rewrite digitsWidth_shift.
    unfold CONFIG.COLS, symbolsLargeWidth. split.
    - etrans; [apply Z.mul_div_le; lia|]. lia.
    - apply Z.div_le_lower_bound; lia. }
  unfold initialFootprint in Hp. apply elem_of_app in Hp as [Hp|Hp].
  - unfold glyphPixels in Hp. apply list_elem_of_fmap in Hp as (q & -> & Hq).
    pose proof symbolsLarge0_fit as Hfit. rewrite Forall_forall in Hfit.
    apply Hfit in Hq. unfold inGrid, initialStartRow, CONFIG.ROWS, symbolsLargeHeight.
    change ((55 - 12) `div` 2) with 21. simpl. lia.
  - apply (initialDigits_extent _ 20) in Hp.
    + unfold symbolsLargeWidth in Hp. unfold inGrid. lia.
    + intros row. unfold initialStartRow, CONFIG.ROWS, symbolsLargeHeight.
      change ((55 - 12) `div` 2) with 21. change ((12 - 12) `div` 2) with 0. lia.
Qed.

Lemma initialFootprint_nonempty digit : initialFootprint digit ≠ [].
Proof.
  unfold initialFootprint, glyphPixels. intros H.
  apply (f_equal length) in H. rewrite length_app, length_fmap in H.
  assert (length symbolsLarge0 = 42%nat) as Hl by (vm_compute; reflexivity).
  simpl in H. lia.
Qed.

(** The initial reveal of a total of at most 17 characters. *)
Lemma initialTotalEffect_whole (raw : option JsNumber) (st : State) :
  truthy raw = true → hasShownInitialTotal st = false →
  rectangular 55 182 (gridRef st) →
  (String.length (floorString raw) ≤ 17)%nat →
  ∃ grid',
    initialTotalEffect raw st =
      Some (track CONFIG.INITIAL_TOTAL_DURATION INITIAL grid'
              (initialFootprint (floorString raw)) true (randomCalls st) st) ∧
    Forall (inGrid 55 182) (initialFootprint (floorString raw)) ∧
    rectangular 55 182 grid' ∧
    (∀ r c, cellAt grid' r c =
       if decide ((r, c) ∈ initialFootprint (floorString raw)) then Some INITIAL
       else cellAt (gridRef st) r c).
Proof.
  intros Hraw Hflag Hrect Hlen. unfold initialTotalEffect. rewrite Hraw, Hflag.
  destruct (setLargeDigitsAsInitial_rect 55 182 (gridRef st) (floorString raw) []
              Hrect ltac:(lia)) as (grid' & cells & -> & Hcells & Hrect' & Hat).
  pose proof (initialFootprint_inGrid _ Hlen) as Hall.
  rewrite (filter_inGrid_all _ _ _ Hall) in Hcells. subst cells.
  exists grid'. simpl. done.
Qed.

(** X14: on a rectangular grid with at least one row,
    [setLargeDigitsAsInitial] returns normally for any string; it tracks
    the pixels of the centred rendering that lie inside the grid, each of
    which holds INITIAL afterwards; every other cell is untouched and the
    grid keeps its shape. *)
Theorem X14_setLargeDigitsAsInitial_clips rows cols (grid : GridType) (digit : string) :
  rectangular rows cols grid → (0 < rows)%nat →
  ∃ grid' cells,
    setLargeDigitsAsInitial grid digit [] = Some (grid', cells) ∧
    cells = filter (inGrid rows cols) (initialFootprint digit) ∧
    rectangular rows cols grid' ∧
    (∀ cell, cell ∈ cells →
       inGrid rows cols cell ∧ cellAt grid' cell.1 cell.2 = Some INITIAL) ∧
    (∀ r c, (r, c) ∉ cells → cellAt grid' r c = cellAt grid r c).
Proof.
  intros Hrect Hrows.
  destruct (setLargeDigitsAsInitial_rect rows cols grid digit [] Hrect Hrows)
    as (grid' & cells & Hcall & Hcells & Hrect' & Hat).
  exists grid', cells. split; [done|]. split; [done|]. split; [done|]. split.
  - intros [r c] Hin. split.
    + rewrite Hcells in Hin. by apply elem_of_filter_inGrid in Hin as [? _].
    + simpl. rewrite Hat. by rewrite decide_True.
  - intros r c Hnin. rewrite Hat. by rewrite decide_False.
Qed.

(** The string "7" on a grid of 30 rows and 95 columns, which cuts
    through the rendering: 39 of its 94 pixels lie in the grid and are
    stamped. *)
Lemma X14_setLargeDigitsAsInitial_clips_witness :
  length (initialFootprint "7") = 94%nat ∧
  ∃ grid' cells,
    setLargeDigitsAsInitial (replicate 30 (replicate 95 DEAD)) "7" []
      = Some (grid', cells) ∧
    cells = filter (inGrid 30 95) (initialFootprint "7") ∧
    length cells = 39%nat ∧
    rectangular 30 95 grid' ∧
    (∀ cell, cell ∈ cells →
       inGrid 30 95 cell ∧ cellAt grid' cell.1 cell.2 = Some INITIAL) ∧
    (∀ r c, (r, c) ∉ cells →
       cellAt grid' r c = cellAt (replicate 30 (replicate 95 DEAD)) r c).
Proof.
  split; [vm_compute; reflexivity|].
  destruct (X14_setLargeDigitsAsInitial_clips 30 95
              (replicate 30 (replicate 95 DEAD)) "7")
    as (grid' & cells & H1 & H2 & H3 & H4 & H5).
  - split; [apply length_replicate|]. apply Forall_replicate, length_replicate.
  - lia.
  - exists grid', cells. split; [exact H1|]. split; [exact H2|].
    split; [rewrite H2; vm_compute; reflexivity|].
    split; [exact H3|]. split; [exact H4|exact H5].
Defined.

(** X13: the initial total is revealed once.  For a total that is
    present and not zero and whose floor is a safe integer, on a component
    that has not shown one, the effect returns, sets the flag, stamps the
    whole centred rendering as INITIAL, tracks its cells after those
    already tracked and registers for each a timer of 4000 ms that guards on
    INITIAL; once the flag is set, every later total, whatever its value,
    leaves the state as it is. *)
Theorem X13_initial_total_is_revealed_once (raw : option JsNumber) (st : State) :
  rectangular 55 182 (gridRef st) →
  truthy raw = true → safeInteger raw → hasShownInitialTotal st = false →
  ∃ st' cells,
    initialTotalEffect raw st = Some st' ∧
    hasShownInitialTotal st' = true ∧
    cells = filter (inGrid 55 182) (initialFootprint (floorString raw)) ∧
    cells = initialFootprint (floorString raw) ∧
    cells ≠ [] ∧
    pendingCellsRef st' = pendingCellsRef st ++ cells ∧
    timers st' = timers st ++ timersFor 4000 INITIAL cells ∧
    (∀ cell, cell ∈ cells → cellAt (gridRef st') cell.1 cell.2 = Some INITIAL) ∧
    (∀ r c, (r, c) ∉ cells → cellAt (gridRef st') r c = cellAt (gridRef st) r c) ∧
    (∀ raw2, initialTotalEffect raw2 st' = Some st').
Proof.
  intros Hrect Hraw Hsafe Hflag.
  destruct (initialTotalEffect_whole raw st Hraw Hflag Hrect
              (floorString_length _ Hsafe)) as (grid' & -> & Hall & _ & Hat).
  do 2 eexists. split; [reflexivity|]. simpl. split; [done|].
  split; [symmetry; by apply filter_inGrid_all|]. split; [reflexivity|].
  split; [apply initialFootprint_nonempty|]. split; [done|]. split; [done|].
  split; [|split].
  - intros [r c] Hin. simpl. rewrite Hat. by rewrite decide_True.
  - intros r c Hnin. rewrite Hat. by rewrite decide_False.
  - intros raw2. unfold initialTotalEffect. simpl. by rewrite andb_false_r.
Qed.

(** A first total of 1500 on the fresh component. *)
Lemma X13_initial_total_is_revealed_once_witness :
  ∃ st' cells,
    initialTotalEffect (Some (JsFinite 1500)) initialState = Some st' ∧
    hasShownInitialTotal st' = true ∧
    cells = filter (inGrid 55 182) (initialFootprint "1500") ∧
    cells = initialFootprint "1500" ∧
    cells ≠ [] ∧
    pendingCellsRef st' = cells ∧
    timers st' = timersFor 4000 INITIAL cells ∧
    (∀ cell, cell ∈ cells → cellAt (gridRef st') cell.1 cell.2 = Some INITIAL) ∧
    (∀ r c, (r, c) ∉ cells →
       cellAt (gridRef st') r c = cellAt (gridRef initialState) r c) ∧
    (∀ raw2, initialTotalEffect raw2 st' = Some st').
Proof.
  apply (X13_initial_total_is_revealed_once (Some (JsFinite 1500)) initialState
           rectangular_setupGrid eq_refl).
  - vm_compute. discriminate.
  - reflexivity.
Defined.

(** ** Events without a positive amount *)

Lemma floorString_floorOrZero (x : JsNumber) :
  floorString (Some (floorOrZero (Some x))) = floorString (Some x).
Proof.
  destruct x as [| |q]; [done|done|]. unfold floorOrZero, floorString.
  by rewrite Qfloor_Z.
Qed.

Lemma safeInteger_floorOrZero (x : JsNumber) :
  safeInteger (Some x) → safeInteger (Some (floorOrZero (Some x))).
Proof.
  destruct x as [| |q]; [done|done|]. unfold floorOrZero, safeInteger.
  by rewrite Qfloor_Z.
Qed.

(** A value that is [NaN] or negative differs from the target 0 of a
    freshly mounted component. *)
Lemma strictNotEqual_zero (x : JsNumber) :
  x = JsNaN ∨ (∃ q, x = JsFinite q ∧ Qlt q 0) →
  strictNotEqual (floorOrZero (Some x)) (JsFinite 0) = true.
Proof.
  intros [->|(q & -> & Hq)]; [done|]. simpl.
  destruct (Qeq_bool (inject_Z (Qfloor q)) 0) eqn:Heq; [|done].
  apply Qeq_bool_iff in Heq.
  pose proof (Qfloor_le q) as Hfloor.
  assert (Qlt (inject_Z (Qfloor q)) 0) as Hneg by (by eapply Qle_lt_trans).
  by apply Qlt_not_eq in Hneg.
Qed.

(** The direct stamp of the total effect on a freshly mounted component. *)
Lemma immuneTotalEffect_direct (x : JsNumber) (st : State) :
  strictNotEqual (floorOrZero (Some x)) (JsFinite 0) = true →
  safeInteger (Some x) → rectangular 55 182 (gridRef st) →
  ∃ st',
    immuneTotalEffect (Some x) mountedRefs st =
      Some (StampedDirectly
              {| lastDisplayedTotal := floorOrZero (Some x);
                 targetTotal := floorOrZero (Some x) |} st') ∧
    immuneCellsRef st' = immuneFootprint (floorString (Some x)) ∧
    (∀ cell, cell ∈ immuneCellsRef st' →
       inGrid 55 182 cell ∧ cellAt (gridRef st') cell.1 cell.2 = Some IMMUNE).
Proof.
  intros Hne Hsafe Hrect. unfold immuneTotalEffect.
  change (targetTotal mountedRefs) with (JsFinite 0). rewrite Hne.
  change (negb (strictNotEqual (lastDisplayedTotal mountedRefs) (JsFinite (-1 # 1))))
    with true. cbv iota. unfold restampImmune.
  pose proof (floorString_length _ (safeInteger_floorOrZero x Hsafe)) as Hlen.
  destruct (setTotalAsImmune_whole (gridRef st) (Some (floorOrZero (Some x)))
              (immuneCellsRef st) Hrect ltac:(lia))
    as (grid' & -> & _ & Hall & Hat).
  rewrite floorString_floorOrZero in Hall, Hat |- *.
  simpl. eexists. split; [reflexivity|]. simpl. split; [done|].
  intros [r c] Hin. split.
  - rewrite Forall_forall in Hall. apply Hall in Hin. unfold inGrid. simpl in *. lia.
  - simpl. rewrite Hat. by rewrite decide_True.
Qed.

(** C6, as amended: no handler skips a value for being non-positive.
    The donation handler of either revision has no test on the amount: for
    every raw amount, zero, negative, NaN and absent ones included, it
    stamps the 13 pixels of the currency symbol as PENDING and tracks them
    (the later revision whenever it is given 50 passes, the earlier one
    whenever its loop ends), and when the floor of the amount is a safe
    integer the new tracked cells are exactly the pixels of the symbol
    followed by those of the digits of [String(Math.floor(rawAmount))].
    The initial reveal is skipped for the falsy totals, absent, NaN or
    zero, the state staying as it is, and for no other: a negative total is
    revealed like a positive one, its whole rendering stamped INITIAL and
    tracked.  The immune re-stamp of the later revision, on a freshly
    mounted component, is skipped for an absent total and for a total whose
    floor is 0, while a NaN or negative total is stamped IMMUNE directly;
    and once a total is displayed, any floored total that differs from the
    target, zero included, starts a count-up toward it. *)
Theorem C6_only_absent_or_zero_total_is_skipped :
  length symbols0 = 13%nat ∧
  (∀ random rawAmount st fuel,
     (∀ k, Qle 0 (random k) ∧ Qlt (random k) 1) →
     rectangular 55 182 (gridRef st) → (50 ≤ fuel)%nat →
     ∃ st' x y new,
       donationHandlerV2 random fuel rawAmount st = Some st' ∧
       pendingCellsRef st' = pendingCellsRef st ++ new ∧
       (∀ cell, cell ∈ glyphPixels (λ row, row + x - 1) (λ col, col + y) symbols0 →
          cell ∈ new) ∧
       (∀ cell, cell ∈ new →
          inGrid 55 182 cell ∧ cellAt (gridRef st') cell.1 cell.2 = Some PENDING) ∧
       (safeInteger rawAmount → new = pendingFootprint (floorString rawAmount) x y)) ∧
  (∀ random rawAmount st (k fuel : nat),
     (∀ k, Qle 0 (random k) ∧ Qlt (random k) 1) →
     rectangular 55 182 (gridRef st) → (1 ≤ k ≤ fuel)%nat →
     let maxX := CONFIG.ROWS - 8 in
     let maxY := CONFIG.COLS -
       (Z.of_nat (String.length (floorString rawAmount)) * 4 + 8) in
     (∀ j, (1 ≤ j < k)%nat →
        retryV1 (Nat.iter j (sample random maxX maxY) (beforeLoop (randomCalls st)))
        = true) →
     retryV1 (Nat.iter k (sample random maxX maxY) (beforeLoop (randomCalls st)))
       = false →
     ∃ st' x y new,
       donationHandlerV1 random fuel rawAmount st = Some st' ∧
       pendingCellsRef st' = pendingCellsRef st ++ new ∧
       (∀ cell, cell ∈ glyphPixels (λ row, row + x - 1) (λ col, col + y) symbols0 →
          cell ∈ new) ∧
       (∀ cell, cell ∈ new →
          inGrid 55 182 cell ∧ cellAt (gridRef st') cell.1 cell.2 = Some PENDING) ∧
       (safeInteger rawAmount → new = pendingFootprint (floorString rawAmount) x y)) ∧
  (∀ raw st, absentOrZero raw → initialTotalEffect raw st = Some st) ∧
  (∀ raw st,
     ¬ absentOrZero raw → safeInteger raw →
     hasShownInitialTotal st = false → rectangular 55 182 (gridRef st) →
     ∃ st',
       initialTotalEffect raw st = Some st' ∧
       pendingCellsRef st' = pendingCellsRef st ++ initialFootprint (floorString raw) ∧
       initialFootprint (floorString raw) ≠ [] ∧
       ∀ cell, cell ∈ initialFootprint (floorString raw) →
         inGrid 55 182 cell ∧ cellAt (gridRef st') cell.1 cell.2 = Some INITIAL) ∧
  (∀ q, Qlt q 0 → ¬ absentOrZero (Some (JsFinite q))) ∧
  (∀ raw st,
     raw = None ∨ (∃ q, raw = Some (JsFinite q) ∧ Qfloor q = 0) →
     immuneTotalEffect raw mountedRefs st = Some Unchanged) ∧
  (∀ x st,
     x = JsNaN ∨ (∃ q, x = JsFinite q ∧ Qlt q 0) →
     safeInteger (Some x) → rectangular 55 182 (gridRef st) →
     ∃ refs st',
       immuneTotalEffect (Some x) mountedRefs st = Some (StampedDirectly refs st') ∧
       immuneCellsRef st' = immuneFootprint (floorString (Some x)) ∧
       immuneCellsRef st' ≠ [] ∧
       ∀ cell, cell ∈ immuneCellsRef st' →
         inGrid 55 182 cell ∧ cellAt (gridRef st') cell.1 cell.2 = Some IMMUNE) ∧
  (∀ raw refs st,
     strictNotEqual (floorOrZero raw) (targetTotal refs) = true →
     strictNotEqual (lastDisplayedTotal refs) (JsFinite (-1 # 1)) = true →
     ∃ refs',
       immuneTotalEffect raw refs st =
         Some (CountUp refs' (lastDisplayedTotal refs) (floorOrZero raw)) ∧
       targetTotal refs' = floorOrZero raw).
Proof.
  split; [reflexivity|]. split; [|split; [|split; [|split; [|split; [|split; [|split]]]]]].
  - intros random rawAmount st fuel Hrand Hrect Hfuel. unfold donationHandlerV2.
    destruct (choosePlacementV2_returns random (immuneCellsRef st)
                (floorString rawAmount) (CONFIG.ROWS - 8)
                (CONFIG.COLS - (Z.of_nat (String.length (floorString rawAmount)) * 4 + 8))
                (randomCalls st) fuel Hfuel) as (k & Hk & -> & _).
    simpl.
    destruct (stampDonation_placed random (floorString rawAmount) st k Hrand Hrect
                ltac:(lia)) as (grid' & cells & -> & Hx & Hy & Hroom & Hcells & _ & Hat).
    set (c := Nat.iter k _ _) in *.
    destruct (track_donation _ _ _ (hasShownInitialTotal st) (calls c) st _ _
                Hx Hy Hroom Hcells Hat) as (Hp & Hsym & Hnew & _ & Hwhole).
    eexists _, _, _, cells. split; [reflexivity|]. split; [exact Hp|].
    split; [exact Hsym|]. split; [exact Hnew|].
    intros Hsafe. apply Hwhole. pose proof (floorString_length _ Hsafe). lia.
  - intros random rawAmount st k fuel Hrand Hrect Hk maxX maxY Hbefore Hstop.
    unfold donationHandlerV1. fold maxX maxY. unfold choosePlacementV1.
    rewrite (doWhile_first _ _ k) by done. subst maxX maxY. simpl.
    destruct (stampDonation_placed random (floorString rawAmount) st k Hrand Hrect
                ltac:(lia)) as (grid' & cells & -> & Hx & Hy & Hroom & Hcells & _ & Hat).
    set (c := Nat.iter k _ _) in *.
    destruct (track_donation _ _ _ (hasShownInitialTotal st) (calls c) st _ _
                Hx Hy Hroom Hcells Hat) as (Hp & Hsym & Hnew & _ & Hwhole).
    eexists _, _, _, cells. split; [reflexivity|]. split; [exact Hp|].
    split; [exact Hsym|]. split; [exact Hnew|].
    intros Hsafe. apply Hwhole. pose proof (floorString_length _ Hsafe). lia.
  - intros raw st Hraw. unfold initialTotalEffect.
    by rewrite (truthy_absentOrZero _ Hraw).
  - intros raw st Hraw Hsafe Hflag Hrect.
    destruct (initialTotalEffect_whole raw st (truthy_not_absentOrZero _ Hraw) Hflag
                Hrect (floorString_length _ Hsafe)) as (grid' & -> & Hall & _ & Hat).
    eexists. split; [reflexivity|]. split; [done|].
    split; [apply initialFootprint_nonempty|].
    intros [r c] Hin. split.
    + rewrite Forall_forall in Hall. by apply Hall.
    + simpl. rewrite Hat. by rewrite decide_True.
  - apply negative_not_absentOrZero.
  - intros raw st [->|(q & -> & Hq)]; unfold immuneTotalEffect, floorOrZero;
      [done|]. by rewrite Hq.
  - intros x st Hx Hsafe Hrect.
    destruct (immuneTotalEffect_direct x st (strictNotEqual_zero x Hx) Hsafe Hrect)
      as (st' & Hcall & Hcells & Hat).
    eexists _, st'. split; [exact Hcall|]. split; [exact Hcells|].
    split; [rewrite Hcells; apply immuneFootprint_nonempty|exact Hat].
  - intros raw refs st Hnew Hshown. unfold immuneTotalEffect.
    rewrite Hnew, Hshown. simpl. by eexists.
Qed.

(** A donation of 0 on the fresh component, a total of -5 and a total of
    NaN: each is stamped. *)
Lemma C6_only_absent_or_zero_total_is_skipped_witness :
  (∃ st' x y new,
     donationHandlerV2 alwaysZero 50 (Some (JsFinite 0)) initialState = Some st' ∧
     pendingCellsRef st' = new ∧
     (∀ cell, cell ∈ glyphPixels (λ row, row + x - 1) (λ col, col + y) symbols0 →
        cell ∈ new) ∧
     (∀ cell, cell ∈ new →
        inGrid 55 182 cell ∧ cellAt (gridRef st') cell.1 cell.2 = Some PENDING) ∧
     new = pendingFootprint "0" x y) ∧
  initialTotalEffect (Some (JsFinite 0)) initialState = Some initialState ∧
  (∃ st',
     initialTotalEffect (Some (JsFinite (-5 # 1))) initialState = Some st' ∧
     pendingCellsRef st' = initialFootprint "-5" ∧
     initialFootprint "-5" ≠ [] ∧
     ∀ cell, cell ∈ initialFootprint "-5" →
       inGrid 55 182 cell ∧ cellAt (gridRef st') cell.1 cell.2 = Some INITIAL) ∧
  (∃ refs st',
     immuneTotalEffect (Some JsNaN) mountedRefs initialState =
       Some (StampedDirectly refs st') ∧
     immuneCellsRef st' = immuneFootprint "NaN" ∧
     immuneCellsRef st' ≠ [] ∧
     ∀ cell, cell ∈ immuneCellsRef st' →
       inGrid 55 182 cell ∧ cellAt (gridRef st') cell.1 cell.2 = Some IMMUNE).
Proof.
  destruct C6_only_absent_or_zero_total_is_skipped
    as (_ & Hdonation & _ & Hskip & Hreveal & Hnegative & _ & Hdirect & _).
  split; [|split; [|split]].
  - destruct (Hdonation alwaysZero (Some (JsFinite 0)) initialState 50%nat)
      as (st' & x & y & new & H1 & H2 & H3 & H4 & H5).
    + intros k. split; [discriminate|reflexivity].
    + exact rectangular_setupGrid.
    + apply le_n.
    + exists st', x, y, new. split; [exact H1|]. split; [exact H2|].
      split; [exact H3|]. split; [exact H4|].
      apply H5. vm_compute. discriminate.
  - apply Hskip. reflexivity.
  - apply (Hreveal (Some (JsFinite (-5 # 1))) initialState).
    + apply Hnegative. reflexivity.
    + vm_compute. discriminate.
    + reflexivity.
    + exact rectangular_setupGrid.
  - apply (Hdirect JsNaN initialState).
    + by left.
    + exact I.
    + exact rectangular_setupGrid.
Defined.

(** C6 as stated fails: a donation whose raw amount is zero is stamped by
    the handler of either revision (the cell [(0, 2)] of the fresh grid
    becomes PENDING and 25 cells are tracked), a donation without an amount
    gets the 13 cells of the currency symbol, and a negative total is
    revealed like any other. *)
Lemma C6_counterexample_zero_donation_is_stamped :
  (∃ st', donationHandlerV2 alwaysZero 50 (Some (JsFinite 0)) initialState = Some st' ∧
          cellAt (gridRef initialState) 0 2 = Some DEAD ∧
          cellAt (gridRef st') 0 2 = Some PENDING ∧
          length (pendingCellsRef st') = 25%nat) ∧
  (∃ st', donationHandlerV1 alwaysZero 50 (Some (JsFinite 0)) initialState = Some st' ∧
          cellAt (gridRef st') 0 2 = Some PENDING ∧
          length (pendingCellsRef st') = 25%nat) ∧
  (∃ st', donationHandlerV2 alwaysZero 50 None initialState = Some st' ∧
          cellAt (gridRef st') 0 2 = Some PENDING ∧
          length (pendingCellsRef st') = 13%nat) ∧
  (∃ st', initialTotalEffect (Some (JsFinite (-5 # 1))) initialState = Some st' ∧
          length (pendingCellsRef st') = 110%nat).
Proof.
  repeat split;
    (eexists; split; [vm_compute; reflexivity|]; repeat split; reflexivity).
Qed.

(** ** Timers *)

(** What one callback does to a state whose grid is rectangular, for a
    cell of the grid. *)
Lemma timeoutCallback_rect rows cols stamped (cell : Cell) (st : State) :
  rectangular rows cols (gridRef st) → inGrid rows cols cell →
  ∃ st',
    timeoutCallback stamped cell st = Some st' ∧
    rectangular rows cols (gridRef st') ∧
    (∀ r c, cellAt (gridRef st') r c =
       if decide ((r, c) = cell ∧ cellAt (gridRef st) r c = Some stamped)
       then Some ALIVE else cellAt (gridRef st) r c) ∧
    pendingCellsRef st' = filter (λ c : Cell, c ≠ cell) (pendingCellsRef st) ∧
    timers st' = timers st ∧
    immuneCellsRef st' = immuneCellsRef st ∧
    hasShownInitialTotal st' = hasShownInitialTotal st.
Proof.
  intros Hrect Hin. destruct cell as [r0 c0]. pose proof Hin as [Hr Hc].
  simpl in Hr, Hc. unfold timeoutCallback. simpl.
  destruct (lookup_lt_is_Some_2 (gridRef st) (Z.to_nat r0)) as [row Hrow];
    [destruct Hrect; lia|].
  rewrite (bool_decide_eq_true_2 (0 ≤ r0)), (bool_decide_eq_true_2 (0 ≤ c0)) by lia.
  rewrite Hrow. simpl.
  assert (cellAt (gridRef st) r0 c0 = row !! Z.to_nat c0) as Hval.
  { unfold cellAt, getCell. rewrite decide_True by lia. by rewrite Hrow. }
  rewrite <- Hval. eexists. split; [reflexivity|]. simpl.
  destruct (cellAt_inGrid _ _ _ _ Hrect Hin) as [s Hs]. simpl in Hs.
  split; [|split; [|split; [|done]]].
  - case_bool_decide; [by apply rectangular_setCell|done].
  - intros r c. case_bool_decide as Heq.
    + rewrite cellAt_setCell by lia.
      destruct (decide (r = r0 ∧ c = c0)) as [[-> ->]|Hne].
      * rewrite decide_True by done. by rewrite Hs.
      * rewrite decide_False; [done|]. intros [[= -> ->] _]. by apply Hne.
    + rewrite decide_False; [done|]. intros [[= -> ->] ?]. by apply Heq.
  - apply list_filter_iff. intros [r c]. simpl.
    split; intros Hne.
    + intros [= -> ->]. by apply Hne.
    + intros [-> ->]. by apply Hne.
Qed.

Lemma filter_all_cells (l : list Cell) : filter (λ c : Cell, c ∉ []) l = l.
Proof.
  induction l as [|c l IH]; [done|]. rewrite filter_cons.
  rewrite decide_True by apply not_elem_of_nil. by rewrite IH.
Qed.

Lemma list_filter_filter_ne (cell : Cell) (cells l : list Cell) :
  filter (λ c : Cell, c ∉ cells) (filter (λ c : Cell, c ≠ cell) l) =
  filter (λ c : Cell, c ∉ cell :: cells) l.
Proof.
  rewrite list_filter_filter. apply list_filter_iff. intros c.
  rewrite not_elem_of_cons. tauto.
Qed.

(** The timers of a list of cells of the grid, fired in a row: each cell
    that still holds the stamped state becomes ALIVE, no other cell changes,
    and the cells leave the tracked list. *)
Lemma fireAll_rect rows cols duration stamped (cells : list Cell) : ∀ st : State,
  rectangular rows cols (gridRef st) → Forall (inGrid rows cols) cells →
  ∃ st',
    fireAll (timersFor duration stamped cells) st = Some st' ∧
    rectangular rows cols (gridRef st') ∧
    (∀ r c, cellAt (gridRef st') r c =
       if decide ((r, c) ∈ cells ∧ cellAt (gridRef st) r c = Some stamped)
       then Some ALIVE else cellAt (gridRef st) r c) ∧
    pendingCellsRef st' = filter (λ c : Cell, c ∉ cells) (pendingCellsRef st).
Proof.
  induction cells as [|cell cells IH]; intros st Hrect Hall.
  - exists st. split; [done|]. split; [done|]. split.
    + intros r c. rewrite decide_False; [done|]. intros [Hin _].
      by apply elem_of_nil in Hin.
    + symmetry. apply filter_all_cells.
  - apply Forall_cons in Hall as [Hcell Hall].
    destruct (timeoutCallback_rect rows cols stamped cell st Hrect Hcell)
      as (st1 & Hfire & Hrect1 & Hat1 & Hpend1 & _).
    destruct (IH st1 Hrect1 Hall) as (st' & Hrest & Hrect' & Hat' & Hpend').
    exists st'. split; [|split; [done|split]].
    + simpl. unfold fire. simpl. rewrite Hfire. simpl. exact Hrest.
    + intros r c. rewrite Hat', Hat1.
      destruct (decide ((r, c) = cell)) as [<-|Hne].
      * destruct (decide (cellAt (gridRef st) r c = Some stamped)) as [Heq|Hneq].
        -- rewrite (decide_True (P := _ = _ ∧ _)) by done.
           rewrite (decide_True (P := _ ∈ _ :: _ ∧ _))
             by (split; [apply list_elem_of_here|done]).
           by case_decide.
        -- rewrite (decide_False (P := _ = _ ∧ _)) by tauto.
           rewrite (decide_False (P := _ ∈ _ :: _ ∧ _)) by tauto.
           rewrite decide_False by tauto. done.
      * rewrite (decide_False (P := _ = _ ∧ _)) by tauto.
        destruct (decide ((r, c) ∈ cells ∧ cellAt (gridRef st) r c = Some stamped))
          as [[Hin Heq]|Hno].
        -- rewrite decide_True; [done|]. split; [by apply list_elem_of_further|done].
        -- rewrite decide_False; [done|]. rewrite elem_of_cons. tauto.
    + rewrite Hpend', Hpend1. apply list_filter_filter_ne.
Qed.

Lemma filter_not_elem_of_self (cells : list Cell) :
  filter (λ c : Cell, c ∉ cells) cells = [].
Proof.
  assert (∀ l, (∀ c, c ∈ l → c ∈ cells) → filter (λ c : Cell, c ∉ cells) l = [])
    as Hgen.
  { induction l as [|c l IH]; intros Hsub; [done|].
    rewrite filter_cons, decide_False
      by (intros Hn; apply Hn, Hsub, list_elem_of_here).
    apply IH. intros c' Hc'. by apply Hsub, list_elem_of_further. }
  by apply Hgen.
Qed.

Lemma iter_gameStep (n : nat) (st : State) :
  gridRef (Nat.iter n gameStep st) = Nat.iter n V2.updateGrid (gridRef st) ∧
  pendingCellsRef (Nat.iter n gameStep st) = pendingCellsRef st ∧
  timers (Nat.iter n gameStep st) = timers st.
Proof.
  induction n as [|n (Hg & Hp & Ht)]; [done|]. simpl. by rewrite Hg, Hp, Ht.
Qed.

(** X12: the life of a stamped donation.  What follows the placement
    loop stamps the pixels of the rendering that lie in the grid as PENDING,
    tracks exactly these cells and registers a timer of 3000 ms for each;
    after any number of generations the cells are still PENDING; and when
    the timers then fire, every stamped cell becomes ALIVE, no other cell is
    changed by them, and the tracked list is back to what it was, without
    the cells that the stamp covered. *)
Theorem X12_donation_life_cycle rows cols (amount : string) (c : Candidate)
    (st : State) (n : nat) :
  rectangular rows cols (gridRef st) → (0 < rows)%nat →
  ∃ st1 new st2,
    stampDonation amount c st = Some st1 ∧
    new = filter (inGrid rows cols) (pendingFootprint amount (startX c) (startY c)) ∧
    (0 ≤ startX c < Z.of_nat rows → 0 ≤ startY c + 2 < Z.of_nat cols → new ≠ []) ∧
    pendingCellsRef st1 = pendingCellsRef st ++ new ∧
    timers st1 = timers st ++ timersFor 3000 PENDING new ∧
    (∀ r col, (r, col) ∉ new → cellAt (gridRef st1) r col = cellAt (gridRef st) r col) ∧
    (∀ cell, cell ∈ new →
       cellAt (gridRef (Nat.iter n gameStep st1)) cell.1 cell.2 = Some PENDING) ∧
    fireAll (timersFor 3000 PENDING new) (Nat.iter n gameStep st1) = Some st2 ∧
    (∀ cell, cell ∈ new → cellAt (gridRef st2) cell.1 cell.2 = Some ALIVE) ∧
    (∀ r col, (r, col) ∉ new →
       cellAt (gridRef st2) r col = cellAt (gridRef (Nat.iter n gameStep st1)) r col) ∧
    pendingCellsRef st2 = filter (λ cell : Cell, cell ∉ new) (pendingCellsRef st).
Proof.
  intros Hrect Hrows.
  destruct (stampDonation_rect rows cols amount c st Hrect Hrows)
    as (grid' & new & Hcall & Hnew & Hrect' & Hat).
  set (st1 := track CONFIG.PENDING_DURATION PENDING grid' new
                (hasShownInitialTotal st) (calls c) st) in *.
  destruct (iter_gameStep n st1) as (Hgrid & Hpend & _).
  assert (Forall (inGrid rows cols) new) as Hall
    by (rewrite Hnew; apply Forall_filter_inGrid).
  assert (∀ cell, cell ∈ new →
            cellAt (gridRef (Nat.iter n gameStep st1)) cell.1 cell.2 = Some PENDING)
    as Hfrozen.
  { intros [r col] Hin. rewrite Hgrid. simpl.
    assert (cellAt grid' r col = Some PENDING) as Hp
      by (rewrite Hat; by rewrite decide_True).
    unfold cellAt in *. case_decide; [|done].
    apply getCell_iter_updateGrid_protected; [done|by left]. }
  assert (rectangular rows cols (gridRef (Nat.iter n gameStep st1))) as Hrectn
    by (rewrite Hgrid; by apply rectangular_iter_updateGrid).
  destruct (fireAll_rect rows cols 3000 PENDING new (Nat.iter n gameStep st1)
              Hrectn Hall) as (st2 & Hfire & _ & Hat2 & Hpend2).
  exists st1, new, st2. split; [done|]. split; [done|]. split.
  { intros Hr Hc Hnil.
    pose proof (pendingFootprint_top rows cols amount (startX c) (startY c) Hr Hc)
      as Hin.
    rewrite <- Hnew, Hnil in Hin. by apply not_elem_of_nil in Hin. }
  split; [done|]. split; [done|]. split.
  { intros r col Hnin. simpl. rewrite Hat. by rewrite decide_False. }
  split; [done|]. split; [done|]. split; [|split].
  - intros [r col] Hin. simpl. rewrite Hat2.
    rewrite decide_True; [done|]. split; [done|]. by apply (Hfrozen (r, col)).
  - intros r col Hnin. rewrite Hat2. rewrite decide_False; [done|]. tauto.
  - rewrite Hpend2, Hpend. simpl. rewrite filter_app, filter_not_elem_of_self.
    by rewrite app_nil_r.
Qed.

(** A donation of 35 stamped at the top left of the fresh grid, 30
    generations, then its 35 timers. *)
Lemma X12_donation_life_cycle_witness :
  ∃ st1 new st2,
    stampDonation "35" (beforeLoop 0) initialState = Some st1 ∧
    new = filter (inGrid 55 182) (pendingFootprint "35" 0 0) ∧
    length new = 35%nat ∧
    pendingCellsRef st1 = new ∧
    timers st1 = timersFor 3000 PENDING new ∧
    (∀ r col, (r, col) ∉ new →
       cellAt (gridRef st1) r col = cellAt (gridRef initialState) r col) ∧
    (∀ cell, cell ∈ new →
       cellAt (gridRef (Nat.iter 30 gameStep st1)) cell.1 cell.2 = Some PENDING) ∧
    fireAll (timersFor 3000 PENDING new) (Nat.iter 30 gameStep st1) = Some st2 ∧
    (∀ cell, cell ∈ new → cellAt (gridRef st2) cell.1 cell.2 = Some ALIVE) ∧
    (∀ r col, (r, col) ∉ new →
       cellAt (gridRef st2) r col = cellAt (gridRef (Nat.iter 30 gameStep st1)) r col) ∧
    pendingCellsRef st2 = [].
Proof.
  destruct (X12_donation_life_cycle 55 182 "35" (beforeLoop 0) initialState 30
              rectangular_setupGrid (Nat.lt_0_succ 54))
    as (st1 & new & st2 & H1 & H2 & _ & H4 & H5 & H6 & H7 & H8 & H9 & H10 & H11).
  exists st1, new, st2. split; [exact H1|]. split; [exact H2|].
  split; [rewrite H2; vm_compute; reflexivity|].
  split; [exact H4|]. split; [exact H5|]. split; [exact H6|]. split; [exact H7|].
  split; [exact H8|]. split; [exact H9|]. split; [exact H10|exact H11].
Defined.

(** ** What every turn keeps *)

Lemma wellTracked_initialState : wellTracked initialState.
Proof.
  split; [exact rectangular_setupGrid|]. split; [apply Forall_nil_2|].
  split; [apply Forall_nil_2|]. split; [apply Forall_nil_2|].
  intros cell Hin. by apply elem_of_nil in Hin.
Qed.

Lemma wellTracked_track duration stamped grid' cells shown calls0 (st : State) :
  wellTracked st → rectangular 55 182 grid' → Forall (inGrid 55 182) cells →
  wellTracked (track duration stamped grid' cells shown calls0 st).
Proof.
  intros (_ & Hpend & Htimers & Himm & Hhas) Hrect Hcells.
  split; [done|]. simpl. split; [by apply Forall_app|]. split; [|split; [done|]].
  - apply Forall_app. split; [done|]. apply Forall_fmap.
    eapply Forall_impl; [exact Hcells|]. done.
  - intros cell Hin. apply elem_of_app in Hin as [Hin|Hin].
    + destruct (Hhas cell Hin) as (t & Ht & Htarget). exists t.
      split; [|done]. apply elem_of_app. by left.
    + eexists {| delay := duration; stampedAs := stamped; target := cell |}.
      split; [|done]. apply elem_of_app. right.
      apply list_elem_of_fmap. by exists cell.
Qed.

Lemma wellTracked_stampDonation amount c (st st' : State) :
  wellTracked st → stampDonation amount c st = Some st' → wellTracked st'.
Proof.
  intros Hinv Hcall. pose proof Hinv as (Hrect & _).
  destruct (stampDonation_rect 55 182 amount c st Hrect ltac:(lia))
    as (grid' & cells & Hcall' & Hcells & Hrect' & _).
  rewrite Hcall' in Hcall. injection Hcall as <-.
  apply wellTracked_track; [done|done|]. rewrite Hcells. apply Forall_filter_inGrid.
Qed.

Lemma wellTracked_turn random (st st' : State) :
  wellTracked st → turn random st st' → wellTracked st'.
Proof.
  intros Hinv Hturn. pose proof Hinv as (Hrect & Hpend & Htimers & Himm & Hhas).
  destruct Hturn as [st|fuel rawAmount st st' Hcall|fuel rawAmount st st' Hcall
                    |raw st st' Hcall|value st st' Hcall|t st st' Ht Hcall].
  - split; [by apply rectangular_updateGridWith|done].
  - unfold donationHandlerV2 in Hcall.
    destruct (choosePlacementV2 _ _ _ _ _ _ _) as [c|]; [|done].
    by eapply wellTracked_stampDonation.
  - unfold donationHandlerV1 in Hcall.
    destruct (choosePlacementV1 _ _ _ _ _) as [c|]; [|done].
    by eapply wellTracked_stampDonation.
  - unfold initialTotalEffect in Hcall.
    destruct (truthy raw && negb (hasShownInitialTotal st)); [|by injection Hcall as <-].
    destruct (setLargeDigitsAsInitial_rect 55 182 (gridRef st) (floorString raw) []
                Hrect ltac:(lia)) as (grid' & cells & Hcall' & Hcells & Hrect' & _).
    rewrite Hcall' in Hcall. simpl in Hcall. injection Hcall as <-.
    apply wellTracked_track; [done|done|]. rewrite Hcells. apply Forall_filter_inGrid.
  - unfold restampImmune in Hcall.
    destruct (setTotalAsImmune_rect 55 182 (gridRef st) value (immuneCellsRef st)
                Hrect ltac:(lia)) as (grid' & cells & Hcall' & Hcells & Hrect' & _).
    rewrite Hcall' in Hcall. simpl in Hcall. injection Hcall as <-.
    split; [done|]. simpl. split; [done|]. split; [done|]. split; [|done].
    rewrite Hcells. apply Forall_filter_inGrid.
  - rewrite Forall_forall in Htimers. pose proof (Htimers t Ht) as Htarget.
    destruct (timeoutCallback_rect 55 182 (stampedAs t) (target t) st Hrect Htarget)
      as (st1 & Hcall' & Hrect' & _ & Hpend' & Htimers' & Himm' & _).
    unfold fire in Hcall. rewrite Hcall' in Hcall. injection Hcall as <-.
    split; [done|]. rewrite Hpend', Htimers', Himm'.
    split.
    { apply Forall_forall. intros x Hx. apply list_elem_of_filter in Hx as [_ Hx].
      rewrite Forall_forall in Hpend. by apply Hpend. }
    split; [by apply Forall_forall|].
    split; [done|]. intros cell Hin. apply list_elem_of_filter in Hin as [_ Hin].
    by apply Hhas.
Qed.

(** X19: in every state that the component reaches from its initial
    state, through simulation steps, donations, totals and timers in any
    order, the grid has its 55 by 182 shape, every tracked cell, every timer
    target and every immune cell is a position of the grid, every tracked
    cell has a registered timer, and no registered timer throws when it
    fires. *)
Theorem X19_reachable_states_are_well_tracked random (st : State) :
  rtc (turn random) initialState st →
  wellTracked st ∧ ∀ t, t ∈ timers st → is_Some (fire t st).
Proof.
  intros Hreach.
  assert (wellTracked st) as Hinv.
  { revert st Hreach. apply rtc_ind_r.
    - exact wellTracked_initialState.
    - intros st1 st2 _ Hturn IH. by eapply wellTracked_turn. }
  split; [done|]. intros t Ht.
  destruct Hinv as (Hrect & _ & Htimers & _). rewrite Forall_forall in Htimers.
  destruct (timeoutCallback_rect 55 182 (stampedAs t) (target t) st Hrect
              (Htimers t Ht)) as (st' & Hcall & _).
  unfold fire. rewrite Hcall. by eexists.
Qed.

(** The component after the immune total 250, a donation of 25 and a
    simulation step: it tracks 35 cells with 35 timers and holds 188 immune
    cells. *)
Lemma X19_reachable_states_are_well_tracked_witness :
  length (pendingCellsRef (gameStep afterDonation25)) = 35%nat ∧
  length (timers (gameStep afterDonation25)) = 35%nat ∧
  length (immuneCellsRef (gameStep afterDonation25)) = 188%nat ∧
  wellTracked (gameStep afterDonation25) ∧
  ∀ t, t ∈ timers (gameStep afterDonation25) →
    is_Some (fire t (gameStep afterDonation25)).
Proof.
  split; [vm_compute; reflexivity|]. split; [vm_compute; reflexivity|].
  split; [vm_compute; reflexivity|].
  apply (X19_reachable_states_are_well_tracked overlapThenFree
           (gameStep afterDonation25)).
  eapply rtc_l; [apply (turn_immuneTotal _ (Some (JsFinite 250)) _ afterTotal250)|].
  { vm_compute. reflexivity. }
  eapply rtc_l;
    [apply (turn_donationV2 _ 50 (Some (JsFinite 25)) _ afterDonation25)|].
  { vm_compute. reflexivity. }
  apply rtc_once. apply turn_game.
Defined.

(** ** Frames *)

(** X17: after the game loop advanced the simulation at a frame, later
    frames for which the test of elapsed time fails leave the grid and the
    time of the last update as they are, however many there are: the
    simulation is not stepped by repaints.  The test is any relation on
    time stamps. *)
Theorem X17_gameLoop_skips_early_frames {Timestamp : Type}
    (elapsed : Timestamp → Timestamp → bool)
    (grid : GridType) (last timestamp : Timestamp) (frames : list Timestamp) :
  elapsed timestamp last = true →
  Forall (λ t, elapsed t timestamp = false) frames →
  foldl (λ fs t, gameLoop Timestamp elapsed t fs)
    (gameLoop Timestamp elapsed timestamp (grid, last)) frames =
  (V2.updateGrid grid, timestamp).
Proof.
  intros Hstep Hearly. unfold gameLoop at 2. simpl. rewrite Hstep.
  induction Hearly as [|t frames Ht _ IH]; [done|].
  simpl. unfold gameLoop at 2. simpl. by rewrite Ht.
Qed.

Lemma X17_gameLoop_skips_early_frames_witness :
  foldl (λ fs t, gameLoop Z (λ t last, bool_decide (t - last >= 100)) t fs)
    (gameLoop Z (λ t last, bool_decide (t - last >= 100)) 116 (column3, 0))
    [133; 150; 166; 183; 200] =
  (V2.updateGrid column3, 116).
Proof.
  apply (X17_gameLoop_skips_early_frames
           (λ t last, bool_decide (t - last >= 100)) column3 0 116
           [133; 150; 166; 183; 200]).
  - reflexivity.
  - repeat constructor.
Defined.

(** ** Stamps and generations *)

Lemma cellAt_iter_updateGrid_protected (n : nat) (grid : GridType) r c s :
  cellAt grid r c = Some s → protected s →
  cellAt (Nat.iter n V2.updateGrid grid) r c = Some s.
Proof.
  unfold cellAt. case_decide; [|done]. apply getCell_iter_updateGrid_protected.
Qed.

(** X6: what a stamping function wrote stays as written for any number
    of generations: on a rectangular grid, the cells returned by
    [setDigitAsPending] still hold PENDING, those returned by
    [setLargeDigitsAsInitial] INITIAL and those returned by
    [setTotalAsImmune] IMMUNE after [n] steps, and the grid keeps its shape. *)
Theorem X6_stamps_survive_generations rows cols (grid : GridType) (n : nat) :
  rectangular rows cols grid → (0 < rows)%nat →
  (∀ digit startRow startCol, ∃ grid' cells,
     setDigitAsPending grid digit startRow startCol [] = Some (grid', cells) ∧
     rectangular rows cols (Nat.iter n V2.updateGrid grid') ∧
     ∀ cell, cell ∈ cells →
       cellAt (Nat.iter n V2.updateGrid grid') cell.1 cell.2 = Some PENDING) ∧
  (∀ digit, ∃ grid' cells,
     setLargeDigitsAsInitial grid digit [] = Some (grid', cells) ∧
     rectangular rows cols (Nat.iter n V2.updateGrid grid') ∧
     ∀ cell, cell ∈ cells →
       cellAt (Nat.iter n V2.updateGrid grid') cell.1 cell.2 = Some INITIAL) ∧
  (∀ total previous, ∃ grid' cells,
     setTotalAsImmune grid total previous = Some (grid', cells) ∧
     rectangular rows cols (Nat.iter n V2.updateGrid grid') ∧
     ∀ cell, cell ∈ cells →
       cellAt (Nat.iter n V2.updateGrid grid') cell.1 cell.2 = Some IMMUNE).
Proof.
  intros Hrect Hrows. split; [|split].
  - intros digit startRow startCol.
    destruct (setDigitAsPending_rect rows cols grid digit startRow startCol []
                Hrect Hrows) as (grid' & cells & Hcall & _ & Hrect' & Hat).
    exists grid', cells. split; [done|].
    split; [by apply rectangular_iter_updateGrid|].
    intros [r c] Hin. simpl. apply cellAt_iter_updateGrid_protected; [|by left].
    rewrite Hat. by rewrite decide_True.
  - intros digit.
    destruct (setLargeDigitsAsInitial_rect rows cols grid digit [] Hrect Hrows)
      as (grid' & cells & Hcall & _ & Hrect' & Hat).
    exists grid', cells. split; [done|].
    split; [by apply rectangular_iter_updateGrid|].
    intros [r c] Hin. simpl.
    apply cellAt_iter_updateGrid_protected; [|right; by left].
    rewrite Hat. by rewrite decide_True.
  - intros total previous.
    destruct (setTotalAsImmune_rect rows cols grid total previous Hrect Hrows)
      as (grid' & cells & Hcall & _ & Hrect' & Hat).
    exists grid', cells. split; [done|].
    split; [by apply rectangular_iter_updateGrid|].
    intros [r c] Hin. simpl.
    apply cellAt_iter_updateGrid_protected; [|right; by right].
    rewrite Hat. by rewrite decide_True.
Qed.

Lemma X6_stamps_survive_generations_witness :
  ∃ grid' cells,
    setDigitAsPending setupGrid "25" 3 4 [] = Some (grid', cells) ∧
    rectangular 55 182 (Nat.iter 7 V2.updateGrid grid') ∧
    ∀ cell, cell ∈ cells →
      cellAt (Nat.iter 7 V2.updateGrid grid') cell.1 cell.2 = Some PENDING.
Proof.
  apply (proj1 (X6_stamps_survive_generations 55 182 setupGrid 7
                  rectangular_setupGrid (Nat.lt_0_succ 54)) "25" 3 4).
Defined.

(** ** The neighborhood *)

Lemma filter_ext_elem {A} (P Q : A → Prop) `{∀ x, Decision (P x)}
    `{∀ x, Decision (Q x)} (l : list A) :
  (∀ x, x ∈ l → (P x ↔ Q x)) → filter P l = filter Q l.
Proof.
  induction l as [|x l IH]; intros Hext; [done|].
  rewrite !filter_cons.
  rewrite IH by (intros y Hy; apply Hext; by apply list_elem_of_further).
  apply decide_ext, Hext, list_elem_of_here.
Qed.

Lemma elem_of_neighborOffsets d :
  d ∈ neighborOffsets → -1 ≤ d.1 ≤ 1 ∧ -1 ≤ d.2 ≤ 1.
Proof.
  unfold neighborOffsets. rewrite !elem_of_cons, elem_of_nil.
  intros Hd. repeat (destruct Hd as [-> | Hd]; [simpl; lia|]). done.
Qed.

(** X20: the next state of a cell depends on the 3 by 3 block around
    it and on nothing else: two rectangular grids, of the same size or not,
    that agree on the cell and on its neighbors (a neighbor missing in one
    being missing in the other) give the cell the same next state. *)
Theorem X20_updateGrid_is_local rows1 cols1 rows2 cols2
    (grid1 grid2 : GridType) (i j : nat) :
  rectangular rows1 cols1 grid1 → rectangular rows2 cols2 grid2 →
  (∀ di dj, -1 ≤ di ≤ 1 → -1 ≤ dj ≤ 1 →
     cellAt grid1 (Z.of_nat i + di) (Z.of_nat j + dj) =
     cellAt grid2 (Z.of_nat i + di) (Z.of_nat j + dj)) →
  getCell (V2.updateGrid grid1) i j = getCell (V2.updateGrid grid2) i j.
Proof.
  intros Hrect1 Hrect2 Hsame. unfold V2.updateGrid.
  rewrite !getCell_updateGridWith.
  assert (getCell grid1 i j = getCell grid2 i j) as Hcell.
  { rewrite <- !cellAt_of_nat. pose proof (Hsame 0 0 ltac:(lia) ltac:(lia)) as H0.
    by rewrite !Z.add_0_r in H0. }
  rewrite <- Hcell. destruct (getCell grid1 i j) as [s|]; [|done]. simpl. f_equal.
  unfold nextCell.
  rewrite (countLiveNeighbors_aliveNeighbors _ _ _ _ _ Hrect1),
    (countLiveNeighbors_aliveNeighbors _ _ _ _ _ Hrect2).
  assert (aliveNeighbors grid1 (Z.of_nat i) (Z.of_nat j) =
          aliveNeighbors grid2 (Z.of_nat i) (Z.of_nat j)) as ->; [|done].
  unfold aliveNeighbors. do 2 f_equal. apply filter_ext_elem.
  intros d Hd. apply elem_of_neighborOffsets in Hd as [H1 H2].
  by rewrite Hsame.
Qed.

Lemma X20_updateGrid_is_local_witness :
  getCell (V2.updateGrid column3) 1 1 = getCell (V2.updateGrid (blinkerV 5 5 1 1)) 1 1.
Proof.
  apply (X20_updateGrid_is_local 3 3 5 5 column3 (blinkerV 5 5 1 1) 1 1).
  - split; [reflexivity|repeat constructor].
  - apply rectangular_gridOf.
  - intros di dj Hi Hj.
    assert (di = -1 ∨ di = 0 ∨ di = 1) as Hdi by lia.
    assert (dj = -1 ∨ dj = 0 ∨ dj = 1) as Hdj by lia.
    destruct Hdi as [-> | [-> | ->]], Hdj as [-> | [-> | ->]]; reflexivity.
Defined.

(** ** A grid without rows *)

(** X18: on an array without rows the generation step and the neighbor
    count do nothing and raise nothing, whereas stamping a donation at an
    anchor that puts the top pixel of the currency symbol at non-negative
    coordinates and firing any timer fail, on reading [grid[0]] and
    [gridRef.current[cell.row]]. *)
Theorem X18_grid_without_rows :
  V2.updateGrid [] = [] ∧ V1.updateGrid [] = [] ∧
  (∀ row col, countLiveNeighbors [] row col = 0) ∧
  (∀ digit startRow startCol cells,
     0 ≤ startRow → 0 ≤ startCol + 2 →
     setDigitAsPending [] digit startRow startCol cells = None) ∧
  (∀ stamped cell st, gridRef st = [] → timeoutCallback stamped cell st = None).
Proof.
  split; [done|]. split; [done|]. split; [|split].
  - intros row col. apply countLiveNeighbors_noAlive. by intros [|i] j.
  - intros digit startRow startCol cells Hr Hc.
    unfold setDigitAsPending.
    assert (∃ rest, symbols0 = (1, 2) :: rest) as [rest ->]
      by (eexists; vm_compute; reflexivity).
    simpl. unfold stampPixel, inBounds. simpl.
    rewrite (bool_decide_eq_true_2 (2 + startCol >= 0)) by lia.
    rewrite (bool_decide_eq_true_2 (1 + startRow - 1 >= 0)) by lia.
    done.
  - intros stamped cell st Hempty. unfold timeoutCallback. rewrite Hempty.
    rewrite lookup_nil. by destruct (bool_decide (0 ≤ cell.1)).
Qed.

Lemma X18_grid_without_rows_witness :
  setDigitAsPending [] "5" 0 0 [] = None.
Proof.
  apply (proj1 (proj2 (proj2 (proj2 X18_grid_without_rows))) "5" 0 0 []); lia.
Defined.

(** ** Glyphs and their declared widths *)

Lemma digitsDoubledWidths_twice d :
  digitsDoubledWidths !! d = Z.mul 2 <$> digitsWidths !! d.
Proof.
  destruct (decide (0 ≤ d ≤ 9)) as [Hd|Hd].
  - assert (d = 0 ∨ d = 1 ∨ d = 2 ∨ d = 3 ∨ d = 4 ∨ d = 5 ∨ d = 6 ∨ d = 7 ∨
            d = 8 ∨ d = 9) as Hcases by lia.
    repeat (destruct Hcases as [-> | Hcases]; [reflexivity|]). by subst.
  - assert (digitsWidths !! d = None) as ->.
    { apply not_elem_of_list_to_map_1. simpl. rewrite !elem_of_cons, elem_of_nil. lia. }
    apply not_elem_of_list_to_map_1. simpl. rewrite !elem_of_cons, elem_of_nil. lia.
Qed.

Lemma digitsLarge_wider d glyph :
  digitsLarge !! d = Some glyph →
  ∃ p, p ∈ glyph ∧ widthOr digitsLargeWidths (Some d) 7 < p.2.
Proof.
  intros Hd. apply elem_of_list_to_map_2 in Hd.
  rewrite !elem_of_cons, elem_of_nil in Hd.
  repeat (destruct Hd as [Hd|Hd];
    [injection Hd as -> ->; apply Exists_exists;
     refine (bool_decide_unpack _ _); vm_compute; exact I|]).
  done.
Qed.

(** X11: the glyph tables and the widths declared for them.  Every
    small digit has no repeated pixel and fits in 5 rows and in its
    declared width, every doubled digit in 10 rows and in its declared
    width, which is twice the small one; the small currency symbol fits in
    7 rows by 3 columns and the doubled one in 14 by 6.  Every large digit,
    in contrast, has a pixel in a column beyond its declared width. *)
Theorem X11_glyphs_and_declared_widths :
  (∀ d glyph, digits !! d = Some glyph →
     NoDup glyph ∧
     Forall (λ p, 1 ≤ p.1 ≤ 5 ∧ 1 ≤ p.2 ≤ widthOr digitsWidths (Some d) 3) glyph) ∧
  (∀ d glyph, digitsDoubled !! d = Some glyph →
     NoDup glyph ∧
     Forall (λ p, 1 ≤ p.1 ≤ 10 ∧ 1 ≤ p.2 ≤ widthOr digitsDoubledWidths (Some d) 6)
       glyph) ∧
  (∀ d, digitsDoubledWidths !! d = Z.mul 2 <$> digitsWidths !! d) ∧
  Forall (λ p, 1 ≤ p.1 ≤ 7 ∧ 1 ≤ p.2 ≤ 3) symbols0 ∧
  Forall (λ p, 1 ≤ p.1 ≤ 14 ∧ 1 ≤ p.2 ≤ 6) symbolDoubled ∧
  (∀ d glyph, digitsLarge !! d = Some glyph →
     ∃ p, p ∈ glyph ∧ widthOr digitsLargeWidths (Some d) 7 < p.2).
Proof.
  split; [|split; [|split; [|split; [|split]]]].
  - intros d glyph Hd. destruct (digits_fit d glyph Hd). by split.
  - intros d glyph Hd. destruct (digitsDoubled_fit d glyph Hd). by split.
  - apply digitsDoubledWidths_twice.
  - apply symbols0_fit.
  - apply symbolDoubled_fit.
  - apply digitsLarge_wider.
Qed.

Lemma X11_glyphs_and_declared_widths_witness :
  ∃ glyph,
    digitsDoubled !! 4 = Some glyph ∧ NoDup glyph ∧
    Forall (λ p, 1 ≤ p.1 ≤ 10 ∧ 1 ≤ p.2 ≤ widthOr digitsDoubledWidths (Some 4) 6) glyph.
Proof.
  eexists. split; [vm_compute; reflexivity|].
  apply (proj1 (proj2 X11_glyphs_and_declared_widths) 4). vm_compute. reflexivity.
Defined.

(** The initial total of "00": the two large digits overlap and a cell is
    tracked twice. *)
Example initial_00_overlaps : ¬ NoDup (initialFootprint "00").
Proof. intros H. apply (bool_decide_pack _) in H. vm_compute in H. exact H. Qed.
